(** * Circle Condominium damage dashboard: filter and aggregation logic

    A shallow embedding of [src/app.py]: the data loading ([load_data]),
    the derivation of the "Damage Type List" column, the filter function
    [apply_filters] and the damage-type tally, together with the fragment
    of pandas and of Python's [re] and [str] that these lines call.

    Modelling conventions.
    - Text is Latin-1: a Python [str] whose code points are below 256 is
      the [string] of those codes.  Text with other code points is not in
      the model.
    - A column is homogeneous.  "Tower" holds strings or NaN and
      "Damage Type List" holds lists of strings.  "Room No" and
      "Damages Found" have a dtype: an object column holds strings or
      NaN; an int64 or float64 column holds numbers or NaN, each number
      kept as its numeral, since only its identity is read.
      "Severity Score" is an int64 or a float64 column: the values of an
      int64 column are integers, those of a float64 column are floats or
      NaN.  A number is the rational it denotes.
    - The bounds of the severity range are floats, as the slider returns
      them; the integers 0 and 10 of [_run_tests] denote the same
      numbers.
    - A table is a list of rows and a record of the columns it has.
    - pandas is the 1.x and 2.x line: boolean indexing aligns a boolean
      series with the frame's index, logical operators align their
      operands, and [apply] on an empty series returns an empty series of
      the same dtype.
    - An exception is a value: a computation returns [Ok v] or [Raise e]. *)

From Stdlib Require Import List String Ascii Bool Arith Lia.
From Stdlib Require Import ZArith QArith Qround Permutation Sorted.
Import ListNotations.
Local Open Scope string_scope.
Local Open Scope list_scope.
Local Open Scope nat_scope.

Set Implicit Arguments.

(** ** Exceptions *)

Inductive exn : Type :=
| IndexingError                 (* pandas.errors.IndexingError *)
| KeyError (key : string)       (* a column that is not there *)
| PatternError                  (* re.error: the pattern does not compile *)
| FileNotFoundError
| ParseError                    (* the reader could not parse the file *)
| AttributeError                (* [.str] on a column that holds no text;
                                   [split] on a number *)
| OutsideFragment.              (* not a Python exception: the pattern uses
                                   regex syntax this development leaves out *)

Inductive result (A : Type) : Type :=
| Ok (a : A)
| Raise (e : exn).

Arguments Ok {A} a.
Arguments Raise {A} e.

Definition bind {A B : Type} (m : result A) (k : A -> result B) : result B :=
  match m with
  | Ok a => k a
  | Raise e => Raise e
  end.

Notation "x <- m ;; k" := (bind m (fun x => k))
  (at level 61, m at next level, right associativity).

Definition fmap {A B} (f : A -> B) (m : result A) : result B :=
  match m with Ok a => Ok (f a) | Raise e => Raise e end.

(** ** Python strings *)

Module Str.

(** The letters that have a lower-case form below 256: A to Z, and the
    codes 192 to 222 but for the multiplication sign, 215. *)
Definition is_upper (c : ascii) : bool :=
  let n := nat_of_ascii c in
  ((65 <=? n) && (n <=? 90))
  || ((192 <=? n) && (n <=? 222) && negb (n =? 215)).

(** The case folding of [re.IGNORECASE] on codes below 256. *)
Definition lower_char (c : ascii) : ascii :=
  if is_upper c then ascii_of_nat (nat_of_ascii c + 32) else c.

(** [s.lower()] *)
Fixpoint lower (s : string) : string :=
  match s with
  | EmptyString => EmptyString
  | String c s' => String (lower_char c) (lower s')
  end.

(** Characters removed by [s.strip()]: tab, line feed, vertical tab, form
    feed, carriage return, the four separators 28 to 31, space, next line
    (133) and no-break space (160). *)
Definition is_space (c : ascii) : bool :=
  let n := nat_of_ascii c in
  ((9 <=? n) && (n <=? 13)) || ((28 <=? n) && (n <=? 31)) || (n =? 32)
  || (n =? 133) || (n =? 160).

Fixpoint lstrip (s : string) : string :=
  match s with
  | EmptyString => EmptyString
  | String c s' => if is_space c then lstrip s' else s
  end.

(** Right strip: a character is kept when something is kept after it or
    when it is not white space. *)
Fixpoint rstrip (s : string) : string :=
  match s with
  | EmptyString => EmptyString
  | String c s' =>
      match rstrip s' with
      | EmptyString => if is_space c then EmptyString else String c EmptyString
      | t => String c t
      end
  end.

(** [s.strip()] *)
Definition strip (s : string) : string := rstrip (lstrip s).

Definition is_empty (s : string) : bool :=
  match s with EmptyString => true | _ => false end.

(** [s.split(sep)] for a one-character separator: the fragments between
    the separators, in order; an empty string gives one empty fragment. *)
Fixpoint split (sep : ascii) (s : string) : list string :=
  match s with
  | EmptyString => [EmptyString]
  | String c s' =>
      if Ascii.eqb c sep then EmptyString :: split sep s'
      else match split sep s' with
           | frag :: rest => String c frag :: rest
           | [] => [String c EmptyString]
           end
  end.

(** [s.endswith(suffix)] *)
Fixpoint endswith (s suffix : string) : bool :=
  String.eqb s suffix ||
  match s with
  | EmptyString => false
  | String _ s' => endswith s' suffix
  end.

(** [x in xs] for a list of strings *)
Definition mem (x : string) (xs : list string) : bool :=
  existsb (String.eqb x) xs.

End Str.

(** ** Python's [re], the fragment modelled

    A pattern is compiled with the flag IGNORECASE.  The fragment covers
    the patterns made of ordinary characters, the dot, and a backslash
    followed by a special character.  A pattern that ends in a lone
    backslash does not compile.  Every other use of a special character is
    left out of the model and reported as [NotModelled]. *)

Module Re.

Inductive token : Type :=
| Lit (c : ascii)      (* this character, whatever its case *)
| AnyChar.             (* the dot: any character but a line feed *)

Inductive compiled : Type :=
| Pattern (ts : list token)
| BadPattern
| NotModelled.

(** The special characters of the pattern language. *)
Definition specials : list ascii :=
  list_ascii_of_string ".^$*+?{}[]\|()".

Definition is_special (c : ascii) : bool := existsb (Ascii.eqb c) specials.

Definition push (t : token) (rest : compiled) : compiled :=
  match rest with
  | Pattern ts => Pattern (t :: ts)
  | other => other
  end.

Fixpoint compile (pat : string) : compiled :=
  match pat with
  | EmptyString => Pattern []
  | String c pat' =>
      if Ascii.eqb c "\" then
        match pat' with
        | EmptyString => BadPattern
        | String d pat'' =>
            if is_special d then push (Lit d) (compile pat'') else NotModelled
        end
      else if Ascii.eqb c "." then push AnyChar (compile pat')
      else if is_special c then NotModelled
      else push (Lit c) (compile pat')
  end.

Definition token_matches (t : token) (c : ascii) : bool :=
  match t with
  | Lit p => Ascii.eqb (Str.lower_char p) (Str.lower_char c)
  | AnyChar => negb (Ascii.eqb c "010")
  end.

(** The tokens match a prefix of [s]. *)
Fixpoint match_here (ts : list token) (s : string) : bool :=
  match ts, s with
  | [], _ => true
  | _ :: _, EmptyString => false
  | t :: ts', String c s' => token_matches t c && match_here ts' s'
  end.

(** [pattern.search(s) is not None] *)
Fixpoint search (ts : list token) (s : string) : bool :=
  match_here ts s ||
  match s with
  | EmptyString => false
  | String _ s' => search ts s'
  end.

End Re.

(** ** Numbers and dtypes *)

(** [float(n)] for an integer [n], which is also the conversion of an int64
    value to float64: the nearest float, a tie going to the even mantissa.
    A float has 53 bits of mantissa.  [round53] is the case [0 <= m]: with
    [e] bits too many, [m] is rounded to a multiple of [2 ^ e]. *)
Definition round_at (e m : Z) : Z :=
  ((if (2 ^ (e - 1) <? m mod 2 ^ e)
       || ((m mod 2 ^ e =? 2 ^ (e - 1)) && Z.odd (m / 2 ^ e))
    then m / 2 ^ e + 1 else m / 2 ^ e) * 2 ^ e)%Z.

Definition round53 (m : Z) : Z :=
  let e := (Z.log2 m - 52)%Z in
  if (e <=? 0)%Z then m else round_at e m.

Definition float_of_int (n : Z) : Z :=
  if (n <? 0)%Z then (- round53 (- n))%Z else round53 n.

(** The dtype of a column of numbers, and the dtype of a column that may
    hold text. *)
Inductive numeric : Type :=
| int64
| float64.

Inductive dtype : Type :=
| object
| number (n : numeric).

Definition is_object (dt : dtype) : bool :=
  match dt with object => true | number _ => false end.

(** The value of a cell as a float64: a value of a float64 column is one,
    a value of an int64 column is converted. *)
Definition as_float (dt : numeric) (v : Q) : Q :=
  match dt with
  | int64 => inject_Z (float_of_int (Qfloor v))
  | float64 => v
  end.

(** ** The data model

    A [Report] is one row of the table.  [label] is the row's index label:
    pandas keeps it through every selection.  A field of a column that the
    table does not have is never read. *)

Record Report : Type := {
  label : nat;
  room_no : option string;          (* "Room No";          None is NaN *)
  tower : option string;            (* "Tower";            None is NaN *)
  damages_found : option string;    (* "Damages Found";    None is NaN *)
  damage_types : list string;       (* "Damage Type List" *)
  severity_score : option Q;        (* "Severity Score";   None is NaN *)
  others : list (option string)     (* the cells of the remaining columns *)
}.

(** The columns a table has, and the dtype of those whose dtype the code
    depends on.  The dtype of a column the table does not have is not
    read. *)
Record Columns : Type := {
  has_room_no : bool;
  has_tower : bool;
  has_damages_found : bool;
  has_damage_types : bool;
  has_severity_score : bool;
  other_columns : list string;      (* "Image URL" and whatever else *)
  room_no_dtype : dtype;
  damages_found_dtype : dtype;
  severity_score_dtype : numeric
}.

Record DataFrame : Type := {
  columns : Columns;
  rows : list Report
}.

(** The filter selections, module-level variables of [app.py] that
    [apply_filters] reads. *)
Record Criteria : Type := {
  query : string;
  towers : list string;
  damage_type_selection : list string;     (* the variable [damage_types] *)
  severity_range : option (Q * Q)          (* None: a falsy value *)
}.

(** ** The fragment of pandas *)

Module Pandas.

(** A series: values with their index labels. *)
Definition Series (A : Type) : Type := list (nat * A).

Definition index_of {A} (s : Series A) : list nat := map fst s.
Definition values_of {A} (s : Series A) : list A := map snd s.

Definition smap {A B} (f : A -> B) (s : Series A) : Series B :=
  map (fun e => (fst e, f (snd e))) s.

(** [pd.Series(dtype=str)] *)
Definition empty_series {A} : Series A := [].

(** No column at all. *)
Definition no_columns : Columns :=
  {| has_room_no := false; has_tower := false;
     has_damages_found := false; has_damage_types := false;
     has_severity_score := false; other_columns := [];
     room_no_dtype := object; damages_found_dtype := object;
     severity_score_dtype := float64 |}.

(** [pd.DataFrame()] *)
Definition empty_frame : DataFrame :=
  {| columns := no_columns; rows := [] |}.

Definition frame_index (df : DataFrame) : list nat := map label (rows df).

(** The column read by [field], as a series over the frame's index. *)
Definition column {A} (field : Report -> A) (df : DataFrame) : Series A :=
  map (fun r => (label r, field r)) (rows df).

(** [df.get(name, default)] *)
Definition get {A} (has : Columns -> bool) (field : Report -> A)
    (df : DataFrame) (default : Series A) : Series A :=
  if has (columns df) then column field df else default.

(** The dtype of [df.get(name, pd.Series(dtype=str))]: that of the column,
    or object, the dtype of the default. *)
Definition get_dtype (has : Columns -> bool) (dt : Columns -> dtype)
    (df : DataFrame) : dtype :=
  if has (columns df) then dt (columns df) else object.

(** [df[name]] *)
Definition getitem {A} (name : string) (has : Columns -> bool)
    (field : Report -> A) (df : DataFrame) : result (Series A) :=
  if has (columns df) then Ok (column field df) else Raise (KeyError name).

(** [Index.equals] *)
Fixpoint index_equals (i j : list nat) : bool :=
  match i, j with
  | [], [] => true
  | x :: i', y :: j' => Nat.eqb x y && index_equals i' j'
  | _, _ => false
  end.

(** The value at a label. *)
Fixpoint loc {A} (s : Series A) (i : nat) : option A :=
  match s with
  | [] => None
  | (j, x) :: s' => if Nat.eqb i j then Some x else loc s' i
  end.

Fixpoint insert_label (i : nat) (l : list nat) : list nat :=
  match l with
  | [] => [i]
  | j :: l' =>
      if i <? j then i :: l
      else if i =? j then l
      else j :: insert_label i l'
  end.

(** The sorted union of two indexes. *)
Definition union_index (i j : list nat) : list nat :=
  fold_right insert_label [] (i ++ j).

(** Alignment of the two operands of a binary operator: equal indexes are
    paired by position; an empty operand is stretched over the other
    one's index with NaN; otherwise both are reindexed over the sorted
    union of the labels. *)
Definition align {A B} (a : Series A) (b : Series B)
    : Series (option A * option B) :=
  if index_equals (index_of a) (index_of b) then
    map (fun e => (fst (fst e), (Some (snd (fst e)), Some (snd (snd e)))))
        (combine a b)
  else
    match a, b with
    | [], _ => smap (fun y => (None, Some y)) b
    | _, [] => smap (fun x => (Some x, None)) a
    | _, _ => map (fun i => (i, (loc a i, loc b i)))
                  (union_index (index_of a) (index_of b))
    end.

(** A logical operator on one pair of aligned cells.  NaN on the right is
    first filled with False; NaN on the left makes the result NaN, which
    is then filled with False. *)
Definition logical_cell (op : bool -> bool -> bool)
    (c : option bool * option bool) : bool :=
  match c with
  | (Some x, Some y) => op x y
  | (Some x, None) => op x false
  | (None, _) => false
  end.

(** [a | b] and [a & b] *)
Definition series_or (a b : Series bool) : Series bool :=
  smap (logical_cell orb) (align a b).

Definition series_and (a b : Series bool) : Series bool :=
  smap (logical_cell andb) (align a b).

(** [s.str.contains(pat, case=False, na=False)] on a series of dtype [dt].
    The accessor [.str] is refused, with AttributeError, on a series that
    is not of dtype object, be it empty or all NaN.  The pattern is a
    regular expression, compiled before any cell is looked at. *)
Definition str_contains (dt : dtype) (pat : string) (s : Series (option string))
    : result (Series bool) :=
  if is_object dt then
    match Re.compile pat with
    | Re.Pattern ts =>
        Ok (smap (fun x => match x with
                           | Some text => Re.search ts text
                           | None => false
                           end) s)
    | Re.BadPattern => Raise PatternError
    | Re.NotModelled => Raise OutsideFragment
    end
  else Raise AttributeError.

(** [s.isin(values)] *)
Definition isin (values : list string) (s : Series (option string))
    : Series bool :=
  smap (fun x => match x with
                 | Some v => Str.mem v values
                 | None => false
                 end) s.

(** [s >= bound] and [s <= bound] for a series of dtype [dt] and a float
    [bound]: the values are compared as float64, an int64 value being
    converted first; a comparison with NaN is False. *)
Definition series_ge (dt : numeric) (s : Series (option Q)) (bound : Q)
    : Series bool :=
  smap (fun x => match x with
                 | Some v => Qle_bool bound (as_float dt v)
                 | None => false
                 end) s.

Definition series_le (dt : numeric) (s : Series (option Q)) (bound : Q)
    : Series bool :=
  smap (fun x => match x with
                 | Some v => Qle_bool (as_float dt v) bound
                 | None => false
                 end) s.

(** A boolean key is used by position when its index is the frame's;
    otherwise it is reindexed over the frame's index, which fails when a
    row's label is not in the key. *)
Fixpoint reindex_key (key : Series bool) (idx : list nat)
    : result (list bool) :=
  match idx with
  | [] => Ok []
  | i :: idx' =>
      match loc key i with
      | None => Raise IndexingError
      | Some b => bs <- reindex_key key idx' ;; Ok (b :: bs)
      end
  end.

Definition check_bool_indexer (idx : list nat) (key : Series bool)
    : result (list bool) :=
  if index_equals (index_of key) idx then Ok (values_of key)
  else reindex_key key idx.

Fixpoint select {A} (mask : list bool) (l : list A) : list A :=
  match mask, l with
  | b :: mask', x :: l' => if b then x :: select mask' l' else select mask' l'
  | _, _ => []
  end.

(** [df[key]] for a boolean series [key] *)
Definition getitem_bool (df : DataFrame) (key : Series bool)
    : result DataFrame :=
  mask <- check_bool_indexer (frame_index df) key ;;
  Ok {| columns := columns df; rows := select mask (rows df) |}.

(** [s.apply(f)] for a function [f] that returns booleans.  On a series
    with values the result is a boolean series.  On an empty series [f] is
    never called and the result is an empty series of the dtype of [s],
    which for a column of lists is object, not bool. *)
Inductive applied : Type :=
| BoolSeries (s : Series bool)
| EmptyObjectSeries.

Definition apply {A} (f : A -> bool) (s : Series A) : applied :=
  match s with
  | [] => EmptyObjectSeries
  | _ :: _ => BoolSeries (smap f s)
  end.

(** [df[key]] for the result of [apply].  A boolean series selects rows.
    An empty object series is not a boolean indexer: it is read as an empty
    list of column labels, and the result keeps the index and no column. *)
Definition getitem_applied (df : DataFrame) (key : applied) : result DataFrame :=
  match key with
  | BoolSeries s => getitem_bool df s
  | EmptyObjectSeries => Ok {| columns := no_columns; rows := rows df |}
  end.

End Pandas.

(** ** [apply_filters] (lines 149 to 169)

    Each filter builds a key over the current frame and indexes the frame
    with it.  The four filters are named here; [apply_filters] chains them
    as the source does. *)

Import Pandas.

(** Lines 152 to 157: the text filter. *)
Definition text_filter (c : Criteria) (filtered : DataFrame) : result DataFrame :=
  a <- str_contains (get_dtype has_room_no room_no_dtype filtered) (query c)
         (get has_room_no room_no filtered empty_series) ;;
  b <- str_contains (get_dtype has_damages_found damages_found_dtype filtered)
         (query c)
         (get has_damages_found damages_found filtered empty_series) ;;
  getitem_bool filtered (series_or a b).

(** Line 159: the tower filter. *)
Definition tower_filter (c : Criteria) (filtered : DataFrame) : result DataFrame :=
  getitem_bool filtered
    (isin (towers c) (get has_tower tower filtered empty_series)).

(** Lines 161 to 163: the damage-type filter. *)
Definition damage_filter (c : Criteria) (filtered : DataFrame) : result DataFrame :=
  s <- getitem "Damage Type List" has_damage_types damage_types filtered ;;
  getitem_applied filtered
    (apply (fun lst => existsb (fun d => Str.mem d lst) (damage_type_selection c)) s).

(** Lines 165 to 168: the severity filter, for the range [rng]. *)
Definition severity_filter (rng : Q * Q) (filtered : DataFrame) : result DataFrame :=
  lo <- getitem "Severity Score" has_severity_score severity_score filtered ;;
  hi <- getitem "Severity Score" has_severity_score severity_score filtered ;;
  getitem_bool filtered
    (series_and
       (series_ge (severity_score_dtype (columns filtered)) lo (fst rng))
       (series_le (severity_score_dtype (columns filtered)) hi (snd rng))).

(** Truth values of the selections, as Python's [if] reads them. *)
Definition query_given (c : Criteria) : bool := negb (Str.is_empty (query c)).
Definition towers_given (c : Criteria) : bool :=
  match towers c with [] => false | _ :: _ => true end.
Definition damage_types_given (c : Criteria) : bool :=
  match damage_type_selection c with [] => false | _ :: _ => true end.

(** On values [data.copy()] is [data]; the object it creates is shown in the
    store further down. *)
Definition apply_filters (c : Criteria) (data : DataFrame) : result DataFrame :=
  let filtered := data in
  filtered <- (if query_given c then text_filter c filtered else Ok filtered) ;;
  filtered <- (if towers_given c then tower_filter c filtered else Ok filtered) ;;
  filtered <- (if damage_types_given c then damage_filter c filtered
               else Ok filtered) ;;
  (if has_severity_score (columns filtered) then
     match severity_range c with
     | Some rng => severity_filter rng filtered
     | None => Ok filtered
     end
   else Ok filtered).

(** ** The "Damage Type List" column (lines 98 to 103) *)

(** [[d.strip() for d in x.split(",") if d.strip()]] *)
Definition parse_damages (x : string) : list string :=
  map Str.strip
      (filter (fun d => negb (Str.is_empty (Str.strip d))) (Str.split "," x)).

(** [sep.join(xs)] *)
Fixpoint join (sep : string) (l : list string) : string :=
  match l with
  | [] => EmptyString
  | [x] => x
  | x :: l' => (x ++ sep ++ join sep l')%string
  end.

(** [fillna("")] on one cell *)
Definition fillna (x : option string) (v : string) : string :=
  match x with Some s => s | None => v end.

Definition set_damage_types (f : Report -> list string) (df : DataFrame) : DataFrame :=
  {| columns :=
       {| has_room_no := has_room_no (columns df);
          has_tower := has_tower (columns df);
          has_damages_found := has_damages_found (columns df);
          has_damage_types := true;
          has_severity_score := has_severity_score (columns df);
          other_columns := other_columns (columns df);
          room_no_dtype := room_no_dtype (columns df);
          damages_found_dtype := damages_found_dtype (columns df);
          severity_score_dtype := severity_score_dtype (columns df) |};
     rows :=
       map (fun r => {| label := label r; room_no := room_no r; tower := tower r;
                        damages_found := damages_found r;
                        damage_types := f r;
                        severity_score := severity_score r;
                        others := others r |}) (rows df) |}.

(** Lines 98 to 103.  In a column that is not of dtype object a cell is a
    number or NaN: [fillna("")] leaves a number as it is, and [x.split]
    raises AttributeError on it. *)
Definition has_value {A} (x : option A) : bool :=
  match x with Some _ => true | None => false end.

Definition damage_type_list (df : DataFrame) : result DataFrame :=
  if has_damages_found (columns df) then
    if is_object (damages_found_dtype (columns df))
       || negb (existsb (fun r => has_value (damages_found r)) (rows df))
    then Ok (set_damage_types
               (fun r => parse_damages (fillna (damages_found r) "")) df)
    else Raise AttributeError
  else
    Ok (set_damage_types (fun _ => []) df).

(** ** [load_data] (lines 87 to 95) *)

(** What a reader finds at a path. *)
Inductive file : Type :=
| Absent                      (* no such file *)
| Malformed                   (* a file the reader cannot parse *)
| Table (df : DataFrame).     (* a file that parses to [df] *)

Definition FileSystem : Type := string -> file.

Definition read (fs : FileSystem) (path : string) : result DataFrame :=
  match fs path with
  | Absent => Raise FileNotFoundError
  | Malformed => Raise ParseError
  | Table df => Ok df
  end.

(** [pd.read_parquet] and [pd.read_csv]: each is its own parser, so what is
    at a path is given per reader. *)
Record Readers : Type := {
  parquet_files : FileSystem;
  csv_files : FileSystem
}.

Definition read_parquet (fs : Readers) : string -> result DataFrame :=
  read (parquet_files fs).
Definition read_csv (fs : Readers) : string -> result DataFrame :=
  read (csv_files fs).

Definition candidates : list string :=
  ["data/damage_data.parquet"; "data/damage_data.csv"].

Fixpoint load_from (fs : Readers) (paths : list string) : result DataFrame :=
  match paths with
  | [] => Ok empty_frame
  | path :: rest =>
      match (if Str.endswith path "parquet"
             then read_parquet fs path else read_csv fs path) with
      | Raise FileNotFoundError => load_from fs rest
      | r => r
      end
  end.

Definition load_data (fs : Readers) : result DataFrame :=
  load_from fs candidates.

(** The module-level lines 97 to 103: the table the dashboard works on. *)
Definition df (fs : Readers) : result DataFrame :=
  loaded <- load_data fs ;; damage_type_list loaded.

(** ** The damage-type tally (lines 185 to 187)

    [filtered_df.explode("Damage Type List")["Damage Type List"]
       .value_counts().head(10)], which line 184 runs on a frame that is
    not empty. *)

(** [explode]: one entry per element of a row's list, under the row's
    label; a row with an empty list gives one NaN entry. *)
Definition explode_row (r : Report) : Series (option string) :=
  match damage_types r with
  | [] => [(label r, None)]
  | l => map (fun d => (label r, Some d)) l
  end.

Definition explode (filtered_df : DataFrame) : result (Series (option string)) :=
  if has_damage_types (columns filtered_df)
  then Ok (flat_map explode_row (rows filtered_df))
  else Raise (KeyError "Damage Type List").

(** [dropna] on the values *)
Fixpoint dropna {A} (l : list (option A)) : list A :=
  match l with
  | [] => []
  | Some x :: l' => x :: dropna l'
  | None :: l' => dropna l'
  end.

(** The counts of the distinct values, the keys in first-seen order. *)
Fixpoint count_add (k : string) (t : list (string * nat)) : list (string * nat) :=
  match t with
  | [] => [(k, 1)]
  | (k', n) :: t' =>
      if String.eqb k k' then (k', S n) :: t' else (k', n) :: count_add k t'
  end.

Definition count_table (l : list string) : list (string * nat) :=
  fold_left (fun t k => count_add k t) l [].

(** [head(n)] *)
Definition head {A} (n : nat) (l : list A) : list A := firstn n l.

(** Descending by count. *)
Definition descending (l : list (string * nat)) : Prop :=
  StronglySorted (fun a b => snd b <= snd a) l.

Section Tally.

(** [sort_values(ascending=False)] with its default [kind="quicksort"].
    The library documents that sort as not stable, so the tally is
    written over any sort that meets its contract: the result is the
    argument, reordered, descending by count. *)
Variable sort_values : list (string * nat) -> list (string * nat).

(** [s.value_counts()]: NaN dropped, sorted by count, largest first. *)
Definition value_counts (s : Series (option string)) : list (string * nat) :=
  sort_values (count_table (dropna (values_of s))).

(** The tally with the number of entries as a parameter. *)
Definition aggregate_damage_frequency (top_n : nat) (filtered_df : DataFrame)
    : result (list (string * nat)) :=
  s <- explode filtered_df ;;
  Ok (head top_n (value_counts s)).

(** Line 186 *)
Definition tally (filtered_df : DataFrame) : result (list (string * nat)) :=
  aggregate_damage_frequency 10 filtered_df.

End Tally.

(** The contract of [sort_values(ascending=False)]. *)
Definition sort_contract (sort : list (string * nat) -> list (string * nat)) : Prop :=
  forall l, Permutation l (sort l) /\ descending (sort l).

(** A stable sort, descending: the order of equal counts is kept. *)
Fixpoint insert_desc (x : string * nat) (l : list (string * nat)) : list (string * nat) :=
  match l with
  | [] => [x]
  | y :: l' => if snd y <=? snd x then x :: l else y :: insert_desc x l'
  end.

Definition stable_sort (l : list (string * nat)) : list (string * nat) :=
  fold_right insert_desc [] l.

(** *** The sort the library runs

    [Series.sort_values(ascending=False)] sorts with [nargsort]: the values
    are reversed, sorted in ascending order by NumPy's [argsort] with
    [kind="quicksort"], and the outcome is reversed again.  NumPy's
    quicksort, in its portable form, partitions a segment of more than 17
    entries around the median of three and sorts a shorter one by
    insertion; after too many partitions it switches to heapsort, which is
    left out here ([None]).  The array [t] holds positions; [v] holds the
    keys. *)

Module NumPy.

Definition key (v : list nat) (t : list nat) (p : nat) : nat :=
  nth (nth p t 0) v 0.

Definition swap (t : list nat) (i j : nat) : list nat :=
  let x := nth i t 0 in
  let y := nth j t 0 in
  let t1 := firstn i t ++ y :: skipn (S i) t in
  firstn j t1 ++ x :: skipn (S j) t1.

Definition swap_if (b : bool) (t : list nat) (i j : nat) : list nat :=
  if b then swap t i j else t.

(** [do ++pi; while (v[*pi] < vp)] and [do --pj; while (vp < v[*pj])],
    from the position already moved. *)
Fixpoint scan_up (fuel : nat) (v t : list nat) (vp pi : nat) : nat :=
  match fuel with
  | 0 => pi
  | S fuel' =>
      if key v t pi <? vp then scan_up fuel' v t vp (S pi) else pi
  end.

Fixpoint scan_down (fuel : nat) (v t : list nat) (vp pj : nat) : nat :=
  match fuel with
  | 0 => pj
  | S fuel' =>
      if vp <? key v t pj then scan_down fuel' v t vp (pj - 1) else pj
  end.

Fixpoint exchange (fuel : nat) (v t : list nat) (vp pi pj : nat)
    : list nat * nat :=
  match fuel with
  | 0 => (t, pi)
  | S fuel' =>
      let pi' := scan_up (List.length t) v t vp (S pi) in
      let pj' := scan_down (List.length t) v t vp (pj - 1) in
      if pj' <=? pi' then (t, pi')
      else exchange fuel' v (swap t pi' pj') vp pi' pj'
  end.

(** One partition of the segment from [pl] to [pr]: the array after it, and
    the position of the pivot. *)
Definition partition (v t : list nat) (pl pr : nat) : list nat * nat :=
  let pm := pl + (pr - pl) / 2 in
  let t := swap_if (key v t pm <? key v t pl) t pm pl in
  let t := swap_if (key v t pr <? key v t pm) t pr pm in
  let t := swap_if (key v t pm <? key v t pl) t pm pl in
  let vp := key v t pm in
  let t := swap t pm (pr - 1) in
  let (t, pi) := exchange (List.length t) v t vp pl (pr - 1) in
  (swap t pi (pr - 1), pi).

(** The insertion sort: an entry moves left past the entries with a greater
    key.  [sorted] is the part already sorted, the last entry first. *)
Fixpoint insert_left (v : list nat) (x : nat) (sorted : list nat) : list nat :=
  match sorted with
  | [] => [x]
  | y :: sorted' =>
      if nth x v 0 <? nth y v 0 then y :: insert_left v x sorted'
      else x :: sorted
  end.

Definition insertion (v t : list nat) (pl pr : nat) : list nat :=
  firstn pl t
  ++ rev (fold_left (fun sorted x => insert_left v x sorted)
            (firstn (S pr - pl) (skipn pl t)) [])
  ++ skipn (S pr) t.

(** The sort of the segment from [pl] to [pr] with [depth] partitions left.
    The depth is checked when a segment is taken from the stack, which is
    where the larger part of a partition goes. *)
Fixpoint quicksort (fuel : nat) (checked : bool) (depth : Z) (v t : list nat)
    (pl pr : nat) : option (list nat) :=
  match fuel with
  | 0 => None
  | S fuel' =>
      if checked && (depth <? 0)%Z then None
      else if 16 <? pr - pl then
        let (t', pi) := partition v t pl pr in
        if pi - pl <? pr - pi then
          match quicksort fuel' false (depth - 1) v t' pl (pi - 1) with
          | Some t'' => quicksort fuel' true (depth - 1) v t'' (pi + 1) pr
          | None => None
          end
        else
          match quicksort fuel' false (depth - 1) v t' (pi + 1) pr with
          | Some t'' => quicksort fuel' true (depth - 1) v t'' pl (pi - 1)
          | None => None
          end
      else Some (insertion v t pl pr)
  end.

(** [v.argsort(kind="quicksort")] *)
Definition argsort (v : list nat) : option (list nat) :=
  let n := List.length v in
  quicksort (S n) true (2 * Z.of_nat (Nat.log2 n)) v (seq 0 n) 0 (n - 1).

End NumPy.

(** [nargsort(items, ascending=False)]: the positions in the order of the
    sorted values. *)
Definition nargsort (items : list nat) : option (list nat) :=
  let n := List.length items in
  match NumPy.argsort (rev items) with
  | Some sorted => Some (rev (map (fun i => nth i (rev (seq 0 n)) 0) sorted))
  | None => None
  end.

(** [s.sort_values(ascending=False)] on a table of counts.  The empty table
    stands for the case left out. *)
Definition sort_values_quicksort (l : list (string * nat))
    : list (string * nat) :=
  match nargsort (map snd l) with
  | Some order => map (fun i => nth i l (EmptyString, 0)) order
  | None => []
  end.

(** ** The object store

    [apply_filters] once more, over a store of frames, to observe which
    objects are created and which are written.  A frame is an object in the
    store; a variable holds a reference.  [copy] and indexing by a boolean
    key create an object; nothing in the function writes to one. *)

Module Store.

Definition ref : Type := nat.
Definition heap : Type := list DataFrame.
Definition M (A : Type) : Type := heap -> result (A * heap).

Definition ret {A} (a : A) : M A := fun h => Ok (a, h).

Definition mbind {A B} (m : M A) (k : A -> M B) : M B :=
  fun h => match m h with
           | Ok (a, h') => k a h'
           | Raise e => Raise e
           end.

Definition lift {A} (r : result A) : M A :=
  fun h => match r with Ok a => Ok (a, h) | Raise e => Raise e end.

Notation "x <~ m ;; k" := (mbind m (fun x => k))
  (at level 61, m at next level, right associativity).

(** The frame a reference points to. *)
Definition deref (r : ref) : M DataFrame :=
  fun h => Ok (nth r h empty_frame, h).

Definition new (d : DataFrame) : M ref :=
  fun h => Ok (List.length h, h ++ [d]).

(** [data.copy()] *)
Definition copy (data : ref) : M ref :=
  d <~ deref data ;; new d.

(** One filter: the selection it makes of the frame is a new object. *)
Definition select (filter_of : DataFrame -> result DataFrame) (filtered : ref)
    : M ref :=
  d <~ deref filtered ;;
  selected <~ lift (filter_of d) ;;
  new selected.

Definition apply_filters (c : Criteria) (data : ref) : M ref :=
  filtered <~ copy data ;;
  filtered <~ (if query_given c then select (text_filter c) filtered
               else ret filtered) ;;
  filtered <~ (if towers_given c then select (tower_filter c) filtered
               else ret filtered) ;;
  filtered <~ (if damage_types_given c then select (damage_filter c) filtered
               else ret filtered) ;;
  d <~ deref filtered ;;
  (if has_severity_score (columns d) then
     match severity_range c with
     | Some rng => select (severity_filter rng) filtered
     | None => ret filtered
     end
   else ret filtered).

End Store.

(** A frame with other rows. *)
Definition with_rows (d : DataFrame) (l : list Report) : DataFrame :=
  {| columns := columns d; rows := l |}.

(** ** What one filter does

    On a frame with given columns, each filter of [apply_filters] does one
    of four things: it keeps the rows that pass a test on the row; it does
    so on a frame that has rows and strips a frame without rows of its
    columns; it raises; or it raises unless the frame has no rows. *)

Inductive action : Type :=
| Keep (p : Report -> bool)
| KeepOrStrip (p : Report -> bool)
| Fail (e : exn)
| FailUnlessEmpty (e : exn).

Definition run_action (a : action) (d : DataFrame) : result DataFrame :=
  match a with
  | Keep p => Ok (with_rows d (filter p (rows d)))
  | KeepOrStrip p =>
      match rows d with
      | [] => Ok empty_frame
      | _ :: _ => Ok (with_rows d (filter p (rows d)))
      end
  | Fail e => Raise e
  | FailUnlessEmpty e =>
      match rows d with
      | [] => Ok d
      | _ :: _ => Raise e
      end
  end.

Fixpoint run_actions (l : list action) (d : DataFrame) : result DataFrame :=
  match l with
  | [] => Ok d
  | a :: l' => d' <- run_action a d ;; run_actions l' d'
  end.

(** The row tests. *)
Definition cell_contains (ts : list Re.token) (x : option string) : bool :=
  match x with Some text => Re.search ts text | None => false end.

Definition tower_test (c : Criteria) (r : Report) : bool :=
  match tower r with Some t => Str.mem t (towers c) | None => false end.

Definition damage_test (c : Criteria) (r : Report) : bool :=
  existsb (fun d => Str.mem d (damage_types r)) (damage_type_selection c).

Definition severity_test (dt : numeric) (rng : Q * Q) (r : Report) : bool :=
  match severity_score r with
  | Some v =>
      Qle_bool (fst rng) (as_float dt v) && Qle_bool (as_float dt v) (snd rng)
  | None => false
  end.

(** [.str] is accepted on the column, or on the default that stands for
    it. *)
Definition text_ok (has : Columns -> bool) (dt : Columns -> dtype)
    (cols : Columns) : bool :=
  is_object (if has cols then dt cols else object).

Definition text_action (c : Criteria) (cols : Columns) : action :=
  if text_ok has_room_no room_no_dtype cols then
    match Re.compile (query c) with
    | Re.BadPattern => Fail PatternError
    | Re.NotModelled => Fail OutsideFragment
    | Re.Pattern ts =>
        if text_ok has_damages_found damages_found_dtype cols then
          if has_room_no cols then
            if has_damages_found cols then
              Keep (fun r => cell_contains ts (room_no r)
                             || cell_contains ts (damages_found r))
            else Keep (fun r => cell_contains ts (room_no r))
          else
            if has_damages_found cols then Keep (fun _ => false)
            else FailUnlessEmpty IndexingError
        else Fail AttributeError
    end
  else Fail AttributeError.

Definition tower_action (c : Criteria) (cols : Columns) : action :=
  if has_tower cols then Keep (tower_test c) else FailUnlessEmpty IndexingError.

Definition damage_action (c : Criteria) (cols : Columns) : action :=
  if has_damage_types cols then KeepOrStrip (damage_test c)
  else Fail (KeyError "Damage Type List").

Definition severity_actions (c : Criteria) (cols : Columns) : list action :=
  if has_severity_score cols then
    match severity_range c with
    | Some rng => [Keep (severity_test (severity_score_dtype cols) rng)]
    | None => []
    end
  else [].

Definition when (b : bool) (a : action) : list action := if b then [a] else [].

Definition actions (c : Criteria) (cols : Columns) : list action :=
  when (query_given c) (text_action c cols)
  ++ when (towers_given c) (tower_action c cols)
  ++ when (damage_types_given c) (damage_action c cols)
  ++ severity_actions c cols.

(** The actions of the first three filters. *)
Definition earlier_actions (c : Criteria) (cols : Columns) : list action :=
  when (query_given c) (text_action c cols)
  ++ when (towers_given c) (tower_action c cols)
  ++ when (damage_types_given c) (damage_action c cols).

(** The row passes every test of the chain. *)
Definition passes (l : list action) (r : Report) : bool :=
  forallb (fun a => match a with
                    | Keep p | KeepOrStrip p => p r
                    | _ => true
                    end) l.

(** Nothing is left for the chain to do on the frame. *)
Fixpoint settled (l : list action) (d : DataFrame) : Prop :=
  match l with
  | [] => True
  | Keep p :: l' => (forall r, In r (rows d) -> p r = true) /\ settled l' d
  | KeepOrStrip p :: l' =>
      rows d <> [] /\ (forall r, In r (rows d) -> p r = true) /\ settled l' d
  | Fail _ :: _ => False
  | FailUnlessEmpty _ :: l' => rows d = [] /\ settled l' d
  end.

(** Subsequences: the order is kept and nothing is repeated. *)
Inductive subseq {A : Type} : list A -> list A -> Prop :=
| subseq_nil : subseq [] []
| subseq_skip x l1 l2 : subseq l1 l2 -> subseq l1 (x :: l2)
| subseq_take x l1 l2 : subseq l1 l2 -> subseq (x :: l1) (x :: l2).

(** ** The selections with one of them cleared or replaced *)

Definition without_query (c : Criteria) : Criteria :=
  {| query := ""; towers := towers c;
     damage_type_selection := damage_type_selection c;
     severity_range := severity_range c |}.

Definition without_damage_types (c : Criteria) : Criteria :=
  {| query := query c; towers := towers c;
     damage_type_selection := [];
     severity_range := severity_range c |}.

Definition without_range (c : Criteria) : Criteria :=
  {| query := query c; towers := towers c;
     damage_type_selection := damage_type_selection c;
     severity_range := None |}.

Definition without_towers (c : Criteria) : Criteria :=
  {| query := query c; towers := [];
     damage_type_selection := damage_type_selection c;
     severity_range := severity_range c |}.

(** No filter selected. *)
Definition no_criteria : Criteria :=
  {| query := ""; towers := []; damage_type_selection := []; severity_range := None |}.

(** ** The words of the specification *)

(** [s] contains [q] as a substring, the case of letters set aside. *)
Definition contains_ci (q s : string) : Prop :=
  exists before after, Str.lower s = (before ++ Str.lower q ++ after)%string.

(** A missing field read as the empty string. *)
Definition text_of (x : option string) : string := fillna x "".

(** The row has a score that, as a float64, lies in the range, both bounds
    included. *)
Definition in_range (dt : numeric) (rng : Q * Q) (r : Report) : Prop :=
  exists s, severity_score r = Some s
            /\ (fst rng <= as_float dt s)%Q /\ (as_float dt s <= snd rng)%Q.

(** Some selected label occurs, as it is written, in the row's list. *)
Definition shares_label (selection : list string) (r : Report) : Prop :=
  exists d, In d selection /\ In d (damage_types r).

(** A query without special characters. *)
Definition plain (q : string) : bool :=
  forallb (fun ch => negb (Re.is_special ch)) (list_ascii_of_string q).

(** The pattern that reads every character of [q] as itself. *)
Definition literal (q : string) : list Re.token :=
  map Re.Lit (list_ascii_of_string q).

(** Only commas and white space. *)
Definition blank (x : string) : Prop :=
  forall ch, In ch (list_ascii_of_string x) -> ch = ","%char \/ Str.is_space ch = true.

(** A frame with other columns and its rows rewritten one by one. *)
Definition reshape (cols : Columns) (g : Report -> Report) (d : DataFrame) : DataFrame :=
  {| columns := cols; rows := map g (rows d) |}.

(** The frame with another "Tower" column, or without one. *)
Definition set_tower (f : Report -> option string) (r : Report) : Report :=
  {| label := label r; room_no := room_no r; tower := f r;
     damages_found := damages_found r; damage_types := damage_types r;
     severity_score := severity_score r; others := others r |}.

Definition retower (has : bool) (f : Report -> option string) (d : DataFrame) : DataFrame :=
  reshape {| has_room_no := has_room_no (columns d);
             has_tower := has;
             has_damages_found := has_damages_found (columns d);
             has_damage_types := has_damage_types (columns d);
             has_severity_score := has_severity_score (columns d);
             other_columns := other_columns (columns d);
             room_no_dtype := room_no_dtype (columns d);
             damages_found_dtype := damages_found_dtype (columns d);
             severity_score_dtype := severity_score_dtype (columns d) |}
          (set_tower f) d.

(** The frame with another "Damage Type List" column, or without one. *)
Definition set_list (g : Report -> list string) (r : Report) : Report :=
  {| label := label r; room_no := room_no r; tower := tower r;
     damages_found := damages_found r; damage_types := g r;
     severity_score := severity_score r; others := others r |}.

Definition relist (has : bool) (g : Report -> list string) (d : DataFrame) : DataFrame :=
  reshape {| has_room_no := has_room_no (columns d);
             has_tower := has_tower (columns d);
             has_damages_found := has_damages_found (columns d);
             has_damage_types := has;
             has_severity_score := has_severity_score (columns d);
             other_columns := other_columns (columns d);
             room_no_dtype := room_no_dtype (columns d);
             damages_found_dtype := damages_found_dtype (columns d);
             severity_score_dtype := severity_score_dtype (columns d) |}
          (set_list g) d.



(** The frame with another "Severity Score" column, or without one. *)
Definition set_score (f : Report -> option Q) (r : Report) : Report :=
  {| label := label r; room_no := room_no r; tower := tower r;
     damages_found := damages_found r; damage_types := damage_types r;
     severity_score := f r; others := others r |}.

Definition rescore (has : bool) (dt : numeric) (f : Report -> option Q)
    (d : DataFrame) : DataFrame :=
  reshape {| has_room_no := has_room_no (columns d);
             has_tower := has_tower (columns d);
             has_damages_found := has_damages_found (columns d);
             has_damage_types := has_damage_types (columns d);
             has_severity_score := has;
             other_columns := other_columns (columns d);
             room_no_dtype := room_no_dtype (columns d);
             damages_found_dtype := damages_found_dtype (columns d);
             severity_score_dtype := dt |}
          (set_score f) d.

(** The tests of a chain do not tell a row from its rewriting by [g]. *)
Definition blind (g : Report -> Report) (l : list action) : Prop :=
  Forall (fun a => match a with
                   | Keep p | KeepOrStrip p => forall r, p (g r) = p r
                   | _ => True
                   end) l.

(** An action that leaves the columns alone. *)
Definition steady (a : action) : Prop :=
  match a with KeepOrStrip _ => False | _ => True end.

(** The rows of a result. *)
Definition rows_of (m : result DataFrame) : result (list Report) :=
  fmap rows m.


(** ** Test data *)

Module Sample.

Definition all_columns : Columns :=
  {| has_room_no := true; has_tower := true; has_damages_found := true;
     has_damage_types := true; has_severity_score := true;
     other_columns := [];
     room_no_dtype := object; damages_found_dtype := object;
     severity_score_dtype := int64 |}.

Definition report (i : nat) (room tow dmg : string) (score : Q) : Report :=
  {| label := i; room_no := Some room; tower := Some tow;
     damages_found := Some dmg; damage_types := parse_damages dmg;
     severity_score := Some score; others := [] |}.

Definition room101 : Report := report 0 "101" "A" "Water leak" (5 # 1).
Definition room102 : Report := report 1 "102" "B" "Cracked wall" (7 # 1).

(** The frame of [_run_tests]. *)
Definition sample : DataFrame :=
  {| columns := all_columns; rows := [room101; room102] |}.

(** The same rows in a table that has no "Tower" column. *)
Definition no_tower : DataFrame :=
  {| columns :=
       {| has_room_no := true; has_tower := false; has_damages_found := true;
          has_damage_types := true; has_severity_score := true;
          other_columns := [];
          room_no_dtype := object; damages_found_dtype := object;
          severity_score_dtype := int64 |};
     rows := [room101; room102] |}.

(** The same rows in a table that has neither "Room No" nor
    "Damages Found". *)
Definition no_text : DataFrame :=
  {| columns :=
       {| has_room_no := false; has_tower := true; has_damages_found := false;
          has_damage_types := true; has_severity_score := true;
          other_columns := [];
          room_no_dtype := object; damages_found_dtype := object;
          severity_score_dtype := int64 |};
     rows := [room101; room102] |}.

(** A report whose label is written in lower case. *)
Definition lower_case_report : Report :=
  report 0 "103" "A" "water leak" (3 # 1).

Definition lower_case_frame : DataFrame :=
  {| columns := all_columns; rows := [lower_case_report] |}.

Definition select_towers (ts : list string) : Criteria :=
  {| query := ""; towers := ts; damage_type_selection := []; severity_range := None |}.

Definition select_damage (ds : list string) : Criteria :=
  {| query := ""; towers := []; damage_type_selection := ds; severity_range := None |}.

Definition select_range (lo hi : Q) : Criteria :=
  {| query := ""; towers := []; damage_type_selection := [];
     severity_range := Some (lo, hi) |}.

Definition search (q : string) : Criteria :=
  {| query := q; towers := []; damage_type_selection := []; severity_range := None |}.

(** A search that finds nothing, with a damage type selected. *)
Definition pool_and_leak : Criteria :=
  {| query := "pool"; towers := []; damage_type_selection := ["Water leak"];
     severity_range := None |}.

End Sample.

(** ** The store and the values

    [reaches h r h' d]: from the store [h], the run has reached the store
    [h'], which holds [h] and objects created since, and the reference [r],
    one of the new objects, which points to the frame [d]. *)
Definition reaches (h : Store.heap) (r : Store.ref) (h' : Store.heap)
    (d : DataFrame) : Prop :=
  (exists created, h' = h ++ created)
  /\ List.length h <= r
  /\ nth_error h' r = Some d.

(** A run over the store and a computation on values end alike. *)
Definition agree (h : Store.heap) (run : result (Store.ref * Store.heap))
    (value : result DataFrame) : Prop :=
  match run, value with
  | Ok (r, h'), Ok d => reaches h r h' d
  | Raise e, Raise e' => e = e'
  | _, _ => False
  end.

(** The store after the search for "101" in the test frame: the frame, its
    copy, and the selection. *)
Definition store_after_search : Store.heap :=
  [Sample.sample; Sample.sample; with_rows Sample.sample [Sample.room101]].

(** The store after [Sample.pool_and_leak] on the test frame: the frame, its
    copy, the empty selection of the search, and what the damage-type
    filter makes of it. *)
Definition store_after_pool : Store.heap :=
  [Sample.sample; Sample.sample; with_rows Sample.sample []; empty_frame].

(** The characters of a string. *)
Definition chars (s : string) : list ascii := list_ascii_of_string s.

(** White space only. *)
Definition only_space (s : string) : Prop :=
  forall ch, In ch (chars s) -> Str.is_space ch = true.

(** The labels of one cell of "Damages Found". *)
Definition labels_of (D : DataFrame) (r : Report) : list string :=
  if has_damages_found (columns D)
  then parse_damages (text_of (damages_found r))
  else [].

(** A report whose damages text is a lone comma. *)
Definition comma_report : Report :=
  {| label := 0; room_no := Some "104"; tower := Some "A";
     damages_found := Some ","; damage_types := [];
     severity_score := None; others := [] |}.

Definition comma_frame : DataFrame :=
  {| columns :=
       {| has_room_no := true; has_tower := true; has_damages_found := true;
          has_damage_types := false; has_severity_score := true;
          other_columns := [];
          room_no_dtype := object; damages_found_dtype := object;
          severity_score_dtype := float64 |};
     rows := [comma_report] |}.

(** The test rows in a table that has no "Damages Found" column. *)
Definition no_damages_found : DataFrame :=
  {| columns :=
       {| has_room_no := true; has_tower := true; has_damages_found := false;
          has_damage_types := false; has_severity_score := true;
          other_columns := [];
          room_no_dtype := object; damages_found_dtype := object;
          severity_score_dtype := int64 |};
     rows := rows Sample.sample |}.

(** ** The words of the tally's specification *)

(** The (row, label) pairs of a frame. *)
Definition pairs (D : DataFrame) : list (nat * string) :=
  flat_map (fun r => map (fun d => (label r, d)) (damage_types r)) (rows D).

(** How often a label occurs among the pairs. *)
Definition occurrences (D : DataFrame) (k : string) : nat :=
  count_occ string_dec (map snd (pairs D)) k.

(** The sum of the counts. *)
Definition total (t : list (string * nat)) : nat :=
  fold_right (fun e acc => snd e + acc) 0 t.

(** The count a table gives for a key, 0 when the key is not in it. *)
Fixpoint count_of (k : string) (t : list (string * nat)) : nat :=
  match t with
  | [] => 0
  | (k', n) :: t' => if String.eqb k k' then n else count_of k t'
  end.

(** A table of counts: every key once, every count positive. *)
Definition count_table_ok (t : list (string * nat)) : Prop :=
  NoDup (map fst t) /\ Forall (fun e => 0 < snd e) t.

(** Where a label is first seen. *)
Fixpoint first_seen (k : string) (l : list string) : nat :=
  match l with
  | [] => 0
  | x :: l' => if String.eqb k x then 0 else S (first_seen k l')
  end.

(** Of two entries with the same count, the one whose label is seen first
    comes first. *)
Definition ties_first_seen (labels : list string) (out : list (string * nat)) : Prop :=
  forall i j k1 k2 n,
    i < j ->
    nth_error out i = Some (k1, n) ->
    nth_error out j = Some (k2, n) ->
    first_seen k1 labels < first_seen k2 labels.

(** The labels of the test frame, in the order of the rows. *)
Definition sample_labels : list string := map snd (pairs Sample.sample).

(** Descending by count, and by first sight among equal counts. *)
Definition before (labels : list string) (a b : string * nat) : Prop :=
  snd b <= snd a
  /\ (snd a = snd b -> first_seen (fst a) labels < first_seen (fst b) labels).

(** The keys in the order in which they are first seen. *)
Definition in_order_of_sight (labels : list string) (t : list (string * nat)) : Prop :=
  StronglySorted (fun a b => first_seen (fst a) labels < first_seen (fst b) labels) t.

(** The selections of [_run_tests]: both towers, the range 0 to 10. *)
Definition test_criteria (q : string) (ds : list string) : Criteria :=
  {| query := q; towers := ["A"; "B"]; damage_type_selection := ds;
     severity_range := Some (0 # 1, 10 # 1) |}.

(** The room numbers of a result. *)
Definition rooms (m : result DataFrame) : result (list (option string)) :=
  fmap (fun d => map room_no (rows d)) m.

(** No data file at all. *)
Definition no_files : Readers :=
  {| parquet_files := fun _ => Absent; csv_files := fun _ => Absent |}.

(** ** More words and data for the claims *)

(** A fragment: a text without a comma. *)
Definition comma_free (x : string) : Prop := ~ In ","%char (chars x).

(** The labels of a text written as fragments between commas: the
    fragments stripped, in their order, the empty ones left out. *)
Definition labels_written (frags : list string) : list string :=
  filter (fun d => negb (Str.is_empty d)) (map Str.strip frags).

(** A test row with another score. *)
Definition with_score (v : Q) (r : Report) : Report :=
  set_score (fun _ => Some v) r.

(** The first test row with the score 2^53 + 1, in a table whose
    "Severity Score" column is int64 as in [_run_tests]. *)
Definition large_score : Q := 9007199254740993 # 1.

Definition large_score_report : Report := with_score large_score Sample.room101.

Definition large_score_frame : DataFrame :=
  {| columns := Sample.all_columns; rows := [large_score_report] |}.

(** The range from 0 to 2^53. *)
Definition up_to_2_53 : Criteria :=
  Sample.select_range (0 # 1) (9007199254740992 # 1).

(** Three reports on 24 damage types, A to X: eight of them are in all
    three reports, eight in two, eight in one. *)
Definition types_in_three : list string := ["A"; "D"; "G"; "J"; "M"; "P"; "S"; "V"].
Definition types_in_two : list string :=
  ["A"; "C"; "D"; "F"; "G"; "I"; "J"; "L"; "M"; "O"; "P"; "R"; "S"; "U"; "V"; "X"].
Definition types_in_one : list string :=
  ["A"; "B"; "C"; "D"; "E"; "F"; "G"; "H"; "I"; "J"; "K"; "L";
   "M"; "N"; "O"; "P"; "Q"; "R"; "S"; "T"; "U"; "V"; "W"; "X"].

Definition report_of_types (i : nat) (room : string) (types : list string) : Report :=
  {| label := i; room_no := Some room; tower := Some "A";
     damages_found := Some (join ", " types); damage_types := types;
     severity_score := Some (5 # 1); others := [] |}.

Definition many_types : DataFrame :=
  {| columns := Sample.all_columns;
     rows := [report_of_types 0 "201" types_in_one;
              report_of_types 1 "202" types_in_two;
              report_of_types 2 "203" types_in_three] |}.

(** * The rest of the dashboard *)

From Stdlib Require Import NArith.

(** ** More of Python and pandas *)

(** [s.unique()]: each value once, in the order of first sight. *)
Fixpoint unique_from (seen : list string) (l : list string) : list string :=
  match l with
  | [] => []
  | x :: l' =>
      if Str.mem x seen then unique_from seen l'
      else x :: unique_from (x :: seen) l'
  end.

Definition unique (l : list string) : list string := unique_from [] l.

(** [sorted(xs)] for strings: ascending in the order of the characters'
    codes. *)
Fixpoint insert_sorted (x : string) (l : list string) : list string :=
  match l with
  | [] => [x]
  | y :: l' => if String.leb x y then x :: l else y :: insert_sorted x l'
  end.

Definition sorted (l : list string) : list string :=
  fold_right insert_sorted [] l.

(** [s.min()] and [s.max()]: NaN is skipped; the result is NaN, here
    [None], when there is no value. *)
Fixpoint series_min (l : list (option Q)) : option Q :=
  match l with
  | [] => None
  | None :: l' => series_min l'
  | Some x :: l' =>
      match series_min l' with
      | None => Some x
      | Some m => Some (if Qle_bool x m then x else m)
      end
  end.

Fixpoint series_max (l : list (option Q)) : option Q :=
  match l with
  | [] => None
  | None :: l' => series_max l'
  | Some x :: l' =>
      match series_max l' with
      | None => Some x
      | Some m => Some (if Qle_bool m x then x else m)
      end
  end.

(** [df.empty]: no row, or no column. *)
Definition column_count (cols : Columns) : nat :=
  (if has_room_no cols then 1 else 0)
  + (if has_tower cols then 1 else 0)
  + (if has_damages_found cols then 1 else 0)
  + (if has_damage_types cols then 1 else 0)
  + (if has_severity_score cols then 1 else 0)
  + List.length (other_columns cols).

Definition frame_empty (d : DataFrame) : bool :=
  match rows d with
  | [] => true
  | _ :: _ => column_count (columns d) =? 0
  end.

(** ** The sidebar (lines 114 to 128) *)

(** Lines 116 and 117: the options of the tower widget, which are also its
    default selection,
    [sorted(df.get("Tower", pd.Series(dtype=str)).dropna().unique())]. *)
Definition tower_options (d : DataFrame) : list string :=
  sorted (unique (dropna (values_of (get has_tower tower d empty_series)))).

(** Line 119: the options of the damage-type widget,
    [sorted({d for lst in df["Damage Type List"] for d in lst})]. *)
Definition all_dtypes (d : DataFrame) : result (list string) :=
  s <- getitem "Damage Type List" has_damage_types damage_types d ;;
  Ok (sorted (unique (List.concat (values_of s)))).

(** [float(x)] for the minimum or maximum [x] of a column of dtype [dt]. *)
Definition float_of (dt : numeric) (x : option Q) : option Q :=
  match x with
  | Some v => Some (as_float dt v)
  | None => None
  end.

(** Lines 122 to 125: the bounds of the severity slider, which are also its
    default range.  A bound is NaN, here [None], when the column holds no
    score. *)
Definition slider_bounds (d : DataFrame) : option Q * option Q :=
  if has_severity_score (columns d) && negb (frame_empty d) then
    (float_of (severity_score_dtype (columns d))
       (series_min (values_of (column severity_score d))),
     float_of (severity_score_dtype (columns d))
       (series_max (values_of (column severity_score d))))
  else (Some (0 # 1), Some (10 # 1)).

(** The range the slider starts with, when both bounds are numbers. *)
Definition default_range (d : DataFrame) : option (Q * Q) :=
  match slider_bounds d with
  | (Some lo, Some hi) => Some (lo, hi)
  | _ => None
  end.

(** ** The figures of the overview (lines 179 to 182) *)

(** [len(filtered_df)] *)
Definition total_reports (filtered_df : DataFrame) : nat :=
  List.length (rows filtered_df).

(** [filtered_df.get("Room No", pd.Series()).nunique()]: the distinct room
    numbers, NaN not counted. *)
Definition unique_rooms (filtered_df : DataFrame) : nat :=
  List.length
    (unique (dropna (values_of (get has_room_no room_no filtered_df empty_series)))).

(** ** The stand-in for Streamlit (lines 23 to 46)

    When Streamlit cannot be imported, [st] is an instance of
    [_StreamlitStub], whose attributes are all made up by [__getattr__].
    The values are those the stub can hand out; a function is named by the
    lambda that makes it. *)

Module Stub.

Inductive closure : Type :=
| Repeat                  (* lambda *a, **kw: [self] * (a[0] if a else 1) *)
| CacheData               (* lambda *a, **kw: (lambda fn: fn) *)
| Identity                (* lambda fn: fn *)
| Widget (item : string)  (* lambda *a, **kw: the keyword default, or [] without
                             it, if item is multiselect, else the empty string *)
| Nothing.                (* lambda *a, **kw: None *)

#[warnings="-register-all"]
Inductive value : Type :=
| Self                               (* the stub, [st] *)
| Sidebar                            (* an instance of [_SidebarStub] *)
| NoneValue
| Int (n : Z)
| Text (s : string)
| Items (l : list value)
| EmptyDict                          (* the dict without entries *)
| Function (f : closure).

(** The arguments of a call: [*a] and [**kw]. *)
Record args : Type := {
  positional : list value;
  keywords : list (string * value)
}.

Inductive failure : Type :=
| NotCallable             (* the object has no [__call__] *)
| NotAContextManager      (* the object has no [__enter__] *)
| BadArguments.           (* the call does not fit the lambda *)

Inductive outcome : Type :=
| Returns (v : value)
| Raises (e : failure).

(** [kw.get(key, default)] *)
Fixpoint kw_get (kw : list (string * value)) (key : string) (default : value)
    : value :=
  match kw with
  | [] => default
  | (k, v) :: kw' => if String.eqb k key then v else kw_get kw' key default
  end.

(** [__getattr__] (lines 31 to 44) *)
Definition getattr (item : string) : value :=
  if Str.mem item ["columns"; "sidebar"] then Function Repeat
  else if String.eqb item "cache_data" then Function CacheData
  else if Str.mem item ["secrets"; "slider"] then EmptyDict
  else if Str.mem item ["multiselect"; "text_input"; "checkbox"]
       then Function (Widget item)
  else Function Nothing.

(** The call of [v] with the arguments [a]. *)
Definition call (v : value) (a : args) : outcome :=
  match v with
  | Function Repeat =>
      match positional a with
      | [] => Returns (Items [Self])
      | Int n :: _ => Returns (Items (repeat Self (Z.to_nat n)))
      | _ :: _ => Raises BadArguments
      end
  | Function CacheData => Returns (Function Identity)
  | Function Identity =>
      match positional a, keywords a with
      | [fn], [] => Returns fn
      | [], [(k, fn)] => if String.eqb k "fn" then Returns fn else Raises BadArguments
      | _, _ => Raises BadArguments
      end
  | Function (Widget item) =>
      Returns (if String.eqb item "multiselect"
               then kw_get (keywords a) "default" (Items [])
               else Text "")
  | Function Nothing => Returns NoneValue
  | _ => Raises NotCallable
  end.

(** [with v:], up to the entry: [_SidebarStub.__enter__] returns [st]; no
    other value here has an [__enter__]. *)
Definition enter (v : value) : outcome :=
  match v with
  | Sidebar => Returns Self
  | _ => Raises NotAContextManager
  end.

(** Line 108 with the stub for [st]: [with st.sidebar:]. *)
Definition with_sidebar : outcome := enter (getattr "sidebar").

(** Lines 126 to 128 with the stub for [st]: [st.slider(...)]. *)
Definition slider (a : args) : outcome := call (getattr "slider") a.

End Stub.

(** ** Words for the properties *)

(** The cell holds a value. *)
Definition present {A} (x : option A) : bool :=
  match x with Some _ => true | None => false end.

(** The selections with other towers. *)
Definition with_towers (ts : list string) (c : Criteria) : Criteria :=
  {| query := query c; towers := ts;
     damage_type_selection := damage_type_selection c;
     severity_range := severity_range c |}.

(** The selections with another range. *)
Definition with_range (rng : Q * Q) (c : Criteria) : Criteria :=
  {| query := query c; towers := towers c;
     damage_type_selection := damage_type_selection c;
     severity_range := Some rng |}.

(** Strictly ascending. *)
Definition ascending (l : list string) : Prop :=
  StronglySorted (fun a b => String.leb a b = true /\ a <> b) l.

(** A label as the derived column writes it. *)
Definition clean_label (d : string) : Prop :=
  d <> "" /\ Str.strip d = d /\ ~ In ","%char (chars d).

(** An action that cannot raise. *)
Definition harmless (a : action) : Prop :=
  match a with Keep _ | KeepOrStrip _ => True | _ => False end.

(** The selections with other damage types. *)
Definition with_damage_types (ds : list string) (c : Criteria) : Criteria :=
  {| query := query c; towers := towers c;
     damage_type_selection := ds;
     severity_range := severity_range c |}.

(** Lines 90 to 92: the reader a path goes to. *)
Definition read_path (fs : Readers) (path : string) : result DataFrame :=
  if Str.endswith path "parquet" then read_parquet fs path else read_csv fs path.

(** An exception other than KeyError. *)
Definition no_key_error (a : action) : Prop :=
  match a with
  | Fail (KeyError _) | FailUnlessEmpty (KeyError _) => False
  | _ => True
  end.

(** The table has the five columns the dashboard reads, and its two text
    columns hold text. *)
Definition complete (cols : Columns) : Prop :=
  has_room_no cols = true /\ has_tower cols = true
  /\ has_damages_found cols = true /\ has_damage_types cols = true
  /\ has_severity_score cols = true
  /\ room_no_dtype cols = object /\ damages_found_dtype cols = object.

(** The row is one the selections ask for: it passes every filter that is
    switched on. *)
Definition wanted (dt : numeric) (c : Criteria) (r : Report) : Prop :=
  (query c = ""
   \/ contains_ci (query c) (text_of (room_no r))
   \/ contains_ci (query c) (text_of (damages_found r)))
  /\ (towers c = [] \/ exists t, tower r = Some t /\ In t (towers c))
  /\ (damage_type_selection c = []
      \/ shares_label (damage_type_selection c) r)
  /\ (forall rng, severity_range c = Some rng -> in_range dt rng r).

(** The selections [c'] ask for no less than [c]: the same query; a tower
    or damage-type selection cleared, or enlarged from one that was not
    empty; a range removed or widened. *)
Definition wider (c c' : Criteria) : Prop :=
  query c' = query c
  /\ (towers c' = [] \/ (towers c <> [] /\ incl (towers c) (towers c')))
  /\ (damage_type_selection c' = []
      \/ (damage_type_selection c <> []
          /\ incl (damage_type_selection c) (damage_type_selection c')))
  /\ match severity_range c' with
     | None => True
     | Some rng' =>
         match severity_range c with
         | None => False
         | Some rng => (fst rng' <= fst rng)%Q /\ (snd rng <= snd rng')%Q
         end
     end.

(** ** More test data *)

Module Survey.

(** A report without a tower and without a score. *)
Definition room103 : Report :=
  {| label := 2; room_no := Some "103"; tower := None;
     damages_found := Some "Water leak, Mould";
     damage_types := parse_damages "Water leak, Mould";
     severity_score := None; others := [] |}.

(** Every column, the scores as floats. *)
Definition float_columns : Columns :=
  {| has_room_no := true; has_tower := true; has_damages_found := true;
     has_damage_types := true; has_severity_score := true;
     other_columns := [];
     room_no_dtype := object; damages_found_dtype := object;
     severity_score_dtype := float64 |}.

(** The frame of [_run_tests] with that report added; with a score missing
    the column is float64. *)
Definition survey : DataFrame :=
  {| columns := float_columns;
     rows := [Sample.room101; Sample.room102; room103] |}.

(** The rows of the test frame in a table that has no "Room No" column. *)
Definition no_room_no : DataFrame :=
  {| columns :=
       {| has_room_no := false; has_tower := true; has_damages_found := true;
          has_damage_types := true; has_severity_score := true;
          other_columns := [];
          room_no_dtype := object; damages_found_dtype := object;
          severity_score_dtype := int64 |};
     rows := [Sample.room101; Sample.room102] |}.

(** The test frame as it is read from a file: no "Damage Type List" yet. *)
Definition raw : DataFrame :=
  {| columns :=
       {| has_room_no := true; has_tower := true; has_damages_found := true;
          has_damage_types := false; has_severity_score := true;
          other_columns := [];
          room_no_dtype := object; damages_found_dtype := object;
          severity_score_dtype := int64 |};
     rows := map (set_list (fun _ => [])) [Sample.room101; Sample.room102] |}.

(** Only the CSV file is there. *)
Definition csv_only : Readers :=
  {| parquet_files := fun _ => Absent;
     csv_files := fun path =>
       if String.eqb path "data/damage_data.csv" then Table raw else Absent |}.

End Survey.
(** * Properties *)

(** ** The error monad *)

Lemma bind_Ok_inv {A B} (m : result A) (k : A -> result B) (b : B) :
  (x <- m ;; k x) = Ok b -> exists a, m = Ok a /\ k a = Ok b.
Proof.
  destruct m as [a | e]; simpl; intros H.
  - exists a. split; [reflexivity | exact H].
  - discriminate H.
Qed.

(** ** Selection by a boolean key *)


(** ** Floats *)

Local Open Scope Z_scope.

Lemma round53_round_at m :
  0 < Z.log2 m - 52 -> round53 m = round_at (Z.log2 m - 52) m.
Proof.
  intros H. unfold round53. cbv zeta.
  destruct (Z.leb_spec (Z.log2 m - 52) 0); [lia | reflexivity].
Qed.

Lemma round53_exact m : Z.log2 m - 52 <= 0 -> round53 m = m.
Proof.
  intros H. unfold round53. cbv zeta.
  destruct (Z.leb_spec (Z.log2 m - 52) 0); [reflexivity | lia].
Qed.

Lemma round_at_mono e a b :
  0 < e -> 0 <= a <= b -> round_at e a <= round_at e b.
Proof.
  intros He Hab. unfold round_at.
  assert (HP : 0 < 2 ^ e) by (apply Z.pow_pos_nonneg; lia).
  assert (Hh : 2 ^ e = 2 * 2 ^ (e - 1)).
  { replace e with (Z.succ (e - 1)) at 1 by lia. apply Z.pow_succ_r. lia. }
  pose proof (Z.div_mod a (2 ^ e) ltac:(lia)) as Ea.
  pose proof (Z.div_mod b (2 ^ e) ltac:(lia)) as Eb.
  pose proof (Z.mod_pos_bound a (2 ^ e) HP) as Ba.
  pose proof (Z.mod_pos_bound b (2 ^ e) HP) as Bb.
  assert (Hq : a / 2 ^ e <= b / 2 ^ e) by (apply Z.div_le_mono; lia).
  set (qa := a / 2 ^ e) in *. set (qb := b / 2 ^ e) in *.
  set (ra := a mod 2 ^ e) in *. set (rb := b mod 2 ^ e) in *.
  set (h := 2 ^ (e - 1)) in *. set (P := 2 ^ e) in *.
  assert (Hcase : qa < qb \/ (qa = qb /\ ra <= rb)) by nia.
  destruct Hcase as [Hlt | [Heq Hr]].
  - destruct ((h <? ra) || ((ra =? h) && Z.odd qa)),
             ((h <? rb) || ((rb =? h) && Z.odd qb)); nia.
  - rewrite <- Heq.
    destruct ((h <? ra) || ((ra =? h) && Z.odd qa)) eqn:Ua;
    destruct ((h <? rb) || ((rb =? h) && Z.odd qa)) eqn:Ub; try nia.
    exfalso. apply orb_true_iff in Ua. apply orb_false_iff in Ub.
    destruct Ub as [U1 U2]. apply Z.ltb_ge in U1.
    destruct Ua as [Ua | Ua].
    + apply Z.ltb_lt in Ua. lia.
    + apply andb_true_iff in Ua. destruct Ua as [Ua Uo].
      apply Z.eqb_eq in Ua. rewrite Uo, andb_true_r in U2.
      apply Z.eqb_neq in U2. lia.
Qed.

Lemma round_at_bounds e m :
  0 < e -> 2 ^ (e + 52) <= m < 2 ^ (e + 53) ->
  2 ^ (e + 52) <= round_at e m <= 2 ^ (e + 53).
Proof.
  intros He Hm. unfold round_at.
  assert (HP : 0 < 2 ^ e) by (apply Z.pow_pos_nonneg; lia).
  assert (E52 : 2 ^ (e + 52) = 2 ^ 52 * 2 ^ e) by (rewrite Z.pow_add_r by lia; lia).
  assert (E53 : 2 ^ (e + 53) = 2 ^ 53 * 2 ^ e) by (rewrite Z.pow_add_r by lia; lia).
  assert (Hlo : 2 ^ 52 <= m / 2 ^ e).
  { apply Z.div_le_lower_bound; lia. }
  assert (Hhi : m / 2 ^ e < 2 ^ 53).
  { apply Z.div_lt_upper_bound; lia. }
  destruct (_ || _); nia.
Qed.

Lemma round53_bounds m :
  0 < m -> 2 ^ Z.log2 m <= round53 m <= 2 ^ (Z.log2 m + 1).
Proof.
  intros Hm. pose proof (Z.log2_spec m Hm) as Hs.
  replace (Z.succ (Z.log2 m)) with (Z.log2 m + 1) in Hs by lia.
  destruct (Z.leb_spec (Z.log2 m - 52) 0) as [He | He].
  - rewrite (@round53_exact m He). lia.
  - rewrite (@round53_round_at m He).
    pose proof (@round_at_bounds (Z.log2 m - 52) m He) as H.
    replace (Z.log2 m - 52 + 52) with (Z.log2 m) in H by lia.
    replace (Z.log2 m - 52 + 53) with (Z.log2 m + 1) in H by lia.
    apply H. exact Hs.
Qed.

Lemma round53_zero : round53 0 = 0.
Proof. reflexivity. Qed.

Lemma round53_mono a b : 0 <= a <= b -> round53 a <= round53 b.
Proof.
  intros [Ha Hab].
  destruct (Z.eq_dec a 0) as [-> | Hne].
  - rewrite round53_zero. destruct (Z.eq_dec b 0) as [-> | Hb]; [reflexivity |].
    assert (Hb0 : 0 < b) by lia.
    pose proof (@round53_bounds b Hb0) as H.
    pose proof (Z.pow_pos_nonneg 2 (Z.log2 b) ltac:(lia) (Z.log2_nonneg b)). lia.
  - assert (Ha0 : 0 < a) by lia. assert (Hb0 : 0 < b) by lia.
    assert (Hle : Z.log2 a <= Z.log2 b) by (apply Z.log2_le_mono; lia).
    destruct (Z.eq_dec (Z.log2 a) (Z.log2 b)) as [E | E].
    + destruct (Z.leb_spec (Z.log2 a - 52) 0) as [He | He].
      * rewrite (@round53_exact a He), (@round53_exact b) by lia. exact Hab.
      * assert (He' : 0 < Z.log2 b - 52) by lia.
        rewrite (@round53_round_at a He), (@round53_round_at b He').
        rewrite <- E. apply round_at_mono; lia.
    + pose proof (@round53_bounds a Ha0) as Ba.
      pose proof (@round53_bounds b Hb0) as Bb.
      assert (2 ^ (Z.log2 a + 1) <= 2 ^ Z.log2 b).
      { apply Z.pow_le_mono_r; lia. }
      lia.
Qed.

Lemma round53_nonneg a : 0 <= a -> 0 <= round53 a.
Proof.
  intros H. rewrite <- round53_zero. apply round53_mono. lia.
Qed.

Lemma float_of_int_mono a b : a <= b -> float_of_int a <= float_of_int b.
Proof.
  intros H. unfold float_of_int.
  destruct (Z.ltb_spec a 0) as [Ha | Ha], (Z.ltb_spec b 0) as [Hb | Hb].
  - assert (Hab : 0 <= - b <= - a) by lia.
    pose proof (@round53_mono (- b) (- a) Hab). lia.
  - assert (Ha' : 0 <= - a) by lia.
    pose proof (@round53_nonneg (- a) Ha').
    pose proof (@round53_nonneg b Hb). lia.
  - lia.
  - apply round53_mono. lia.
Qed.

Lemma round53_small m : 0 <= m <= 2 ^ 53 -> round53 m = m.
Proof.
  intros [H0 H1].
  destruct (Z.eq_dec m (2 ^ 53)) as [-> | Hne]; [reflexivity |].
  apply round53_exact.
  destruct (Z.eq_dec m 0) as [-> | Hm]; [simpl; lia |].
  assert (Hlt : m < 2 ^ 53) by lia.
  apply Z.log2_lt_pow2 in Hlt; lia.
Qed.

(** An integer of at most 53 bits is a float. *)
Lemma float_of_int_small n : - 2 ^ 53 <= n <= 2 ^ 53 -> float_of_int n = n.
Proof.
  intros H. unfold float_of_int. destruct (Z.ltb_spec n 0).
  - rewrite round53_small; lia.
  - apply round53_small. lia.
Qed.

Local Close Scope Z_scope.

(** The conversion keeps the order of the values. *)
Lemma as_float_mono dt (a b : Q) :
  (a <= b)%Q -> (as_float dt a <= as_float dt b)%Q.
Proof.
  intros H. destruct dt; simpl; [| exact H].
  rewrite <- Zle_Qle. apply float_of_int_mono, Qfloor_resp_le, H.
Qed.

Lemma as_float_eq dt (a b : Q) :
  (a == b)%Q -> (as_float dt a == as_float dt b)%Q.
Proof.
  intros H. apply Qle_antisym; apply as_float_mono; rewrite H; apply Qle_refl.
Qed.

Lemma with_rows_self d : with_rows d (rows d) = d.
Proof. destruct d; reflexivity. Qed.

Lemma index_equals_refl l : index_equals l l = true.
Proof.
  induction l as [| x l IH]; simpl; [reflexivity |].
  rewrite Nat.eqb_refl, IH. reflexivity.
Qed.

Lemma index_of_smap {A B} (f : A -> B) (s : Series A) :
  index_of (smap f s) = index_of s.
Proof.
  unfold index_of, smap. rewrite map_map. reflexivity.
Qed.

Lemma index_of_column {A} (field : Report -> A) d :
  index_of (column field d) = frame_index d.
Proof.
  unfold index_of, column, frame_index. rewrite map_map. reflexivity.
Qed.

Lemma smap_column {A B} (f : A -> B) (field : Report -> A) d :
  smap f (column field d) = column (fun r => f (field r)) d.
Proof.
  unfold smap, column. rewrite map_map. reflexivity.
Qed.

Lemma select_map {A} (p : A -> bool) (l : list A) :
  select (map p l) l = filter p l.
Proof.
  induction l as [| x l IH]; simpl; [reflexivity |].
  rewrite IH. reflexivity.
Qed.

(** Indexing by a key computed row by row keeps the rows where it is True. *)
Lemma getitem_bool_column (p : Report -> bool) d :
  getitem_bool d (column p d) = Ok (with_rows d (filter p (rows d))).
Proof.
  unfold getitem_bool, check_bool_indexer.
  rewrite index_of_column, index_equals_refl. simpl.
  unfold values_of, column. rewrite map_map. simpl.
  rewrite select_map. reflexivity.
Qed.

(** Indexing a frame that has rows by the empty key fails; a frame without
    rows is returned as it is. *)
Lemma getitem_bool_empty_key d :
  getitem_bool d [] =
  match rows d with
  | [] => Ok d
  | _ :: _ => Raise IndexingError
  end.
Proof.
  destruct d as [cols rs]. unfold getitem_bool, check_bool_indexer, frame_index.
  destruct rs as [| r rs]; reflexivity.
Qed.

(** ** Alignment *)

Lemma align_columns {A B} (f : Report -> A) (g : Report -> B) d :
  align (column f d) (column g d) =
  column (fun r => (Some (f r), Some (g r))) d.
Proof.
  unfold align. rewrite !index_of_column, index_equals_refl.
  unfold column. induction (rows d) as [| r l IH]; simpl; [reflexivity |].
  rewrite IH. reflexivity.
Qed.

Lemma align_empty_right {A B} (f : Report -> A) d :
  align (column f d) (@nil (nat * B)) =
  column (fun r => (Some (f r), @None B)) d.
Proof.
  unfold align, column.
  destruct (rows d) as [| r l]; simpl; [reflexivity |].
  unfold smap. simpl. rewrite map_map. reflexivity.
Qed.

Lemma align_empty_left {A B} (g : Report -> B) d :
  align (@nil (nat * A)) (column g d) =
  column (fun r => (@None A, Some (g r))) d.
Proof.
  unfold align, column.
  destruct (rows d) as [| r l]; simpl; [reflexivity |].
  unfold smap. simpl. rewrite map_map. reflexivity.
Qed.


(** ** The four filters as actions *)

Lemma text_filter_action c d :
  text_filter c d = run_action (text_action c (columns d)) d.
Proof.
  unfold text_filter, text_action, text_ok, str_contains, get_dtype, get.
  destruct (has_room_no (columns d)), (has_damages_found (columns d));
    destruct (room_no_dtype (columns d)) as [| n1],
             (damages_found_dtype (columns d)) as [| n2]; simpl;
    destruct (Re.compile (query c)) as [ts | |]; simpl; try reflexivity;
    first
      [ rewrite !smap_column; unfold series_or;
        rewrite align_columns, smap_column; apply getitem_bool_column
      | rewrite smap_column; unfold series_or;
        rewrite align_empty_right, smap_column; simpl;
        rewrite getitem_bool_column; simpl; do 2 f_equal;
        apply filter_ext; intros r; apply orb_false_r
      | rewrite smap_column; unfold series_or;
        rewrite align_empty_left, smap_column; simpl;
        apply getitem_bool_column
      | apply getitem_bool_empty_key ].
Qed.

Lemma tower_filter_action c d :
  tower_filter c d = run_action (tower_action c (columns d)) d.
Proof.
  unfold tower_filter, tower_action, get, isin.
  destruct (has_tower (columns d)).
  - rewrite smap_column. apply getitem_bool_column.
  - apply getitem_bool_empty_key.
Qed.

(** [apply] on the column of a frame without rows gives the empty object
    series, and the frame loses its columns. *)
Lemma damage_filter_action c d :
  damage_filter c d = run_action (damage_action c (columns d)) d.
Proof.
  unfold damage_filter, damage_action, getitem.
  destruct (has_damage_types (columns d)); simpl; [| reflexivity].
  destruct (rows d) as [| r rs] eqn:E.
  - unfold column. rewrite E. simpl. rewrite E. reflexivity.
  - assert (Happly : forall f,
              apply f (column damage_types d) =
              BoolSeries (smap f (column damage_types d))).
    { intros f. unfold column. rewrite E. reflexivity. }
    rewrite Happly. simpl. rewrite smap_column, getitem_bool_column, E.
    reflexivity.
Qed.

Lemma severity_filter_action rng d :
  has_severity_score (columns d) = true ->
  severity_filter rng d
  = run_action (Keep (severity_test (severity_score_dtype (columns d)) rng)) d.
Proof.
  intros Hcol. unfold severity_filter, getitem. rewrite Hcol. simpl.
  unfold series_and, series_ge, series_le.
  rewrite !smap_column, align_columns, smap_column. simpl.
  rewrite getitem_bool_column. do 2 f_equal.
  apply filter_ext. intros r. unfold severity_test.
  destruct (severity_score r); reflexivity.
Qed.

Lemma severity_stage c d :
  (if has_severity_score (columns d) then
     match severity_range c with
     | Some rng => severity_filter rng d
     | None => Ok d
     end
   else Ok d) = run_actions (severity_actions c (columns d)) d.
Proof.
  unfold severity_actions.
  destruct (has_severity_score (columns d)) eqn:Hs; [| reflexivity].
  destruct (severity_range c) as [rng |]; [| reflexivity].
  rewrite (severity_filter_action rng d Hs). reflexivity.
Qed.

(** The cases of the text filter: what the table has, the dtypes, and the
    pattern. *)
Ltac text_cases c cols :=
  unfold text_action, text_ok;
  destruct (has_room_no cols), (has_damages_found cols),
    (room_no_dtype cols), (damages_found_dtype cols),
    (Re.compile (query c)); simpl.

Lemma steady_text c cols : steady (text_action c cols).
Proof. text_cases c cols; trivial. Qed.

Lemma steady_tower c cols : steady (tower_action c cols).
Proof.
  unfold tower_action. destruct (has_tower cols); simpl; trivial.
Qed.

Lemma steady_severity c cols : Forall steady (severity_actions c cols).
Proof.
  unfold severity_actions. destruct (has_severity_score cols); [| constructor].
  destruct (severity_range c); repeat constructor.
Qed.

(** ** Chains of actions *)

Lemma run_action_columns a d d' :
  steady a -> run_action a d = Ok d' -> columns d' = columns d.
Proof.
  destruct a as [p | p | e | e]; simpl; intros Hs.
  - intros H. injection H as <-. reflexivity.
  - contradiction.
  - discriminate.
  - destruct (rows d); [| discriminate]. intros H. injection H as <-. reflexivity.
Qed.

Lemma run_actions_app l1 l2 d :
  run_actions (l1 ++ l2) d = (d' <- run_actions l1 d ;; run_actions l2 d').
Proof.
  revert d. induction l1 as [| a l1 IH]; intros d; simpl; [reflexivity |].
  destruct (run_action a d) as [d1 | e]; simpl; [apply IH | reflexivity].
Qed.

Lemma run_actions_steady l d d' :
  Forall steady l -> run_actions l d = Ok d' -> columns d' = columns d.
Proof.
  intros Hs. revert d. induction Hs as [| a l Ha _ IH]; intros d; simpl.
  - intros H. injection H as <-. reflexivity.
  - intros H. apply bind_Ok_inv in H. destruct H as (d1 & H1 & H2).
    rewrite (IH _ H2). exact (run_action_columns _ _ Ha H1).
Qed.

(** Nothing more happens to the empty frame. *)
Lemma run_actions_empty_frame l d' :
  run_actions l empty_frame = Ok d' -> d' = empty_frame.
Proof.
  induction l as [| a l IH]; simpl.
  - intros H. injection H as <-. reflexivity.
  - destruct a as [p | p | e | e]; simpl; try exact IH. discriminate.
Qed.

(** A chain that succeeds leaves the columns as they are, or leaves the
    empty frame. *)
Lemma run_actions_columns l d d' :
  run_actions l d = Ok d' -> columns d' = columns d \/ d' = empty_frame.
Proof.
  revert d. induction l as [| a l IH]; intros d; simpl.
  - intros H. injection H as <-. left. reflexivity.
  - intros H. apply bind_Ok_inv in H. destruct H as (d1 & H1 & H2).
    destruct a as [p | p | e | e]; simpl in H1.
    + injection H1 as <-. exact (IH _ H2).
    + destruct (rows d).
      * injection H1 as <-. right. exact (run_actions_empty_frame _ H2).
      * injection H1 as <-. exact (IH _ H2).
    + discriminate H1.
    + destruct (rows d); [| discriminate H1]. injection H1 as <-. exact (IH _ H2).
Qed.

Lemma filter_step (b : bool) (a : action) (body : result DataFrame)
    (x : DataFrame) (rest : DataFrame -> result DataFrame)
    (later : Columns -> list action) :
  steady a ->
  body = run_action a x ->
  (forall x', columns x' = columns x ->
              rest x' = run_actions (later (columns x')) x') ->
  (filtered <- (if b then body else Ok x) ;; rest filtered) =
  run_actions (when b a ++ later (columns x)) x.
Proof.
  intros Hs -> Hrest. rewrite run_actions_app.
  destruct b; simpl.
  - destruct (run_action a x) as [x' | e] eqn:E; simpl; [| reflexivity].
    pose proof (run_action_columns _ _ Hs E) as Hc.
    rewrite (Hrest x' Hc), Hc. reflexivity.
  - rewrite (Hrest x eq_refl). reflexivity.
Qed.

(** [apply_filters] is the chain of its filters' actions, read off the
    columns of its argument. *)
Lemma apply_filters_actions c d :
  apply_filters c d = run_actions (actions c (columns d)) d.
Proof.
  unfold apply_filters, actions. cbv zeta.
  apply (@filter_step (query_given c) (text_action c (columns d)) _ d _
           (fun cols => when (towers_given c) (tower_action c cols)
                        ++ when (damage_types_given c) (damage_action c cols)
                        ++ severity_actions c cols)
           (steady_text c (columns d)) (text_filter_action c d)).
  intros d1 _.
  apply (@filter_step (towers_given c) (tower_action c (columns d1)) _ d1 _
           (fun cols => when (damage_types_given c) (damage_action c cols)
                        ++ severity_actions c cols)
           (steady_tower c (columns d1)) (tower_filter_action c d1)).
  intros d2 _. rewrite run_actions_app.
  destruct (damage_types_given c); simpl; [| apply severity_stage].
  rewrite damage_filter_action. unfold damage_action.
  destruct (has_damage_types (columns d2)); simpl; [| reflexivity].
  destruct (rows d2) as [| r rs]; simpl.
  - unfold severity_actions.
    destruct (has_severity_score (columns d2)); [| reflexivity].
    destruct (severity_range c); reflexivity.
  - apply (severity_stage c (with_rows d2 (filter (damage_test c) (r :: rs)))).
Qed.

Lemma passes_app l1 l2 r : passes (l1 ++ l2) r = passes l1 r && passes l2 r.
Proof. unfold passes. apply forallb_app. Qed.

Lemma filter_filter {A} (p q : A -> bool) (l : list A) :
  filter q (filter p l) = filter (fun x => p x && q x) l.
Proof.
  induction l as [| x l IH]; simpl; [reflexivity |].
  destruct (p x); simpl; [destruct (q x) |]; rewrite IH; reflexivity.
Qed.

Lemma filter_comm {A} (p q : A -> bool) (l : list A) :
  filter q (filter p l) = filter p (filter q l).
Proof.
  rewrite !filter_filter. apply filter_ext. intros x. apply andb_comm.
Qed.

Lemma filter_all {A} (p : A -> bool) (l : list A) :
  (forall x, In x l -> p x = true) -> filter p l = l.
Proof.
  induction l as [| x l IH]; simpl; intros H; [reflexivity |].
  rewrite (H x (or_introl eq_refl)). f_equal. apply IH.
  intros y Hy. apply H. right. exact Hy.
Qed.

(** A chain that succeeds keeps exactly the rows that pass all its tests,
    in their order. *)
Lemma run_actions_rows l d d' :
  run_actions l d = Ok d' -> rows d' = filter (passes l) (rows d).
Proof.
  revert d. induction l as [| a l IH]; intros d; simpl.
  - intros H. injection H as <-. symmetry. apply filter_all. reflexivity.
  - intros H. apply bind_Ok_inv in H. destruct H as (d1 & H1 & H2).
    rewrite (IH _ H2). clear IH H2.
    destruct a as [p | p | e | e]; simpl in H1.
    + injection H1 as <-. apply filter_filter.
    + destruct (rows d) as [| r rs] eqn:E; injection H1 as <-; [reflexivity |].
      exact (filter_filter p (passes l) (r :: rs)).
    + discriminate H1.
    + destruct (rows d) eqn:E; [| discriminate H1].
      injection H1 as <-. rewrite E. reflexivity.
Qed.

Lemma settled_run l d : settled l d -> run_actions l d = Ok d.
Proof.
  induction l as [| a l IH]; simpl; [reflexivity |].
  destruct a as [p | p | e | e]; simpl.
  - intros [Hp Hl]. rewrite (filter_all _ _ Hp), with_rows_self. apply IH, Hl.
  - intros (Hne & Hp & Hl). destruct (rows d) as [| r rs] eqn:E; [congruence |].
    rewrite (filter_all _ _ Hp), <- E, with_rows_self. apply IH, Hl.
  - intros [].
  - intros [He Hl]. rewrite He. apply IH, Hl.
Qed.

(** The result of a chain is settled for it, when it has a row or when the
    chain strips no columns. *)
Lemma run_settled l d d' :
  run_actions l d = Ok d' ->
  rows d' <> [] \/ Forall steady l ->
  settled l d'.
Proof.
  revert d. induction l as [| a l IH]; intros d; simpl; [trivial |].
  intros H Hor. apply bind_Ok_inv in H. destruct H as (d1 & H1 & H2).
  assert (Hor' : rows d' <> [] \/ Forall steady l).
  { destruct Hor as [Hne | Hs]; [left; exact Hne |].
    right. inversion Hs; assumption. }
  pose proof (IH _ H2 Hor') as Hl. pose proof (run_actions_rows _ _ H2) as Hr.
  assert (Hkeep : forall p, rows d1 = filter p (rows d) ->
                            forall r, In r (rows d') -> p r = true).
  { intros p E r Hin. rewrite Hr, E in Hin.
    apply filter_In in Hin. destruct Hin as [Hin _].
    apply filter_In in Hin. apply Hin. }
  destruct a as [p | p | e | e]; simpl in H1.
  - injection H1 as <-. split; [apply (Hkeep p); reflexivity | exact Hl].
  - assert (Hne : rows d' <> []).
    { destruct Hor as [Hne | Hs]; [exact Hne |].
      inversion Hs as [| ? ? Ha _]; subst. contradiction. }
    split; [exact Hne |]. split; [| exact Hl].
    destruct (rows d) eqn:E; injection H1 as <-.
    + apply run_actions_empty_frame in H2. subst d'. simpl in Hne. congruence.
    + apply (Hkeep p). reflexivity.
  - discriminate H1.
  - destruct (rows d) eqn:E; [| discriminate H1]. injection H1 as <-.
    rewrite E in Hr. split; [exact Hr | exact Hl].
Qed.

(** A chain that succeeds on a frame succeeds on every selection of its
    rows, and leaves that selection of its result. *)
Lemma run_actions_selection l d d' d2 (q : Report -> bool) :
  run_actions l d = Ok d' ->
  rows d2 = filter q (rows d) ->
  exists d2', run_actions l d2 = Ok d2' /\ rows d2' = filter q (rows d').
Proof.
  revert d d2. induction l as [| a l IH]; intros d d2; simpl.
  - intros H E. injection H as <-. exists d2. split; [reflexivity | exact E].
  - intros H E. apply bind_Ok_inv in H. destruct H as (d1 & H1 & H2).
    assert (Hk : forall p, filter p (rows d2) = filter q (filter p (rows d))).
    { intros p. rewrite E. apply filter_comm. }
    destruct a as [p | p | e | e]; simpl in H1 |- *.
    + injection H1 as <-. apply (IH _ _ H2). apply Hk.
    + destruct (rows d) as [| r rs] eqn:Ed; injection H1 as <-.
      * rewrite E. simpl. apply (IH _ _ H2). reflexivity.
      * destruct (rows d2) as [| r2 rs2] eqn:Ed2.
        -- apply (IH _ _ H2). exact (Hk p).
        -- apply (IH _ _ H2). exact (Hk p).
    + discriminate H1.
    + destruct (rows d) eqn:Ed; [| discriminate H1]. injection H1 as <-.
      rewrite E. simpl. apply (IH _ _ H2). rewrite Ed. exact E.
Qed.

Lemma run_actions_no_fail l1 e l2 d d' :
  run_actions (l1 ++ Fail e :: l2) d = Ok d' -> False.
Proof.
  rewrite run_actions_app. intros H. apply bind_Ok_inv in H.
  destruct H as (d1 & _ & H). discriminate H.
Qed.

(** ** Subsequences *)

Lemma filter_subseq {A} (p : A -> bool) (l : list A) : subseq (filter p l) l.
Proof.
  induction l as [| x l IH]; simpl; [constructor |].
  destruct (p x); constructor; exact IH.
Qed.

Lemma subseq_In {A} (l1 l2 : list A) x : subseq l1 l2 -> In x l1 -> In x l2.
Proof.
  induction 1 as [| y l1 l2 _ IH | y l1 l2 _ IH]; simpl; intuition.
Qed.

Lemma subseq_map {A B} (f : A -> B) (l1 l2 : list A) :
  subseq l1 l2 -> subseq (map f l1) (map f l2).
Proof.
  induction 1; simpl; constructor; assumption.
Qed.

Lemma subseq_NoDup {A} (l1 l2 : list A) : subseq l1 l2 -> NoDup l2 -> NoDup l1.
Proof.
  induction 1 as [| y l1 l2 Hs IH | y l1 l2 Hs IH]; intros Hnd.
  - constructor.
  - inversion Hnd; subst. auto.
  - inversion Hnd; subst. constructor; [| auto].
    intros Hin. eapply subseq_In in Hin; eauto.
Qed.

(** ** The tests of the source *)

(** The three assertions of [_run_tests]. *)
Example default_filter_returns_all_rows :
  fmap (fun d => List.length (rows d))
       (apply_filters (test_criteria "" []) Sample.sample) = Ok 2.
Proof. reflexivity. Qed.

Example keyword_filter :
  rooms (apply_filters (test_criteria "101" []) Sample.sample) = Ok [Some "101"].
Proof. reflexivity. Qed.

Example damage_type_filter :
  rooms (apply_filters (test_criteria "" ["Water leak"]) Sample.sample)
  = Ok [Some "101"].
Proof. reflexivity. Qed.

(** The query is matched in either field, whatever the case of letters. *)
Example keyword_in_damages_text :
  rooms (apply_filters (Sample.search "leak") Sample.sample) = Ok [Some "101"]
  /\ rooms (apply_filters (Sample.search "CRACKED") Sample.sample) = Ok [Some "102"].
Proof. split; reflexivity. Qed.

(** The bounds of the range are included. *)
Example severity_bounds :
  rooms (apply_filters (Sample.select_range (5 # 1) (7 # 1)) Sample.sample)
  = Ok [Some "101"; Some "102"]
  /\ rooms (apply_filters (Sample.select_range (6 # 1) (7 # 1)) Sample.sample)
     = Ok [Some "102"]
  /\ rooms (apply_filters (Sample.select_range (8 # 1) (9 # 1)) Sample.sample)
     = Ok [].
Proof. repeat split. Qed.

(** A pattern that does not compile raises. *)
Example lone_backslash_raises :
  apply_filters (Sample.search "a\") Sample.sample = Raise PatternError.
Proof. reflexivity. Qed.

(** Over the store, the search for "101" creates the copy and the
    selection, and returns the selection. *)
Example search_over_the_store :
  Store.apply_filters (Sample.search "101") 0 [Sample.sample]
  = Ok (2, store_after_search).
Proof. reflexivity. Qed.

(** Without a data file the dashboard works on a table that has the
    "Damage Type List" column and no row. *)
Example table_without_files :
  fmap (fun d => (has_damage_types (columns d), rows d)) (df no_files)
  = Ok (true, []).
Proof. reflexivity. Qed.

(** ** The rows of a result *)

Lemma result_rows c D D' :
  apply_filters c D = Ok D' ->
  rows D' = filter (passes (actions c (columns D))) (rows D).
Proof.
  rewrite apply_filters_actions. apply run_actions_rows.
Qed.

Lemma result_columns c D D' :
  apply_filters c D = Ok D' -> columns D' = columns D \/ D' = empty_frame.
Proof.
  rewrite apply_filters_actions. apply run_actions_columns.
Qed.

Lemma result_In c D D' r :
  apply_filters c D = Ok D' ->
  In r (rows D') <-> In r (rows D) /\ passes (actions c (columns D)) r = true.
Proof.
  intros H. apply result_rows in H. rewrite H. apply filter_In.
Qed.

(** Two selections compared on one frame: when the chain of the first is
    that of the second with one more test, the first result is the second
    one's rows that pass this test. *)
Lemma relative_rows c c0 D D' D0 (p : Report -> bool) :
  apply_filters c D = Ok D' ->
  apply_filters c0 D = Ok D0 ->
  (forall r, passes (actions c (columns D)) r =
             passes (actions c0 (columns D)) r && p r) ->
  forall r, In r (rows D') <-> In r (rows D0) /\ p r = true.
Proof.
  intros H H0 Hp r.
  rewrite (@result_In _ _ _ r H), (@result_In _ _ _ r H0), Hp, andb_true_iff. tauto.
Qed.

(** ** Tests on one row, in the words of the specification *)

Lemma mem_In (x : string) (xs : list string) : Str.mem x xs = true <-> In x xs.
Proof.
  unfold Str.mem. rewrite existsb_exists. split.
  - intros (y & Hy & E). apply String.eqb_eq in E. subst. exact Hy.
  - intros H. exists x. split; [exact H | apply String.eqb_refl].
Qed.

Lemma damage_test_shares c r :
  damage_test c r = true <-> shares_label (damage_type_selection c) r.
Proof.
  unfold damage_test, shares_label. rewrite existsb_exists.
  split; intros (d & H1 & H2); exists d; (split; [exact H1 |]);
    apply mem_In; exact H2.
Qed.

Lemma severity_test_in_range dt rng r :
  severity_test dt rng r = true <-> in_range dt rng r.
Proof.
  unfold severity_test, in_range. destruct (severity_score r) as [v |].
  - rewrite andb_true_iff, !Qle_bool_iff. split.
    + intros [H1 H2]. exists v. auto.
    + intros (s & E & H1 & H2). injection E as <-. auto.
  - split; [discriminate |]. intros (s & E & _). discriminate E.
Qed.

(** ** Rewriting the rows under a chain *)

Lemma filter_map_blind {A} (g : A -> A) (p : A -> bool) (l : list A) :
  (forall x, p (g x) = p x) -> filter p (map g l) = map g (filter p l).
Proof.
  intros H. induction l as [| x l IH]; simpl; [reflexivity |].
  rewrite H. destruct (p x); simpl; rewrite IH; reflexivity.
Qed.

(** Under a chain whose tests do not tell a row from its rewriting, the
    rewritten frame gives the rewritten rows, or the same exception. *)
Lemma run_actions_blind g l d d2 :
  blind g l ->
  rows d2 = map g (rows d) ->
  rows_of (run_actions l d2) = fmap (fun x => map g (rows x)) (run_actions l d).
Proof.
  intros Hb. revert d d2. induction Hb as [| a l Ha _ IH]; intros d d2 E; simpl.
  - rewrite E. reflexivity.
  - destruct a as [p | p | e | e]; simpl.
    + apply IH. simpl. rewrite E. apply filter_map_blind, Ha.
    + rewrite E. destruct (rows d) as [| r rs] eqn:Ed; simpl.
      * apply IH. reflexivity.
      * apply IH. simpl. rewrite Ha.
        destruct (p r); simpl; rewrite (filter_map_blind _ _ _ Ha); reflexivity.
    + reflexivity.
    + rewrite E. destruct (rows d) as [| r rs] eqn:Ed; simpl; [| reflexivity].
      apply IH. rewrite E, Ed. reflexivity.
Qed.

Lemma blind_app g l1 l2 : blind g l1 -> blind g l2 -> blind g (l1 ++ l2).
Proof. unfold blind. intros. apply Forall_app. auto. Qed.

Lemma blind_when g b a : blind g [a] -> blind g (when b a).
Proof. destruct b; simpl; intros H; [exact H | constructor]. Qed.

Lemma blind_text g c cols :
  (forall r, room_no (g r) = room_no r) ->
  (forall r, damages_found (g r) = damages_found r) ->
  blind g [text_action c cols].
Proof.
  intros H1 H2. constructor; [| constructor].
  text_cases c cols; trivial; intros r; rewrite ?H1, ?H2; reflexivity.
Qed.

Lemma blind_tower g c cols :
  (forall r, tower (g r) = tower r) -> blind g [tower_action c cols].
Proof.
  intros H. constructor; [| constructor]. unfold tower_action.
  destruct (has_tower cols); trivial.
  intros r. unfold tower_test. rewrite H. reflexivity.
Qed.

Lemma blind_damage g c cols :
  (forall r, damage_types (g r) = damage_types r) -> blind g [damage_action c cols].
Proof.
  intros H. constructor; [| constructor]. unfold damage_action.
  destruct (has_damage_types cols); trivial.
  intros r. unfold damage_test. rewrite H. reflexivity.
Qed.

Lemma blind_severity g c cols :
  (forall r, severity_score (g r) = severity_score r) ->
  blind g (severity_actions c cols).
Proof.
  intros H. unfold severity_actions.
  destruct (has_severity_score cols); [| constructor].
  destruct (severity_range c); constructor; [| constructor].
  intros r. unfold severity_test. rewrite H. reflexivity.
Qed.

(** ** Searching for a literal *)

Lemma special_backslash c : Ascii.eqb c "\" = true -> Re.is_special c = true.
Proof. intros H. apply Ascii.eqb_eq in H. subst. reflexivity. Qed.

Lemma special_dot c : Ascii.eqb c "." = true -> Re.is_special c = true.
Proof. intros H. apply Ascii.eqb_eq in H. subst. reflexivity. Qed.

(** A query without special characters compiles to itself. *)
Lemma compile_plain q : plain q = true -> Re.compile q = Re.Pattern (literal q).
Proof.
  unfold plain, literal. induction q as [| c q IH]; simpl; [reflexivity |].
  rewrite andb_true_iff, negb_true_iff. intros [Hc Hq].
  destruct (Ascii.eqb c "\") eqn:E1.
  { apply special_backslash in E1. congruence. }
  destruct (Ascii.eqb c ".") eqn:E2.
  { apply special_dot in E2. congruence. }
  rewrite Hc, (IH Hq). reflexivity.
Qed.

Lemma match_here_literal q s :
  Re.match_here (literal q) s = true <->
  exists after, Str.lower s = (Str.lower q ++ after)%string.
Proof.
  unfold literal. revert s. induction q as [| c q IH]; intros s; simpl.
  - split; [intros _; exists (Str.lower s); reflexivity | reflexivity].
  - destruct s as [| d s]; simpl.
    + split; [discriminate | intros [after H]; discriminate H].
    + rewrite andb_true_iff, Ascii.eqb_eq, IH. split.
      * intros [Hc [after H]]. exists after. rewrite Hc, H. reflexivity.
      * intros [after H]. injection H as Hc H. split; [auto | exists after; exact H].
Qed.

(** The search for a literal finds it exactly in the strings that contain
    it, the case of letters set aside. *)
Lemma search_literal q s :
  Re.search (literal q) s = true <-> contains_ci q s.
Proof.
  unfold contains_ci. split.
  - induction s as [| d s IH]; simpl.
    + rewrite orb_false_r. intros H. apply match_here_literal in H.
      destruct H as [after H]. exists EmptyString, after. exact H.
    + rewrite orb_true_iff. intros [H | H].
      * apply match_here_literal in H. destruct H as [after H].
        exists EmptyString, after. exact H.
      * destruct (IH H) as (before & after & E).
        exists (String (Str.lower_char d) before), after. simpl. rewrite E.
        reflexivity.
  - intros (before & after & E). revert s E.
    induction before as [| b before IH]; intros s E.
    + assert (H : Re.match_here (literal q) s = true)
        by (apply match_here_literal; exists after; exact E).
      destruct s; simpl; rewrite H; reflexivity.
    + destruct s as [| d s]; simpl in E; [discriminate E |].
      injection E as _ E. simpl. rewrite (IH s E). apply orb_true_r.
Qed.

Lemma lower_empty q : Str.lower q = EmptyString -> q = EmptyString.
Proof. destruct q; [reflexivity | discriminate]. Qed.

Lemma append_empty (a b : string) :
  (a ++ b)%string = EmptyString -> a = EmptyString /\ b = EmptyString.
Proof. destruct a; simpl; [auto | discriminate]. Qed.

(** Nothing but the empty query is contained in the empty string. *)
Lemma contains_ci_empty q : contains_ci q "" -> q = "".
Proof.
  intros (before & after & E). simpl in E. symmetry in E.
  apply append_empty in E. destruct E as [_ E].
  apply append_empty in E. destruct E as [E _].
  apply lower_empty, E.
Qed.

(** A cell under a literal query: NaN never matches, and counts as the
    empty string. *)
Lemma cell_contains_literal q x :
  q <> "" ->
  cell_contains (literal q) x = true <-> contains_ci q (text_of x).
Proof.
  intros Hq. destruct x as [s |]; simpl.
  - apply search_literal.
  - split; [discriminate |]. intros H. apply contains_ci_empty in H. contradiction.
Qed.

(** ** The store *)

Lemma reaches_nth h r h' d : reaches h r h' d -> nth r h' empty_frame = d.
Proof.
  intros (_ & _ & H). apply nth_error_nth. exact H.
Qed.

Lemma reaches_new h r h' d d' :
  reaches h r h' d -> reaches h (List.length h') (h' ++ [d']) d'.
Proof.
  intros ((created & ->) & _ & _). repeat split.
  - exists (created ++ [d']). rewrite app_assoc. reflexivity.
  - rewrite length_app. lia.
  - rewrite nth_error_app2 by lia. rewrite Nat.sub_diag. reflexivity.
Qed.

Lemma agree_bind h (m : Store.M Store.ref) (k : Store.ref -> Store.M Store.ref)
    (v : result DataFrame) (k' : DataFrame -> result DataFrame) hcur :
  agree h (m hcur) v ->
  (forall r h' d, reaches h r h' d -> agree h (k r h') (k' d)) ->
  agree h (Store.mbind m k hcur) (x <- v ;; k' x).
Proof.
  unfold Store.mbind. intros Hm Hk.
  destruct (m hcur) as [[r h'] | e], v as [d | e']; simpl in *;
    try contradiction; auto.
Qed.

Lemma select_agrees h filter_of r hcur d :
  reaches h r hcur d ->
  agree h (Store.select filter_of r hcur) (filter_of d).
Proof.
  intros Hr. unfold Store.select, Store.mbind, Store.deref, Store.lift, Store.new.
  rewrite (reaches_nth Hr).
  destruct (filter_of d) as [d' | e]; simpl; [| reflexivity].
  eapply reaches_new. exact Hr.
Qed.

Lemma filter_agrees h (b : bool) filter_of r hcur d :
  reaches h r hcur d ->
  agree h ((if b then Store.select filter_of r else Store.ret r) hcur)
          (if b then filter_of d else Ok d).
Proof.
  intros Hr. destruct b; [apply select_agrees, Hr | exact Hr].
Qed.

(** The run over the store computes what [apply_filters] computes on the
    value of its argument, in a new object, and raises when it raises. *)
Lemma store_agrees c data h D :
  nth_error h data = Some D ->
  agree h (Store.apply_filters c data h) (apply_filters c D).
Proof.
  intros HD. unfold Store.apply_filters, apply_filters. cbv zeta.
  unfold Store.mbind at 1. unfold Store.copy, Store.mbind at 1.
  unfold Store.deref at 1, Store.new. rewrite (nth_error_nth h data empty_frame HD).
  assert (H0 : reaches h (List.length h) (h ++ [D]) D).
  { repeat split.
    - exists [D]. reflexivity.
    - lia.
    - rewrite nth_error_app2 by lia. rewrite Nat.sub_diag. reflexivity. }
  revert H0. generalize (List.length h) (h ++ [D]). intros r0 h0 H0.
  apply agree_bind; [apply filter_agrees, H0 |]. clear r0 h0 H0.
  intros r1 h1 d1 H1.
  apply agree_bind; [apply filter_agrees, H1 |].
  clear r1 h1 H1 d1. intros r2 h2 d2 H2.
  apply agree_bind; [apply filter_agrees, H2 |]. clear r2 h2 H2 d2.
  intros r3 h3 d3 H3.
  unfold Store.mbind, Store.deref. rewrite (reaches_nth H3).
  destruct (has_severity_score (columns d3)); [| exact H3].
  destruct (severity_range c) as [rng |]; [| exact H3].
  apply select_agrees, H3.
Qed.

(** Run over the object store, [apply_filters] writes to no object that
    existed before the call, and its result is an object created by the
    call.  The rows of the result are a subsequence of the argument's rows:
    whole rows, in their order, none repeated.  The columns are those of
    the argument, unless the result is the empty frame. *)
Lemma apply_filters_leaves_argument
    (c : Criteria) (data res : Store.ref) (h h' : Store.heap) (D : DataFrame) :
  nth_error h data = Some D ->
  Store.apply_filters c data h = Ok (res, h') ->
  (forall r d, nth_error h r = Some d -> nth_error h' r = Some d)
  /\ nth_error h' data = Some D
  /\ nth_error h res = None
  /\ res <> data
  /\ exists D',
       nth_error h' res = Some D'
       /\ apply_filters c D = Ok D'
       /\ (columns D' = columns D \/ D' = empty_frame)
       /\ subseq (rows D') (rows D)
       /\ (NoDup (map label (rows D)) -> NoDup (map label (rows D'))).
Proof.
  intros HD Hrun. pose proof (@store_agrees c data h D HD) as Ha.
  rewrite Hrun in Ha. unfold agree in Ha.
  destruct (apply_filters c D) as [D' |] eqn:HD'; [| contradiction].
  destruct Ha as ((created & ->) & Hge & Hres).
  assert (Hold : forall r d, nth_error h r = Some d ->
                             nth_error (h ++ created) r = Some d).
  { intros r d Hr. rewrite nth_error_app1; [exact Hr |].
    apply nth_error_Some. congruence. }
  assert (Hlt : data < List.length h) by (apply nth_error_Some; congruence).
  pose proof (result_rows _ _ HD') as Hr.
  assert (Hsub : subseq (rows D') (rows D)) by (rewrite Hr; apply filter_subseq).
  split; [exact Hold |]. split; [apply Hold, HD |].
  split; [apply nth_error_None; exact Hge |]. split; [lia |].
  exists D'. split; [exact Hres |]. split; [reflexivity |].
  split; [exact (result_columns _ _ HD') |]. split; [exact Hsub |].
  intros Hnd. eapply subseq_NoDup; [| exact Hnd]. apply subseq_map, Hsub.
Qed.

(** ** Idempotence, where it holds *)

Lemma steady_actions c cols :
  damage_type_selection c = [] -> Forall steady (actions c cols).
Proof.
  intros Hd. unfold actions, damage_types_given. rewrite Hd.
  apply Forall_app. split.
  { destruct (query_given c); simpl; [| constructor].
    constructor; [apply steady_text | constructor]. }
  apply Forall_app. split.
  { destruct (towers_given c); simpl; [| constructor].
    constructor; [apply steady_tower | constructor]. }
  apply Forall_app. split; [constructor | apply steady_severity].
Qed.

(** Applying [apply_filters] to its own result gives that result again when
    the result has a row, and when no damage type is selected. *)
Lemma apply_filters_idempotent_with_rows c D D' :
  apply_filters c D = Ok D' ->
  rows D' <> [] \/ damage_type_selection c = [] ->
  apply_filters c D' = Ok D'.
Proof.
  intros H Hor. rewrite apply_filters_actions in H |- *.
  assert (Hc : columns D' = columns D).
  { destruct Hor as [Hne | Hd].
    - destruct (run_actions_columns _ _ H) as [Hc | ->]; [exact Hc |].
      simpl in Hne. congruence.
    - exact (@run_actions_steady _ D D' (@steady_actions c (columns D) Hd) H). }
  rewrite Hc. apply settled_run. apply (@run_settled _ D D' H).
  destruct Hor as [Hne | Hd]; [left; exact Hne |].
  right. apply steady_actions, Hd.
Qed.

(** ** Splitting and stripping *)

Lemma split_not_nil sep s : Str.split sep s <> [].
Proof.
  destruct s as [| c s]; simpl; [discriminate |].
  destruct (Ascii.eqb c sep); [discriminate |].
  destruct (Str.split sep s); discriminate.
Qed.

Lemma only_space_nil : only_space "".
Proof. intros ch []. Qed.

Lemma only_space_cons c s :
  only_space (String c s) <-> Str.is_space c = true /\ only_space s.
Proof.
  unfold only_space, chars. simpl. split.
  - intros H. split; [apply H; left; reflexivity |].
    intros ch Hch. apply H. right. exact Hch.
  - intros [Hc Hs] ch [<- | Hch]; [exact Hc | apply Hs, Hch].
Qed.

Lemma lstrip_only_space s : only_space (Str.lstrip s) <-> only_space s.
Proof.
  induction s as [| c s IH]; simpl; [reflexivity |].
  destruct (Str.is_space c) eqn:E; [| reflexivity].
  rewrite IH, only_space_cons. tauto.
Qed.

Lemma rstrip_empty s : Str.rstrip s = "" <-> only_space s.
Proof.
  induction s as [| c s IH]; simpl.
  - split; [intros _; apply only_space_nil | reflexivity].
  - rewrite only_space_cons, <- IH.
    destruct (Str.rstrip s) as [| d t]; destruct (Str.is_space c); split;
      try discriminate; try tauto; intros [H1 H2]; discriminate.
Qed.

Lemma strip_empty s : Str.strip s = "" <-> only_space s.
Proof.
  unfold Str.strip. rewrite rstrip_empty. apply lstrip_only_space.
Qed.

Lemma is_empty_true s : Str.is_empty s = true <-> s = "".
Proof. destruct s; simpl; split; congruence. Qed.

Lemma rstrip_rstrip s : Str.rstrip (Str.rstrip s) = Str.rstrip s.
Proof.
  induction s as [| c s IH]; simpl; [reflexivity |].
  destruct (Str.rstrip s) as [| d t] eqn:E.
  - destruct (Str.is_space c) eqn:Ec; simpl; [reflexivity |].
    rewrite Ec. reflexivity.
  - change (Str.rstrip (String c (String d t))) with
      (match Str.rstrip (String d t) with
       | EmptyString => if Str.is_space c then EmptyString else String c EmptyString
       | u => String c u
       end).
    rewrite IH. reflexivity.
Qed.

Lemma rstrip_head c s :
  Str.is_space c = false -> exists t, Str.rstrip (String c s) = String c t.
Proof.
  intros Hc. simpl. destruct (Str.rstrip s) as [| d t].
  - rewrite Hc. exists EmptyString. reflexivity.
  - exists (String d t). reflexivity.
Qed.

Lemma lstrip_head s :
  Str.lstrip s = "" \/
  exists c t, Str.lstrip s = String c t /\ Str.is_space c = false.
Proof.
  induction s as [| c s IH]; simpl; [left; reflexivity |].
  destruct (Str.is_space c) eqn:E; [exact IH |].
  right. exists c, s. split; [reflexivity | exact E].
Qed.

(** A stripped string is left as it is by [strip]. *)
Lemma strip_strip s : Str.strip (Str.strip s) = Str.strip s.
Proof.
  unfold Str.strip. destruct (lstrip_head s) as [E | (c & t & E & Hc)].
  - rewrite E. reflexivity.
  - rewrite E. destruct (@rstrip_head c t Hc) as [u Eu].
    rewrite Eu. simpl Str.lstrip. rewrite Hc, <- Eu. apply rstrip_rstrip.
Qed.

Lemma lstrip_chars s ch : In ch (chars (Str.lstrip s)) -> In ch (chars s).
Proof.
  unfold chars. induction s as [| c s IH]; simpl; [trivial |].
  destruct (Str.is_space c); simpl; auto.
Qed.

Lemma rstrip_chars s ch : In ch (chars (Str.rstrip s)) -> In ch (chars s).
Proof.
  unfold chars. induction s as [| c s IH]; simpl; [trivial |].
  destruct (Str.rstrip s) as [| d t].
  - destruct (Str.is_space c); simpl; tauto.
  - simpl in *. tauto.
Qed.

Lemma strip_chars s ch : In ch (chars (Str.strip s)) -> In ch (chars s).
Proof.
  unfold Str.strip. intros H. apply lstrip_chars, rstrip_chars, H.
Qed.

(** No fragment holds the separator. *)
Lemma split_no_sep sep s frag :
  In frag (Str.split sep s) -> ~ In sep (chars frag).
Proof.
  unfold chars. revert frag. induction s as [| c s IH]; intros frag; simpl.
  - intros [<- | []]. simpl. tauto.
  - destruct (Ascii.eqb c sep) eqn:E.
    + intros [<- | H]; [simpl; tauto | apply IH, H].
    + apply Ascii.eqb_neq in E.
      destruct (Str.split sep s) as [| f rest].
      * intros [<- | []]. simpl. intros [H | []]. congruence.
      * intros [<- | H].
        -- simpl. intros [H | H]; [congruence |].
           apply (IH f); [left; reflexivity | exact H].
        -- apply IH. right. exact H.
Qed.

(** The fragments are white space throughout exactly when the string holds
    nothing but separators and white space. *)
Lemma split_only_space x :
  (forall frag, In frag (Str.split "," x) -> only_space frag) <-> blank x.
Proof.
  unfold blank. induction x as [| c x IH]; simpl.
  - split; [intros _ ch [] | intros _ frag [<- | []]; apply only_space_nil].
  - destruct (Ascii.eqb c ",") eqn:E.
    + apply Ascii.eqb_eq in E. subst c. split.
      * intros H ch [<- | Hch]; [left; reflexivity |].
        apply IH; [| exact Hch]. intros frag Hf. apply H. right. exact Hf.
      * intros H frag [<- | Hf]; [apply only_space_nil |].
        revert frag Hf. apply IH. intros ch Hch. apply H. right. exact Hch.
    + apply Ascii.eqb_neq in E.
      destruct (Str.split "," x) as [| f rest] eqn:Es;
        [exfalso; exact (split_not_nil _ _ Es) |].
      split.
      * intros H.
        assert (Hcf : only_space (String c f)) by (apply H; left; reflexivity).
        apply only_space_cons in Hcf. destruct Hcf as [Hc Hf].
        intros ch [<- | Hch]; [right; exact Hc |].
        apply IH; [| exact Hch].
        intros frag [<- | Hin]; [exact Hf | apply H; right; exact Hin].
      * intros H.
        assert (Hc : Str.is_space c = true).
        { destruct (H c (or_introl eq_refl)) as [Hc | Hc]; [congruence | exact Hc]. }
        assert (Hx : forall frag, In frag (f :: rest) -> only_space frag).
        { apply IH. intros ch Hch. apply H. right. exact Hch. }
        intros frag [<- | Hin].
        -- apply only_space_cons. split; [exact Hc | apply Hx; left; reflexivity].
        -- apply Hx. right. exact Hin.
Qed.

Lemma parse_damages_In x d :
  In d (parse_damages x) <->
  exists frag, In frag (Str.split "," x) /\ d = Str.strip frag /\ d <> "".
Proof.
  unfold parse_damages. rewrite in_map_iff. split.
  - intros (frag & <- & Hf). apply filter_In in Hf. destruct Hf as [Hf Hne].
    exists frag. repeat split; [exact Hf |].
    intros E. apply is_empty_true in E. rewrite E in Hne. discriminate Hne.
  - intros (frag & Hf & -> & Hne). exists frag. split; [reflexivity |].
    apply filter_In. split; [exact Hf |].
    destruct (Str.is_empty (Str.strip frag)) eqn:E; [| reflexivity].
    apply is_empty_true in E. contradiction.
Qed.

Lemma parse_damages_nil x : parse_damages x = [] <-> blank x.
Proof.
  rewrite <- split_only_space. split.
  - intros H frag Hf. apply strip_empty.
    destruct (Str.strip frag) as [| ch t] eqn:E; [reflexivity | exfalso].
    assert (Hin : In (String ch t) (parse_damages x)).
    { apply parse_damages_In. exists frag. repeat split; [exact Hf | auto | discriminate]. }
    rewrite H in Hin. exact Hin.
  - intros H. destruct (parse_damages x) as [| d l] eqn:E; [reflexivity | exfalso].
    assert (Hin : In d (parse_damages x)) by (rewrite E; left; reflexivity).
    apply parse_damages_In in Hin. destruct Hin as (frag & Hf & -> & Hne).
    apply Hne, strip_empty, H, Hf.
Qed.

(** ** Counting *)

Lemma explode_pairs D :
  dropna (values_of (flat_map explode_row (rows D))) = map snd (pairs D).
Proof.
  unfold pairs, values_of. induction (rows D) as [| r l IH]; simpl; [reflexivity |].
  rewrite !map_app, <- IH. clear IH.
  assert (Happ : forall (a b : list (option string)),
             dropna (a ++ b) = dropna a ++ dropna b).
  { intros a b. induction a as [| [x |] a IHa]; simpl; [| rewrite IHa |]; auto. }
  rewrite Happ. f_equal. unfold explode_row.
  destruct (damage_types r) as [| d ds]; [reflexivity |].
  generalize (d :: ds). intros l0. induction l0 as [| x l0 IH0]; simpl;
    [reflexivity | rewrite IH0; reflexivity].
Qed.

Lemma count_of_add k k' t :
  count_of k' (count_add k t) =
  if String.eqb k' k then S (count_of k' t) else count_of k' t.
Proof.
  induction t as [| [k0 n] t IH]; simpl.
  - destruct (String.eqb k' k); reflexivity.
  - destruct (String.eqb k k0) eqn:E; simpl.
    + apply String.eqb_eq in E. subst k0.
      destruct (String.eqb k' k); reflexivity.
    + destruct (String.eqb k' k0) eqn:E0.
      * apply String.eqb_eq in E0. subst k0.
        rewrite String.eqb_sym, E. reflexivity.
      * exact IH.
Qed.

Lemma count_add_keys k t x :
  In x (map fst (count_add k t)) <-> x = k \/ In x (map fst t).
Proof.
  induction t as [| [k0 n] t IH]; simpl; [intuition |].
  destruct (String.eqb k k0) eqn:E; simpl.
  - apply String.eqb_eq in E. subst k0. intuition.
  - rewrite IH. intuition.
Qed.

Lemma count_add_ok k t : count_table_ok t -> count_table_ok (count_add k t).
Proof.
  unfold count_table_ok. induction t as [| [k0 n] t IH]; simpl.
  - intros _. split; repeat constructor. intros [].
  - intros [Hnd Hpos]. inversion Hnd as [| ? ? Hnotin Hnd']; subst.
    inversion Hpos as [| ? ? Hn Hpos']; subst.
    destruct (String.eqb k k0) eqn:E; simpl.
    + split; constructor; simpl in *; auto; lia.
    + destruct (IH (conj Hnd' Hpos')) as [IH1 IH2].
      split; constructor; auto.
      rewrite count_add_keys. intros [-> | H]; [| contradiction].
      rewrite String.eqb_refl in E. discriminate E.
Qed.

Lemma total_count_add k t : total (count_add k t) = S (total t).
Proof.
  induction t as [| [k0 n] t IH]; simpl; [reflexivity |].
  destruct (String.eqb k k0); simpl; [reflexivity | rewrite IH; lia].
Qed.

Lemma count_table_from l t k :
  count_of k (fold_left (fun t k => count_add k t) l t) =
  count_occ string_dec l k + count_of k t.
Proof.
  revert t. induction l as [| x l IH]; intros t; simpl; [reflexivity |].
  rewrite IH, count_of_add.
  destruct (string_dec x k) as [-> | Hne].
  - rewrite String.eqb_refl. lia.
  - destruct (String.eqb k x) eqn:E; [| reflexivity].
    apply String.eqb_eq in E. congruence.
Qed.

Lemma count_table_from_ok l t :
  count_table_ok t -> count_table_ok (fold_left (fun t k => count_add k t) l t).
Proof.
  revert t. induction l as [| x l IH]; intros t H; simpl; [exact H |].
  apply IH, count_add_ok, H.
Qed.

Lemma total_from l t :
  total (fold_left (fun t k => count_add k t) l t) = List.length l + total t.
Proof.
  revert t. induction l as [| x l IH]; intros t; simpl; [reflexivity |].
  rewrite IH, total_count_add. lia.
Qed.

Lemma count_table_well_formed l : count_table_ok (count_table l).
Proof.
  apply count_table_from_ok. split; constructor.
Qed.

Lemma count_of_count_table l k : count_of k (count_table l) = count_occ string_dec l k.
Proof.
  unfold count_table. rewrite count_table_from. simpl. lia.
Qed.

Lemma total_count_table l : total (count_table l) = List.length l.
Proof.
  unfold count_table. rewrite total_from. simpl. lia.
Qed.

(** In a table of counts, the entries are the keys with their positive
    counts. *)
Lemma count_table_ok_In t k n :
  count_table_ok t -> In (k, n) t <-> n = count_of k t /\ 0 < n.
Proof.
  unfold count_table_ok. induction t as [| [k0 n0] t IH]; simpl.
  - intros _. split; [intros [] | lia].
  - intros [Hnd Hpos]. inversion Hnd as [| ? ? Hnotin Hnd']; subst.
    inversion Hpos as [| ? ? Hn Hpos']; subst. simpl in Hn.
    specialize (IH (conj Hnd' Hpos')).
    destruct (String.eqb k k0) eqn:E.
    + apply String.eqb_eq in E. subst k0. split.
      * intros [H | H]; [injection H as <-; auto |].
        exfalso. apply Hnotin. apply in_map_iff. exists (k, n). auto.
      * intros [-> _]. left. reflexivity.
    + rewrite <- IH. split; [| tauto].
      intros [H | H]; [| exact H]. injection H as -> _.
      rewrite String.eqb_refl in E. discriminate E.
Qed.

(** ** Reordering a table of counts *)

Lemma total_app a b : total (a ++ b) = total a + total b.
Proof.
  unfold total. induction a as [| e a IH]; simpl; [reflexivity | rewrite IH; lia].
Qed.

Lemma total_perm a b : Permutation a b -> total a = total b.
Proof.
  unfold total. induction 1; simpl; lia.
Qed.

Lemma count_table_ok_perm a b :
  Permutation a b -> count_table_ok a -> count_table_ok b.
Proof.
  unfold count_table_ok. intros Hp [H1 H2]. split.
  - eapply Permutation_NoDup; [| exact H1]. apply Permutation_map, Hp.
  - eapply Permutation_Forall; eassumption.
Qed.

Lemma count_of_perm a b k :
  Permutation a b -> count_table_ok a -> count_of k a = count_of k b.
Proof.
  intros Hp Ha. pose proof (count_table_ok_perm Hp Ha) as Hb.
  destruct (Nat.eq_dec (count_of k a) 0) as [E0 | Hne].
  - destruct (Nat.eq_dec (count_of k b) 0) as [E1 | Hne1]; [congruence |].
    assert (Hin : In (k, count_of k b) b)
      by (apply count_table_ok_In; [exact Hb | split; [reflexivity | lia]]).
    apply (Permutation_in _ (Permutation_sym Hp)) in Hin.
    apply count_table_ok_In in Hin; [| exact Ha]. lia.
  - assert (Hin : In (k, count_of k a) a)
      by (apply count_table_ok_In; [exact Ha | split; [reflexivity | lia]]).
    apply (Permutation_in _ Hp) in Hin.
    apply count_table_ok_In in Hin; [| exact Hb]. lia.
Qed.

Lemma total_firstn n t : total (firstn n t) <= total t.
Proof.
  rewrite <- (firstn_skipn n t) at 2. rewrite total_app. lia.
Qed.

Lemma descending_firstn n t : descending t -> descending (firstn n t).
Proof.
  unfold descending. revert n. induction t as [| e t IH]; intros n H.
  - rewrite firstn_nil. constructor.
  - destruct n as [| n]; simpl; [constructor |].
    inversion H as [| ? ? Hs Hf]; subst. constructor; [apply IH, Hs |].
    rewrite Forall_forall in *. intros x Hx. apply Hf.
    rewrite <- (firstn_skipn n t). apply in_or_app. left. exact Hx.
Qed.

(** ** Insertion sort meets the contract *)

Lemma insert_desc_perm x l : Permutation (x :: l) (insert_desc x l).
Proof.
  induction l as [| y l IH]; simpl; [apply Permutation_refl |].
  destruct (snd y <=? snd x); [apply Permutation_refl |].
  eapply perm_trans; [apply perm_swap |]. apply perm_skip, IH.
Qed.

Lemma insert_desc_sorted x l : descending l -> descending (insert_desc x l).
Proof.
  unfold descending. induction l as [| y l IH]; simpl; intros H.
  - repeat constructor.
  - inversion H as [| ? ? Hs Hf]; subst.
    destruct (snd y <=? snd x) eqn:E.
    + apply Nat.leb_le in E. constructor; [exact H |].
      constructor; [exact E |].
      rewrite Forall_forall in *. intros z Hz. specialize (Hf z Hz). lia.
    + apply Nat.leb_gt in E. constructor; [apply IH, Hs |].
      rewrite Forall_forall in *. intros z Hz.
      apply (Permutation_in _ (Permutation_sym (insert_desc_perm x l))) in Hz.
      destruct Hz as [<- | Hz]; [lia | apply Hf, Hz].
Qed.

Lemma stable_sort_contract : sort_contract stable_sort.
Proof.
  intros l. unfold stable_sort. induction l as [| x l [IHp IHs]]; simpl.
  - split; constructor.
  - split.
    + eapply perm_trans; [apply perm_skip, IHp | apply insert_desc_perm].
    + apply insert_desc_sorted, IHs.
Qed.

(** ** Ties under the stable sort *)

Lemma first_seen_in_prefix k pre rest :
  In k pre -> first_seen k (pre ++ rest) < List.length pre.
Proof.
  induction pre as [| x pre IH]; simpl; [intros [] |].
  intros H. destruct (String.eqb k x) eqn:E; [lia |].
  destruct H as [-> | H]; [rewrite String.eqb_refl in E; discriminate E |].
  specialize (IH H). lia.
Qed.

Lemma first_seen_after_prefix k pre rest :
  ~ In k pre -> first_seen k (pre ++ k :: rest) = List.length pre.
Proof.
  induction pre as [| x pre IH]; simpl; intros H.
  - rewrite String.eqb_refl. reflexivity.
  - destruct (String.eqb k x) eqn:E.
    + apply String.eqb_eq in E. subst. tauto.
    + rewrite IH; [reflexivity | tauto].
Qed.

Lemma count_add_new k t :
  ~ In k (map fst t) -> count_add k t = t ++ [(k, 1)].
Proof.
  induction t as [| [k0 n] t IH]; simpl; intros H; [reflexivity |].
  destruct (String.eqb k k0) eqn:E.
  - apply String.eqb_eq in E. subst. tauto.
  - rewrite IH; [reflexivity | tauto].
Qed.

Lemma count_add_old k t :
  In k (map fst t) -> map fst (count_add k t) = map fst t.
Proof.
  induction t as [| [k0 n] t IH]; simpl; [intros [] |].
  intros H. destruct (String.eqb k k0) eqn:E; simpl; [reflexivity |].
  f_equal. apply IH. destruct H as [-> | H]; [| exact H].
  rewrite String.eqb_refl in E. discriminate E.
Qed.

Lemma StronglySorted_map_fst (R : string -> string -> Prop) (t u : list (string * nat)) :
  map fst t = map fst u ->
  StronglySorted (fun a b => R (fst a) (fst b)) t ->
  StronglySorted (fun a b => R (fst a) (fst b)) u.
Proof.
  revert u. induction t as [| a t IH]; intros [| b u] E H; try discriminate E;
    [constructor |].
  simpl in E. injection E as Ea Et. inversion H as [| ? ? Hs Hf]; subst.
  constructor; [apply IH; assumption |].
  rewrite Forall_forall in *. intros y Hy.
  assert (Hin : In (fst y) (map fst t)) by (rewrite Et; apply in_map, Hy).
  apply in_map_iff in Hin. destruct Hin as (y0 & Ey & Hy0).
  rewrite <- Ea, <- Ey. apply Hf, Hy0.
Qed.

Lemma StronglySorted_snoc {A} (R : A -> A -> Prop) (l : list A) (x : A) :
  StronglySorted R l -> Forall (fun y => R y x) l -> StronglySorted R (l ++ [x]).
Proof.
  induction 1 as [| a l Hs IH Hf]; intros Hx; simpl.
  - repeat constructor.
  - inversion Hx; subst. constructor; [apply IH; assumption |].
    apply Forall_app. split; [exact Hf | repeat constructor; assumption].
Qed.

(** The table lists its keys in the order in which the labels are first
    seen. *)
Lemma count_table_in_order l : in_order_of_sight l (count_table l).
Proof.
  unfold in_order_of_sight, count_table.
  assert (Hgen : forall rest pre t,
             l = pre ++ rest ->
             (forall k, In k (map fst t) <-> In k pre) ->
             StronglySorted
               (fun a b => first_seen (fst a) l < first_seen (fst b) l) t ->
             StronglySorted
               (fun a b => first_seen (fst a) l < first_seen (fst b) l)
               (fold_left (fun t k => count_add k t) rest t)).
  { induction rest as [| x rest IH]; intros pre t El Hkeys Hs; simpl; [exact Hs |].
    apply (IH (pre ++ [x])).
    - rewrite <- app_assoc. exact El.
    - intros k. rewrite count_add_keys, in_app_iff, Hkeys. simpl. intuition.
    - destruct (in_dec string_dec x (map fst t)) as [Hin | Hnew].
      + apply (@StronglySorted_map_fst
                 (fun a b => first_seen a l < first_seen b l) t (count_add x t));
          [| exact Hs].
        symmetry. apply count_add_old, Hin.
      + rewrite (@count_add_new x t Hnew). apply StronglySorted_snoc; [exact Hs |].
        apply Forall_forall. intros y Hy. simpl.
        assert (Hpre : In (fst y) pre) by (apply Hkeys, in_map, Hy).
        assert (Hx : ~ In x pre) by (rewrite <- Hkeys; exact Hnew).
        rewrite El, (@first_seen_after_prefix x pre rest Hx).
        apply first_seen_in_prefix, Hpre. }
  apply (Hgen l [] []); [reflexivity | intros k; simpl; tauto | constructor].
Qed.

Lemma insert_desc_before labels x s :
  StronglySorted (before labels) s ->
  Forall (fun y => first_seen (fst x) labels < first_seen (fst y) labels) s ->
  StronglySorted (before labels) (insert_desc x s).
Proof.
  induction 1 as [| y s Hs IH Hf]; intros Hx; simpl.
  - repeat constructor.
  - inversion Hx as [| ? ? Hxy Hxs]; subst.
    destruct (snd y <=? snd x) eqn:E.
    + apply Nat.leb_le in E. constructor; [constructor; assumption |].
      constructor; [split; [exact E | intros _; exact Hxy] |].
      rewrite Forall_forall in *. intros z Hz.
      destruct (Hf z Hz) as [Hle _]. split; [lia | intros _; apply Hxs, Hz].
    + apply Nat.leb_gt in E. constructor; [apply IH, Hxs |].
      rewrite Forall_forall in *. intros z Hz.
      apply (Permutation_in _ (Permutation_sym (insert_desc_perm x s))) in Hz.
      destruct Hz as [<- | Hz]; [| apply Hf, Hz].
      split; [lia | intros Heq; lia].
Qed.

(** The stable sort keeps the order of sight among equal counts. *)
Lemma stable_sort_before labels t :
  in_order_of_sight labels t -> StronglySorted (before labels) (stable_sort t).
Proof.
  unfold in_order_of_sight, stable_sort.
  induction 1 as [| x t Hs IH Hf]; simpl; [constructor |].
  apply insert_desc_before; [exact IH |].
  rewrite Forall_forall in *. intros y Hy. apply Hf.
  destruct (stable_sort_contract t) as [Hp _].
  apply (Permutation_in _ (Permutation_sym Hp)), Hy.
Qed.

Lemma StronglySorted_firstn {A} (R : A -> A -> Prop) n (l : list A) :
  StronglySorted R l -> StronglySorted R (firstn n l).
Proof.
  revert n. induction l as [| e l IH]; intros n H.
  - rewrite firstn_nil. constructor.
  - destruct n as [| n]; simpl; [constructor |].
    inversion H as [| ? ? Hs Hf]; subst. constructor; [apply IH, Hs |].
    rewrite Forall_forall in *. intros x Hx. apply Hf.
    rewrite <- (firstn_skipn n l). apply in_or_app. left. exact Hx.
Qed.

Lemma StronglySorted_nth {A} (R : A -> A -> Prop) (l : list A) i j a b :
  StronglySorted R l -> i < j ->
  nth_error l i = Some a -> nth_error l j = Some b -> R a b.
Proof.
  intros Hs. revert i j. induction Hs as [| x l Hs IH Hf]; intros i j Hij Hi Hj.
  - destruct i; discriminate Hi.
  - destruct j as [| j]; [lia |]. simpl in Hj. destruct i as [| i]; simpl in Hi.
    + injection Hi as <-. rewrite Forall_forall in Hf.
      apply Hf. eapply nth_error_In. exact Hj.
    + apply (IH i j); [lia | assumption | assumption].
Qed.

(** With the stable sort, equal counts come in the order of first sight. *)
Lemma stable_sort_ties labels n :
  ties_first_seen labels (firstn n (stable_sort (count_table labels))).
Proof.
  intros i j k1 k2 c Hij Hi Hj.
  assert (Hs : StronglySorted (before labels)
                 (firstn n (stable_sort (count_table labels)))).
  { apply StronglySorted_firstn, stable_sort_before, count_table_in_order. }
  destruct (StronglySorted_nth Hs Hij Hi Hj) as [_ H]. apply H. reflexivity.
Qed.

(** ** Fragments between commas *)

Lemma string_app_assoc (a b c : string) : ((a ++ b) ++ c = a ++ (b ++ c))%string.
Proof. induction a as [| x a IH]; simpl; [reflexivity | rewrite IH; reflexivity]. Qed.

Lemma string_app_nil (a : string) : (a ++ "" = a)%string.
Proof. induction a as [| x a IH]; simpl; [reflexivity | rewrite IH; reflexivity]. Qed.

Lemma chars_app (a b : string) : chars (a ++ b) = chars a ++ chars b.
Proof.
  unfold chars. induction a as [| x a IH]; simpl; [reflexivity |].
  rewrite IH. reflexivity.
Qed.

Lemma split_whole sep s : ~ In sep (chars s) -> Str.split sep s = [s].
Proof.
  unfold chars. induction s as [| c s IH]; simpl; [reflexivity |].
  intros H. destruct (Ascii.eqb c sep) eqn:E.
  - apply Ascii.eqb_eq in E. tauto.
  - rewrite IH by tauto. reflexivity.
Qed.

Lemma split_at_sep sep x y :
  ~ In sep (chars x) ->
  Str.split sep (x ++ String sep y) = x :: Str.split sep y.
Proof.
  unfold chars. induction x as [| c x IH]; simpl.
  - intros _. rewrite Ascii.eqb_refl. reflexivity.
  - intros H. destruct (Ascii.eqb c sep) eqn:E.
    + apply Ascii.eqb_eq in E. tauto.
    + rewrite IH by tauto. reflexivity.
Qed.

Lemma parse_damages_at_comma x y :
  ~ In ","%char (chars x) ->
  parse_damages (x ++ String "," y) =
  (if Str.is_empty (Str.strip x) then [] else [Str.strip x]) ++ parse_damages y.
Proof.
  intros H. unfold parse_damages. rewrite (@split_at_sep _ _ y H). simpl.
  destruct (Str.is_empty (Str.strip x)); reflexivity.
Qed.

Lemma parse_damages_whole x :
  ~ In ","%char (chars x) ->
  parse_damages x = if Str.is_empty (Str.strip x) then [] else [Str.strip x].
Proof.
  intros H. unfold parse_damages. rewrite (@split_whole _ x H). simpl.
  destruct (Str.is_empty (Str.strip x)); reflexivity.
Qed.

Lemma labels_written_split x : parse_damages x = labels_written (Str.split "," x).
Proof.
  unfold parse_damages, labels_written.
  induction (Str.split "," x) as [| f l IH]; simpl; [reflexivity |].
  destruct (Str.is_empty (Str.strip f)); simpl; rewrite IH; reflexivity.
Qed.

Lemma join_cons sep x y l :
  join sep (x :: y :: l) = (x ++ sep ++ join sep (y :: l))%string.
Proof. reflexivity. Qed.

(** A text is its fragments joined with commas. *)
Lemma join_split x : join "," (Str.split "," x) = x.
Proof.
  induction x as [| c x IH]; simpl; [reflexivity |].
  destruct (Str.split "," x) as [| f l] eqn:E;
    [exfalso; exact (split_not_nil _ _ E) |].
  destruct (Ascii.eqb c ",") eqn:Ec.
  - apply Ascii.eqb_eq in Ec. subst c. rewrite join_cons, IH. reflexivity.
  - destruct l as [| g l].
    + simpl in IH |- *. rewrite IH. reflexivity.
    + rewrite join_cons. rewrite join_cons in IH. simpl. rewrite <- IH.
      reflexivity.
Qed.

(** Fragments joined with commas are split into those fragments. *)
Lemma split_join frags :
  frags <> [] -> Forall comma_free frags ->
  Str.split "," (join "," frags) = frags.
Proof.
  intros Hne Hall. induction Hall as [| f l Hf Hl IH]; [congruence |].
  destruct l as [| g l].
  - simpl. apply split_whole, Hf.
  - rewrite join_cons.
    change ("," ++ join "," (g :: l))%string with (String "," (join "," (g :: l))).
    rewrite (@split_at_sep _ f (join "," (g :: l)) Hf).
    rewrite IH by discriminate. reflexivity.
Qed.

Lemma parse_damages_written frags :
  frags <> [] -> Forall comma_free frags ->
  parse_damages (join "," frags) = labels_written frags.
Proof.
  intros Hne Hall. rewrite labels_written_split, (split_join Hne Hall).
  reflexivity.
Qed.

(** ** The derived column *)

Lemma set_damage_types_rows f D :
  rows (set_damage_types f D) = map (set_list f) (rows D).
Proof. reflexivity. Qed.

Lemma damage_type_list_Ok D T :
  damage_type_list D = Ok T ->
  T = set_damage_types (labels_of D) D.
Proof.
  unfold damage_type_list, labels_of.
  destruct (has_damages_found (columns D)).
  - destruct (_ || _); [| discriminate]. intros H. injection H as <-. reflexivity.
  - intros H. injection H as <-. reflexivity.
Qed.

Lemma no_value_forall (D : DataFrame) :
  existsb (fun r => has_value (damages_found r)) (rows D) = false <->
  forall r, In r (rows D) -> damages_found r = None.
Proof.
  induction (rows D) as [| r l IH]; simpl.
  - split; [intros _ r [] | reflexivity].
  - rewrite orb_false_iff, IH. split.
    + intros [H1 H2] r0 [<- | H0]; [| auto].
      destruct (damages_found r); [discriminate H1 | reflexivity].
    + intros H. split; [| intros r0 H0; apply H; right; exact H0].
      rewrite (H r (or_introl eq_refl)). reflexivity.
Qed.

(** The column is derived when "Damages Found" is absent, holds text, or
    holds nothing; it raises AttributeError on a number. *)
Lemma damage_type_list_succeeds D :
  has_damages_found (columns D) = false
  \/ damages_found_dtype (columns D) = object
  \/ (forall r, In r (rows D) -> damages_found r = None) ->
  damage_type_list D = Ok (set_damage_types (labels_of D) D).
Proof.
  unfold damage_type_list, labels_of.
  destruct (has_damages_found (columns D)); [| reflexivity].
  intros [H | [H | H]]; [discriminate H | rewrite H; reflexivity |].
  apply no_value_forall in H. rewrite H, orb_true_r. reflexivity.
Qed.

Lemma damage_type_list_number D n r s :
  has_damages_found (columns D) = true ->
  damages_found_dtype (columns D) = number n ->
  In r (rows D) -> damages_found r = Some s ->
  damage_type_list D = Raise AttributeError.
Proof.
  intros Hh Hd Hr Hs. unfold damage_type_list. rewrite Hh, Hd. simpl.
  assert (E : existsb (fun r => has_value (damages_found r)) (rows D) = true).
  { apply existsb_exists. exists r. rewrite Hs. auto. }
  rewrite E. reflexivity.
Qed.

(** * The claims *)

(** ** The text filter *)






(** ** The two empty selections *)

(** C2, as stated, fails: with no tower selected, [apply_filters] returns
    both rows of the test frame, not zero rows. *)
Lemma empty_towers_keeps_rows :
  towers (Sample.select_towers []) = []
  /\ apply_filters (Sample.select_towers []) Sample.sample = Ok Sample.sample
  /\ List.length (rows Sample.sample) = 2.
Proof. repeat split. Qed.

(** C2, amended. An empty tower selection restricts nothing, exactly like
    an empty damage-type selection: [if towers:] skips the tower filter and
    [if damage_types:] skips the damage-type filter.  With no tower
    selected, the rows returned, or the exception raised, are the same
    whatever the "Tower" column holds and whether or not the table has one;
    with no damage type selected, the same holds of the
    "Damage Type List" column; with nothing selected at all, every row is
    returned. *)
Theorem empty_selections_do_not_restrict
    (c : Criteria) (D : DataFrame)
    (has : bool) (f : Report -> option string) (g : Report -> list string) :
  rows_of (apply_filters (without_towers c) (retower has f D))
    = fmap (fun D' => map (set_tower f) (rows D'))
           (apply_filters (without_towers c) D)
  /\ rows_of (apply_filters (without_damage_types c) (relist has g D))
    = fmap (fun D' => map (set_list g) (rows D'))
           (apply_filters (without_damage_types c) D)
  /\ apply_filters no_criteria D = Ok D.
Proof.
  split; [| split].
  - rewrite !apply_filters_actions.
    replace (actions (without_towers c) (columns (retower has f D)))
      with (actions (without_towers c) (columns D)) by reflexivity.
    apply run_actions_blind; [| reflexivity]. unfold actions.
    repeat apply blind_app.
    + apply blind_when, blind_text; reflexivity.
    + constructor.
    + apply blind_when, blind_damage; reflexivity.
    + apply blind_severity; reflexivity.
  - rewrite !apply_filters_actions.
    replace (actions (without_damage_types c) (columns (relist has g D)))
      with (actions (without_damage_types c) (columns D)) by reflexivity.
    apply run_actions_blind; [| reflexivity]. unfold actions.
    repeat apply blind_app.
    + apply blind_when, blind_text; reflexivity.
    + apply blind_when, blind_tower; reflexivity.
    + constructor.
    + apply blind_severity; reflexivity.
  - unfold apply_filters. simpl. destruct (has_severity_score (columns D)); reflexivity.
Qed.

(** ** The severity filter *)

Lemma actions_split c cols :
  actions c cols = earlier_actions c cols ++ severity_actions c cols.
Proof.
  unfold actions, earlier_actions. rewrite <- !app_assoc. reflexivity.
Qed.

Lemma severity_filter_last c D rng :
  severity_range c = Some rng ->
  has_severity_score (columns D) = true ->
  apply_filters c D =
  (D0 <- apply_filters (without_range c) D ;;
   Ok (with_rows D0
         (filter (severity_test (severity_score_dtype (columns D)) rng)
            (rows D0)))).
Proof.
  intros Hr Hs. rewrite !apply_filters_actions, !actions_split.
  rewrite !run_actions_app.
  change (earlier_actions (without_range c)) with (earlier_actions c).
  unfold severity_actions. rewrite Hs, Hr. simpl.
  destruct (run_actions _ D) as [D0 |]; reflexivity.
Qed.

Lemma severity_filter_absent c D :
  has_severity_score (columns D) = false ->
  apply_filters c D = apply_filters (without_range c) D.
Proof.
  intros Hs. rewrite !apply_filters_actions. unfold actions, severity_actions.
  rewrite Hs. reflexivity.
Qed.

(** Without a range the chain has no test on the scores. *)
Lemma without_range_blind c D has dt f :
  rows_of (apply_filters (without_range c) (rescore has dt f D))
  = fmap (fun D' => map (set_score f) (rows D'))
         (apply_filters (without_range c) D).
Proof.
  rewrite !apply_filters_actions.
  assert (E : forall cols, actions (without_range c) cols = earlier_actions c cols).
  { intros cols. rewrite actions_split. unfold severity_actions. simpl.
    destruct (has_severity_score cols); apply app_nil_r. }
  rewrite !E.
  replace (earlier_actions c (columns (rescore has dt f D)))
    with (earlier_actions c (columns D)) by reflexivity.
  apply run_actions_blind; [| reflexivity]. unfold earlier_actions.
  repeat apply blind_app.
  - apply blind_when, blind_text; reflexivity.
  - apply blind_when, blind_tower; reflexivity.
  - apply blind_when, blind_damage; reflexivity.
Qed.

(** C3, as stated, fails at the limits of float64: the scores of an int64
    column are converted to float64 for the comparison with the bounds,
    which are floats.  The score 2^53 + 1 becomes 2^53, so the range from 0
    to 2^53 keeps a row whose score is above the maximum. *)
Lemma large_score_is_kept :
  severity_score_dtype (columns large_score_frame) = int64
  /\ severity_range up_to_2_53 = Some (0 # 1, 9007199254740992 # 1)
  /\ apply_filters up_to_2_53 large_score_frame = Ok large_score_frame
  /\ rows large_score_frame = [large_score_report]
  /\ severity_score large_score_report = Some (9007199254740993 # 1)
  /\ ~ (9007199254740993 # 1 <= 9007199254740992 # 1)%Q.
Proof.
  split; [reflexivity |]. split; [reflexivity |].
  split; [vm_compute; reflexivity |]. split; [reflexivity |].
  split; [reflexivity |]. intros H. apply Qle_bool_iff in H. discriminate H.
Qed.

(** C3, amended. The severity filter is run exactly when the table has a
    "Severity Score" column and a range is supplied.  Run, it turns what
    the other filters leave, [D0], into the rows of [D0] whose score, as a
    float64, lies in the range, both bounds included: it raises nothing, a
    row without a score is dropped, and a range with min > max leaves no
    row.  A score of a float64 column is compared as it is, and so is an
    integer of an int64 column up to 2^53 in magnitude; a larger integer is
    first rounded to the nearest float.  Without the column the result is
    that of the other filters alone.  Without a range the rows returned, or
    the exception raised, are the same whatever the column holds, a row
    without a score included, and whether or not the table has it. *)
Theorem severity_filter_range (c : Criteria) (D D0 : DataFrame) (rng : Q * Q) :
  severity_range c = Some rng ->
  apply_filters (without_range c) D = Ok D0 ->
  (if has_severity_score (columns D) then
     exists D',
       apply_filters c D = Ok D'
       /\ (forall r, In r (rows D') <->
                     In r (rows D0)
                     /\ in_range (severity_score_dtype (columns D)) rng r)
       /\ (forall r, In r (rows D') -> severity_score r <> None)
       /\ ((snd rng < fst rng)%Q -> rows D' = [])
   else apply_filters c D = Ok D0)
  /\ (forall v, as_float float64 v = v)
  /\ (forall n : Z,
        (- 2 ^ 53 <= n <= 2 ^ 53)%Z -> as_float int64 (inject_Z n) = inject_Z n)
  /\ (forall a b, (a <= b)%Q -> (as_float int64 a <= as_float int64 b)%Q)
  /\ (forall has dt f,
        rows_of (apply_filters (without_range c) (rescore has dt f D))
        = fmap (fun D' => map (set_score f) (rows D'))
               (apply_filters (without_range c) D)).
Proof.
  intros Hr H0.
  split; [| split; [reflexivity | split; [| split]]].
  - destruct (has_severity_score (columns D)) eqn:Hs.
    + set (dt := severity_score_dtype (columns D)).
      exists (with_rows D0 (filter (severity_test dt rng) (rows D0))).
      assert (Hin : forall r, In r (filter (severity_test dt rng) (rows D0)) <->
                              In r (rows D0) /\ in_range dt rng r).
      { intros r. rewrite filter_In, severity_test_in_range. tauto. }
      split; [| split; [| split]].
      * rewrite (severity_filter_last c D Hr Hs), H0. reflexivity.
      * exact Hin.
      * simpl. intros r Hrow E. apply Hin in Hrow.
        destruct Hrow as (_ & s & Es & _). congruence.
      * simpl. intros Hlt.
        destruct (filter (severity_test dt rng) (rows D0)) as [| r l] eqn:E;
          [reflexivity | exfalso].
        assert (Hrow : In r (r :: l)) by (left; reflexivity).
        apply Hin in Hrow. destruct Hrow as (_ & s & _ & Hlo & Hhi).
        apply (Qlt_not_le _ _ Hlt). eapply Qle_trans; eassumption.
    + rewrite (severity_filter_absent c D Hs). exact H0.
  - intros n Hn. unfold as_float. rewrite Qfloor_Z.
    rewrite (float_of_int_small Hn). reflexivity.
  - intros a b. apply as_float_mono.
  - intros. apply without_range_blind.
Qed.

Lemma severity_filter_range_witness :
  severity_range (Sample.select_range (6 # 1) (7 # 1)) = Some (6 # 1, 7 # 1)
  /\ apply_filters (without_range (Sample.select_range (6 # 1) (7 # 1)))
       Sample.sample = Ok Sample.sample
  /\ (exists D',
       apply_filters (Sample.select_range (6 # 1) (7 # 1)) Sample.sample = Ok D'
       /\ (forall r, In r (rows D') <->
                     In r (rows Sample.sample)
                     /\ in_range (severity_score_dtype (columns Sample.sample))
                          (6 # 1, 7 # 1) r)
       /\ (forall r, In r (rows D') -> severity_score r <> None)
       /\ ((snd (6 # 1, 7 # 1) < fst (6 # 1, 7 # 1))%Q -> rows D' = []))
  /\ (forall v, as_float float64 v = v)
  /\ (forall n : Z,
        (- 2 ^ 53 <= n <= 2 ^ 53)%Z -> as_float int64 (inject_Z n) = inject_Z n)
  /\ (forall a b, (a <= b)%Q -> (as_float int64 a <= as_float int64 b)%Q)
  /\ (forall has dt f,
        rows_of (apply_filters (without_range (Sample.select_range (6 # 1) (7 # 1)))
                   (rescore has dt f Sample.sample))
        = fmap (fun D' => map (set_score f) (rows D'))
               (apply_filters (without_range (Sample.select_range (6 # 1) (7 # 1)))
                  Sample.sample)).
Proof.
  split; [reflexivity |]. split; [reflexivity |].
  exact (@severity_filter_range (Sample.select_range (6 # 1) (7 # 1))
           Sample.sample Sample.sample (6 # 1, 7 # 1) eq_refl eq_refl).
Defined.

(** ** The derived column *)

(** C4, as stated, fails in its last part: a damages text that is neither
    missing nor empty can give the empty list.  A lone comma does. *)
Lemma comma_text_gives_no_label :
  damages_found comma_report = Some ","
  /\ rows comma_frame = [comma_report]
  /\ fmap (fun T => map damages_found (rows T)) (damage_type_list comma_frame)
     = Ok [Some ","]
  /\ fmap (fun T => map damage_types (rows T)) (damage_type_list comma_frame)
     = Ok [[]].
Proof. repeat split. Qed.

(** C4, amended. On a table whose "Damages Found" column holds text, or is
    not there, the "Damage Type List" column is added and the other cells
    are left as they are.  A row's list is obtained from its damages text
    by splitting it at the commas, stripping each fragment of white space
    and leaving out the empty ones: for a text written as fragments between
    commas, the list is those fragments stripped, in their order and with
    their repeats, less the empty ones; and every text is its fragments
    joined with commas.  So every label is non-empty, stripped, and without
    a comma, and "Water leak,  Cracked wall ," gives the two labels
    "Water leak" and "Cracked wall".  Without the "Damages Found" column
    every list is empty; a missing text gives the empty list; and a list is
    empty exactly when the text is missing or holds nothing but commas and
    white space. *)
Theorem damage_type_list_parsed (D : DataFrame) :
  (has_damages_found (columns D) = false
   \/ damages_found_dtype (columns D) = object ->
   exists T,
     damage_type_list D = Ok T
     /\ has_damage_types (columns T) = true
     /\ rows T = map (set_list (labels_of D)) (rows D))
  /\ (has_damages_found (columns D) = false ->
      forall r, labels_of D r = [])
  /\ (has_damages_found (columns D) = true ->
      forall r, labels_of D r = parse_damages (text_of (damages_found r)))
  /\ (forall frags,
        frags <> [] -> Forall comma_free frags ->
        parse_damages (join "," frags) = labels_written frags)
  /\ (forall x,
        Str.split "," x <> []
        /\ Forall comma_free (Str.split "," x)
        /\ join "," (Str.split "," x) = x
        /\ parse_damages x = labels_written (Str.split "," x))
  /\ (forall x d, In d (parse_damages x) <->
        exists frag, In frag (Str.split "," x) /\ d = Str.strip frag /\ d <> "")
  /\ (forall x d, In d (parse_damages x) ->
        d <> "" /\ Str.strip d = d /\ ~ In ","%char (chars d))
  /\ parse_damages "Water leak,  Cracked wall ," = ["Water leak"; "Cracked wall"]
  /\ parse_damages "Mould, Mould,Crack" = ["Mould"; "Mould"; "Crack"]
  /\ parse_damages (text_of None) = []
  /\ (forall x, parse_damages (text_of x) = [] <-> x = None \/ blank (text_of x)).
Proof.
  split; [| split; [| split; [| split; [| split]]]].
  - intros H. exists (set_damage_types (labels_of D) D).
    split; [| split; reflexivity].
    apply damage_type_list_succeeds. tauto.
  - intros Hno r. unfold labels_of. rewrite Hno. reflexivity.
  - intros Hyes r. unfold labels_of. rewrite Hyes. reflexivity.
  - intros frags Hne Hall. exact (parse_damages_written Hne Hall).
  - intros x. split; [apply split_not_nil |]. split; [| split].
    + apply Forall_forall. intros frag Hf. exact (@split_no_sep _ _ _ Hf).
    + apply join_split.
    + apply labels_written_split.
  - repeat split.
    + apply parse_damages_In.
    + apply parse_damages_In.
    + apply parse_damages_In in H. destruct H as (_ & _ & _ & H). exact H.
    + apply parse_damages_In in H. destruct H as (frag & _ & -> & _).
      apply strip_strip.
    + apply parse_damages_In in H. destruct H as (frag & Hf & -> & _).
      intros Hc. apply strip_chars in Hc. exact (split_no_sep _ _ _ Hf Hc).
    + intros H. right. apply parse_damages_nil, H.
    + intros [-> | H]; [reflexivity | apply parse_damages_nil, H].
Qed.

(** ** The tally *)

(** C5, as stated, fails in its tie-break: the counts are sorted by
    [sort_values], whose default sort, NumPy's quicksort, is not stable on
    a table of more than 17 entries.  Three reports on 24 damage types,
    with the counts 3, 1, 2, 3, 1, 2 and so on in the order of first sight,
    give a tally in which two types with the same count are not in that
    order. *)
Lemma tally_ties_not_first_seen :
  map snd (pairs many_types) = types_in_one ++ types_in_two ++ types_in_three
  /\ count_table (map snd (pairs many_types))
     = map (fun k => (k, if Str.mem k types_in_three then 3
                         else if Str.mem k types_in_two then 2 else 1))
           types_in_one
  /\ exists out,
       tally sort_values_quicksort many_types = Ok out
       /\ descending out
       /\ List.length out = 10
       /\ ~ ties_first_seen (map snd (pairs many_types)) out.
Proof.
  split; [reflexivity |]. split; [vm_compute; reflexivity |].
  eexists. split; [vm_compute; reflexivity |]. split; [| split].
  - unfold descending.
    repeat (apply SSorted_cons;
            [| repeat (apply Forall_cons; [simpl; lia |]); apply Forall_nil]).
    apply SSorted_nil.
  - reflexivity.
  - intros H.
    specialize (H 2 3 "V" "S" 3 (Nat.lt_succ_diag_r 2) eq_refl eq_refl).
    vm_compute in H. lia.
Qed.

(** C5, amended. Whatever sort meets the contract of [sort_values], that
    its result is its argument reordered and descending by count, the
    tally of a frame that has the "Damage Type List" column is the first
    [top_n] entries (10 in the dashboard) of a table [full] that lists each
    distinct label of the (row, label) pairs once, with the number of its
    occurrences, the largest count first.  The order among equal counts is
    left to the sort: it is the order of first sight when the sort is
    stable.  [top_n = 0] gives the empty sequence, and the counts returned
    add up to no more than the number of pairs. *)
Theorem tally_counts
    (sort : list (string * nat) -> list (string * nat))
    (top_n : nat) (D : DataFrame) :
  sort_contract sort ->
  has_damage_types (columns D) = true ->
  exists out full,
    aggregate_damage_frequency sort top_n D = Ok out
    /\ tally sort D = Ok (firstn 10 full)
    /\ out = firstn top_n full
    /\ descending full
    /\ NoDup (map fst full)
    /\ (forall k n, In (k, n) full <-> n = occurrences D k /\ 0 < n)
    /\ total full = List.length (pairs D)
    /\ descending out
    /\ List.length out <= top_n
    /\ total out <= List.length (pairs D)
    /\ (top_n = 0 -> out = [])
    /\ (forall stable,
          aggregate_damage_frequency stable_sort top_n D = Ok stable ->
          ties_first_seen (map snd (pairs D)) stable).
Proof.
  intros Hsort Hcol.
  set (table := count_table (map snd (pairs D))).
  destruct (Hsort table) as [Hperm Hdesc].
  assert (Htable : count_table_ok table) by apply count_table_well_formed.
  assert (Hfull : count_table_ok (sort table))
    by (eapply count_table_ok_perm; eassumption).
  assert (Hrun : forall n, aggregate_damage_frequency sort n D
                           = Ok (firstn n (sort table))).
  { intros n. unfold aggregate_damage_frequency, explode, value_counts, head.
    rewrite Hcol. simpl. rewrite explode_pairs. reflexivity. }
  assert (Htotal : total (sort table) = List.length (pairs D)).
  { rewrite <- (total_perm Hperm). unfold table.
    rewrite total_count_table, length_map. reflexivity. }
  exists (firstn top_n (sort table)), (sort table).
  repeat split.
  - apply Hrun.
  - apply Hrun.
  - exact Hdesc.
  - apply Hfull.
  - apply (count_table_ok_In k n Hfull) in H.
    rewrite <- (count_of_perm k Hperm Htable) in H. unfold table in H.
    rewrite count_of_count_table in H. apply H.
  - apply (count_table_ok_In k n Hfull) in H. apply H.
  - intros [Hn Hpos]. apply (count_table_ok_In k n Hfull).
    rewrite <- (count_of_perm k Hperm Htable). unfold table.
    rewrite count_of_count_table. split; assumption.
  - exact Htotal.
  - apply descending_firstn, Hdesc.
  - apply firstn_le_length.
  - rewrite <- Htotal. apply total_firstn.
  - intros ->. reflexivity.
  - intros stable Hstable.
    assert (E : aggregate_damage_frequency stable_sort top_n D
                = Ok (firstn top_n (stable_sort table))).
    { unfold aggregate_damage_frequency, explode, value_counts, head.
      rewrite Hcol. simpl. rewrite explode_pairs. reflexivity. }
    rewrite E in Hstable. injection Hstable as <-. apply stable_sort_ties.
Qed.

Lemma tally_counts_witness :
  sort_contract stable_sort
  /\ has_damage_types (columns Sample.sample) = true
  /\ exists out full,
    aggregate_damage_frequency stable_sort 1 Sample.sample = Ok out
    /\ tally stable_sort Sample.sample = Ok (firstn 10 full)
    /\ out = firstn 1 full
    /\ descending full
    /\ NoDup (map fst full)
    /\ (forall k n, In (k, n) full <-> n = occurrences Sample.sample k /\ 0 < n)
    /\ total full = List.length (pairs Sample.sample)
    /\ descending out
    /\ List.length out <= 1
    /\ total out <= List.length (pairs Sample.sample)
    /\ (1 = 0 -> out = [])
    /\ (forall stable,
          aggregate_damage_frequency stable_sort 1 Sample.sample = Ok stable ->
          ties_first_seen (map snd (pairs Sample.sample)) stable).
Proof.
  split; [exact stable_sort_contract |]. split; [reflexivity |].
  exact (@tally_counts stable_sort 1 Sample.sample stable_sort_contract eq_refl).
Defined.

(** ** Idempotence *)

(** C6 fails on the code.  On the test frame, the search for "pool" leaves
    no row; the damage-type filter then calls [apply] on an empty column,
    gets an empty object series instead of a boolean key, and indexing with
    it strips the frame of its columns.  The first application returns the
    empty frame; the second one, on that frame, raises KeyError for the
    "Damage Type List" column. *)
Theorem second_application_raises :
  apply_filters Sample.pool_and_leak Sample.sample = Ok empty_frame
  /\ apply_filters Sample.pool_and_leak empty_frame
     = Raise (KeyError "Damage Type List")
  /\ (D' <- apply_filters Sample.pool_and_leak Sample.sample ;;
      apply_filters Sample.pool_and_leak D')
     <> apply_filters Sample.pool_and_leak Sample.sample.
Proof.
  split; [reflexivity |]. split; [reflexivity |]. discriminate.
Qed.

(** ** The argument is left alone *)

(** C7 fails on the code in its last part.  Run over the object store on
    the test frame, [apply_filters] with [Sample.pool_and_leak] leaves its
    argument as it was and returns a new object, but that object is the
    empty frame: none of the argument's columns is in it. *)
Theorem result_without_columns :
  Store.apply_filters Sample.pool_and_leak 0 [Sample.sample]
    = Ok (3, store_after_pool)
  /\ nth_error store_after_pool 0 = Some Sample.sample
  /\ nth_error store_after_pool 3 = Some empty_frame
  /\ columns empty_frame = no_columns
  /\ has_room_no (columns Sample.sample) = true
  /\ has_room_no (columns empty_frame) = false.
Proof. repeat split. Qed.

(** ** Loading *)

(** C8. [load_data] tries the parquet file, then the CSV file.  A file that
    parses is returned and the files after it are not looked at; a missing
    file passes the turn to the next one; a file that is there and does not
    parse makes [load_data] raise the reader's error; with both files
    missing the result is the empty frame, which has no rows. *)
Theorem load_data_order (fs : Readers) :
  load_data fs =
  match parquet_files fs "data/damage_data.parquet" with
  | Table t => Ok t
  | Malformed => Raise ParseError
  | Absent =>
      match csv_files fs "data/damage_data.csv" with
      | Table t => Ok t
      | Malformed => Raise ParseError
      | Absent => Ok empty_frame
      end
  end
  /\ rows empty_frame = [].
Proof.
  split; [| reflexivity].
  unfold load_data, candidates, load_from, read_parquet, read_csv, read.
  change (Str.endswith "data/damage_data.parquet" "parquet") with true.
  change (Str.endswith "data/damage_data.csv" "parquet") with false.
  cbv iota.
  destruct (parquet_files fs "data/damage_data.parquet"); try reflexivity.
  destruct (csv_files fs "data/damage_data.csv"); reflexivity.
Qed.

(** ** A column that is not there *)

(** C9 fails on the code.  On a table that has rows but no "Tower" column,
    a tower selection makes [apply_filters] raise IndexingError: the default
    of [filtered.get("Tower", pd.Series(dtype=str))] is an empty series, and
    an empty boolean key cannot be aligned with the rows.  A query does the
    same on a table that has neither "Room No" nor "Damages Found". *)
Theorem missing_tower_column_raises :
  has_tower (columns Sample.no_tower) = false
  /\ apply_filters (Sample.select_towers ["A"]) Sample.no_tower
     = Raise IndexingError
  /\ has_room_no (columns Sample.no_text) = false
  /\ has_damages_found (columns Sample.no_text) = false
  /\ apply_filters (Sample.search "leak") Sample.no_text = Raise IndexingError.
Proof. repeat split. Qed.

(** ** The damage-type filter *)

(** C10. With a non-empty selection, the damage-type filter keeps, of the
    rows [D0] that the other filters leave, those whose list holds a
    selected label as it is written: labels are compared by string
    equality.  So a list holding "water leak" does not match the selected
    label "Water leak", although the text query "Water leak" finds that
    row. *)
Theorem damage_filter_exact_labels (c : Criteria) (D D' D0 : DataFrame) :
  damage_type_selection c <> [] ->
  apply_filters c D = Ok D' ->
  apply_filters (without_damage_types c) D = Ok D0 ->
  (forall r, In r (rows D') <->
             In r (rows D0) /\ shares_label (damage_type_selection c) r)
  /\ damage_types Sample.lower_case_report = ["water leak"]
  /\ apply_filters (Sample.select_damage ["Water leak"]) Sample.lower_case_frame
     = Ok (with_rows Sample.lower_case_frame [])
  /\ apply_filters (Sample.search "Water leak") Sample.lower_case_frame
     = Ok Sample.lower_case_frame.
Proof.
  intros Hsel H H0. split; [| repeat split].
  intros r. rewrite <- damage_test_shares.
  apply (@relative_rows c (without_damage_types c) D D' D0 (damage_test c) H H0).
  clear r. intros r.
  assert (Hg : damage_types_given c = true).
  { unfold damage_types_given. destruct (damage_type_selection c); congruence. }
  rewrite apply_filters_actions in H. revert H. unfold actions.
  change (text_action (without_damage_types c)) with (text_action c).
  change (tower_action (without_damage_types c)) with (tower_action c).
  change (query_given (without_damage_types c)) with (query_given c).
  change (towers_given (without_damage_types c)) with (towers_given c).
  change (severity_actions (without_damage_types c)) with (severity_actions c).
  change (damage_types_given (without_damage_types c)) with false.
  rewrite Hg. unfold damage_action.
  destruct (has_damage_types (columns D)); simpl.
  - intros _. rewrite !passes_app. simpl.
    destruct (passes _ r), (passes _ r), (damage_test c r), (passes _ r);
      reflexivity.
  - intros H. exfalso. rewrite app_assoc in H.
    eapply run_actions_no_fail. exact H.
Qed.

Lemma damage_filter_exact_labels_witness :
  damage_type_selection (Sample.select_damage ["Water leak"]) <> []
  /\ apply_filters (Sample.select_damage ["Water leak"]) Sample.sample
     = Ok (with_rows Sample.sample [Sample.room101])
  /\ apply_filters (without_damage_types (Sample.select_damage ["Water leak"]))
       Sample.sample = Ok Sample.sample
  /\ (forall r,
        In r (rows (with_rows Sample.sample [Sample.room101])) <->
        In r (rows Sample.sample) /\ shares_label ["Water leak"] r).
Proof.
  assert (Hsel : damage_type_selection (Sample.select_damage ["Water leak"]) <> [])
    by discriminate.
  split; [exact Hsel |]. split; [reflexivity |]. split; [reflexivity |].
  exact (proj1 (@damage_filter_exact_labels (Sample.select_damage ["Water leak"])
                  Sample.sample (with_rows Sample.sample [Sample.room101])
                  Sample.sample Hsel eq_refl eq_refl)).
Defined.

(** * More of the code *)

(** ** Sorting and distinct values *)

Lemma ascii_compare_trans a b c :
  Ascii.compare a b <> Gt -> Ascii.compare b c <> Gt ->
  Ascii.compare a c <> Gt
  /\ (Ascii.compare a c = Eq -> Ascii.compare a b = Eq /\ Ascii.compare b c = Eq).
Proof.
  unfold Ascii.compare.
  destruct (N.compare_spec (N_of_ascii a) (N_of_ascii b)) as [E1 | L1 | G1];
    destruct (N.compare_spec (N_of_ascii b) (N_of_ascii c)) as [E2 | L2 | G2];
    try congruence; intros _ _;
    destruct (N.compare_spec (N_of_ascii a) (N_of_ascii c)) as [E3 | L3 | G3];
    (split;
     [ intros H; first [discriminate H | exfalso; lia]
     | intros H;
       first [discriminate H | split; first [reflexivity | exfalso; lia]] ]).
Qed.

Lemma string_compare_trans a b c :
  String.compare a b <> Gt -> String.compare b c <> Gt -> String.compare a c <> Gt.
Proof.
  revert b c. induction a as [| x a IH]; intros [| y b] [| z c]; simpl;
    try congruence.
  intros Hab Hbc.
  assert (Hxy : Ascii.compare x y <> Gt) by (destruct (Ascii.compare x y); congruence).
  assert (Hyz : Ascii.compare y z <> Gt) by (destruct (Ascii.compare y z); congruence).
  destruct (ascii_compare_trans x y z Hxy Hyz) as [Hxz Heq].
  destruct (Ascii.compare x z) eqn:E; try congruence.
  destruct (Heq eq_refl) as [E1 E2]. rewrite E1 in Hab. rewrite E2 in Hbc.
  apply (IH b c); assumption.
Qed.

Lemma leb_trans a b c :
  String.leb a b = true -> String.leb b c = true -> String.leb a c = true.
Proof.
  unfold String.leb. intros Hab Hbc.
  assert (H : String.compare a c <> Gt).
  { apply (string_compare_trans a b c).
    - destruct (String.compare a b); congruence.
    - destruct (String.compare b c); congruence. }
  destruct (String.compare a c); congruence.
Qed.

Lemma insert_sorted_In x l y : In y (insert_sorted x l) <-> y = x \/ In y l.
Proof.
  induction l as [| z l IH]; simpl; [intuition |].
  destruct (String.leb x z); simpl; [intuition |]. rewrite IH. intuition.
Qed.

Lemma sorted_In l y : In y (sorted l) <-> In y l.
Proof.
  unfold sorted. induction l as [| x l IH]; simpl; [reflexivity |].
  rewrite insert_sorted_In, IH. intuition.
Qed.

Lemma insert_sorted_ascending x l :
  ~ In x l -> ascending l -> ascending (insert_sorted x l).
Proof.
  unfold ascending. intros Hx Hs. induction Hs as [| y l Hs IH Hf]; simpl.
  - repeat constructor.
  - assert (Hne : x <> y) by (intros ->; apply Hx; left; reflexivity).
    assert (Hxl : ~ In x l) by (intros H; apply Hx; right; exact H).
    destruct (String.leb x y) eqn:E.
    + constructor; [constructor; assumption |].
      constructor; [split; assumption |].
      rewrite Forall_forall in *. intros z Hz. destruct (Hf z Hz) as [Hyz _].
      split; [apply (leb_trans x y z); assumption | intros ->; contradiction].
    + constructor; [apply IH, Hxl |].
      rewrite Forall_forall in *. intros z Hz. apply insert_sorted_In in Hz.
      destruct Hz as [-> | Hz]; [| apply Hf, Hz].
      split; [| congruence].
      destruct (String.leb_total x y) as [H | H]; [congruence | exact H].
Qed.

Lemma sorted_ascending l : NoDup l -> ascending (sorted l).
Proof.
  unfold sorted. induction 1 as [| x l Hx Hnd IH]; simpl; [constructor |].
  apply insert_sorted_ascending; [| exact IH].
  intros H. apply Hx. apply (sorted_In l x). exact H.
Qed.

Lemma sorted_length l : List.length (sorted l) = List.length l.
Proof.
  unfold sorted. induction l as [| x l IH]; simpl; [reflexivity |].
  rewrite <- IH. generalize (fold_right insert_sorted [] l). intros s.
  induction s as [| y s IHs]; simpl; [reflexivity |].
  destruct (String.leb x y); simpl; [reflexivity | rewrite IHs; reflexivity].
Qed.

Lemma unique_from_In seen l y :
  In y (unique_from seen l) <-> In y l /\ ~ In y seen.
Proof.
  revert seen. induction l as [| x l IH]; intros seen; simpl; [intuition |].
  destruct (Str.mem x seen) eqn:E.
  - apply mem_In in E. rewrite IH. split; [intuition |].
    intros [[-> | H] Hn]; [contradiction | auto].
  - assert (Hx : ~ In x seen).
    { intros H. apply mem_In in H. congruence. }
    simpl. rewrite IH. simpl. split.
    + intros [-> | [H Hn]]; [auto |]. split; [auto |]. intros H'. apply Hn. auto.
    + intros [[-> | H] Hn]; [auto |].
      destruct (string_dec x y) as [-> | Hne]; [auto |].
      right. split; [exact H |]. intros [H' | H']; contradiction.
Qed.

Lemma unique_In l y : In y (unique l) <-> In y l.
Proof.
  unfold unique. rewrite unique_from_In. simpl. tauto.
Qed.

Lemma unique_from_NoDup seen l : NoDup (unique_from seen l).
Proof.
  revert seen. induction l as [| x l IH]; intros seen; simpl; [constructor |].
  destruct (Str.mem x seen); [apply IH |].
  constructor; [| apply IH].
  rewrite unique_from_In. simpl. tauto.
Qed.

Lemma unique_NoDup l : NoDup (unique l).
Proof. apply unique_from_NoDup. Qed.

Lemma dropna_In {A} (l : list (option A)) x : In x (dropna l) <-> In (Some x) l.
Proof.
  induction l as [| [y |] l IH]; simpl; [tauto | |].
  - rewrite IH. split; [intros [-> | H]; auto |].
    intros [H | H]; [injection H as ->; auto | auto].
  - rewrite IH. split; [auto | intros [H | H]; [discriminate H | exact H]].
Qed.

(** ** More on chains of actions *)

(** One more test in the middle of a chain that succeeds: the chain still
    succeeds, and leaves the rows of the former result that pass the test. *)
Lemma run_actions_insert_keep l1 l2 p d d0 :
  run_actions (l1 ++ l2) d = Ok d0 ->
  exists d', run_actions (l1 ++ Keep p :: l2) d = Ok d'
             /\ rows d' = filter p (rows d0).
Proof.
  rewrite !run_actions_app. intros H. apply bind_Ok_inv in H.
  destruct H as (d1 & H1 & H2). rewrite H1. simpl.
  exact (@run_actions_selection l2 d1 d0 (with_rows d1 (filter p (rows d1))) p
           H2 eq_refl).
Qed.

Lemma run_actions_harmless l d :
  Forall harmless l -> exists d', run_actions l d = Ok d'.
Proof.
  intros H. revert d. induction H as [| a l Ha _ IH]; intros d; simpl.
  - exists d. reflexivity.
  - destruct a as [p | p | e | e]; simpl in Ha |- *; try contradiction.
    + apply IH.
    + destruct (rows d); apply IH.
Qed.

(** The exception of a chain is that of one of its actions. *)
Lemma run_actions_raise l d e :
  run_actions l d = Raise e -> In (Fail e) l \/ In (FailUnlessEmpty e) l.
Proof.
  revert d. induction l as [| a l IH]; intros d; simpl; [discriminate |].
  destruct (run_action a d) as [d1 | e1] eqn:E; simpl.
  - intros H. destruct (IH _ H); auto.
  - intros H. injection H as ->.
    destruct a as [p | p | e0 | e0]; simpl in E.
    + discriminate E.
    + destruct (rows d); discriminate E.
    + injection E as ->. auto.
    + destruct (rows d); [discriminate E |]. injection E as ->. auto.
Qed.

Lemma result_subseq c D D' :
  apply_filters c D = Ok D' -> subseq (rows D') (rows D).
Proof.
  intros H. rewrite (result_rows _ _ H). apply filter_subseq.
Qed.

(** ** The options of the two selection widgets *)

Lemma tower_values D :
  has_tower (columns D) = true ->
  forall t, In t (tower_options D) <-> exists r, In r (rows D) /\ tower r = Some t.
Proof.
  intros Hcol t. unfold tower_options, get. rewrite Hcol.
  rewrite sorted_In, unique_In, dropna_In. unfold values_of, column.
  rewrite map_map. simpl. rewrite in_map_iff. split.
  - intros (r & E & Hr). exists r. auto.
  - intros (r & Hr & E). exists r. auto.
Qed.

Lemma tower_options_absent D :
  has_tower (columns D) = false -> tower_options D = [].
Proof.
  intros Hcol. unfold tower_options, get. rewrite Hcol. reflexivity.
Qed.

Lemma widget_dtypes_In D opts :
  all_dtypes D = Ok opts ->
  forall d, In d opts <-> exists r, In r (rows D) /\ In d (damage_types r).
Proof.
  unfold all_dtypes, getitem. destruct (has_damage_types (columns D)); simpl;
    [| discriminate].
  intros H. injection H as <-. intros d.
  rewrite sorted_In, unique_In, in_concat.
  unfold values_of, column. rewrite map_map. simpl. split.
  - intros (l & Hl & Hd). apply in_map_iff in Hl.
    destruct Hl as (r & <- & Hr). exists r. auto.
  - intros (r & Hr & Hd). exists (damage_types r). split; [| exact Hd].
    apply in_map_iff. exists r. auto.
Qed.

(** X1. The options the two selection widgets offer are in ascending order
    without repeats, and they are the values of the table: a tower is
    offered exactly when some row has it, a damage type exactly when some
    row's list holds it.  A table without the "Tower" column offers no
    tower; without the "Damage Type List" column the damage-type options
    raise KeyError. *)
Theorem widget_options (D : DataFrame) :
  ascending (tower_options D)
  /\ (forall t, In t (tower_options D) <->
                has_tower (columns D) = true
                /\ exists r, In r (rows D) /\ tower r = Some t)
  /\ (if has_damage_types (columns D) then
        exists opts,
          all_dtypes D = Ok opts
          /\ ascending opts
          /\ (forall d, In d opts <->
                        exists r, In r (rows D) /\ In d (damage_types r))
      else all_dtypes D = Raise (KeyError "Damage Type List")).
Proof.
  split; [| split].
  - apply sorted_ascending, unique_NoDup.
  - intros t. destruct (has_tower (columns D)) eqn:Hcol.
    + rewrite (tower_values D Hcol). tauto.
    + rewrite (tower_options_absent D Hcol). simpl. split; [tauto |].
      intros [H _]. discriminate H.
  - unfold all_dtypes, getitem. destruct (has_damage_types (columns D)); simpl;
      [| reflexivity].
    eexists. split; [reflexivity |]. split.
    + apply sorted_ascending, unique_NoDup.
    + intros d. rewrite sorted_In, unique_In, in_concat.
      unfold values_of, column. rewrite map_map. simpl. split.
      * intros (l & Hl & Hd). apply in_map_iff in Hl.
        destruct Hl as (r & <- & Hr). exists r. auto.
      * intros (r & Hr & Hd). exists (damage_types r). split; [| exact Hd].
        apply in_map_iff. exists r. auto.
Qed.

(** X2. Every option of the damage-type widget finds something: the
    selection of damage types [ds], one of them an option of the widget and
    nothing else selected, gives a result with at least one row, and every
    row of it has one of the selected types in its list. *)
Theorem offered_type_finds_rows (D : DataFrame) (opts ds : list string) (d : string) :
  all_dtypes D = Ok opts ->
  In d opts ->
  In d ds ->
  exists D',
    apply_filters (with_damage_types ds no_criteria) D = Ok D'
    /\ rows D' <> []
    /\ columns D' = columns D
    /\ (forall r, In r (rows D') <-> In r (rows D) /\ shares_label ds r).
Proof.
  intros Hopts Hd Hds.
  assert (Hcol : has_damage_types (columns D) = true).
  { unfold all_dtypes, getitem in Hopts.
    destruct (has_damage_types (columns D)); [reflexivity | discriminate Hopts]. }
  pose proof (widget_dtypes_In D Hopts d) as Hin. apply Hin in Hd.
  destruct Hd as (r0 & Hr0 & Hd0).
  set (c := with_damage_types ds no_criteria).
  assert (Hacts : actions c (columns D) = [KeepOrStrip (damage_test c)]).
  { unfold actions, severity_actions, damage_action. rewrite Hcol.
    destruct ds as [| d1 ds']; [destruct Hds |].
    destruct (has_severity_score (columns D)); reflexivity. }
  assert (Hpass : damage_test c r0 = true).
  { apply damage_test_shares. exists d. split; assumption. }
  rewrite apply_filters_actions, Hacts. simpl.
  destruct (rows D) as [| r1 rs] eqn:Erows; [destruct Hr0 |].
  rewrite <- Erows in *. simpl.
  exists (with_rows D (filter (damage_test c) (rows D))). split; [reflexivity |].
  split; [| split].
  - simpl. intros E.
    assert (H : In r0 (filter (damage_test c) (rows D))).
    { apply filter_In. split; assumption. }
    rewrite E in H. destruct H.
  - reflexivity.
  - intros r. simpl. rewrite filter_In, damage_test_shares. reflexivity.
Qed.

Lemma offered_type_finds_rows_witness :
  all_dtypes Survey.survey = Ok ["Cracked wall"; "Mould"; "Water leak"]
  /\ In "Mould" ["Cracked wall"; "Mould"; "Water leak"]
  /\ In "Mould" ["Mould"]
  /\ exists D',
       apply_filters (with_damage_types ["Mould"] no_criteria) Survey.survey = Ok D'
       /\ rows D' <> []
       /\ columns D' = columns Survey.survey
       /\ (forall r, In r (rows D') <->
                     In r (rows Survey.survey) /\ shares_label ["Mould"] r).
Proof.
  split; [reflexivity |]. split; [simpl; tauto |]. split; [simpl; tauto |].
  exact (@offered_type_finds_rows Survey.survey
           ["Cracked wall"; "Mould"; "Water leak"] ["Mould"] "Mould"
           eq_refl (or_intror (or_introl eq_refl)) (or_introl eq_refl)).
Defined.

(** ** The widgets left at their defaults *)

Lemma without_towers_self c : towers c = [] -> without_towers c = c.
Proof. destruct c; simpl; intros ->; reflexivity. Qed.

Lemma actions_with_towers c cols t ts :
  towers c = t :: ts ->
  has_tower cols = true ->
  actions c cols =
  when (query_given c) (text_action c cols)
  ++ Keep (tower_test c)
     :: (when (damage_types_given c) (damage_action c cols)
         ++ severity_actions c cols)
  /\ actions (without_towers c) cols =
     when (query_given c) (text_action c cols)
     ++ (when (damage_types_given c) (damage_action c cols)
         ++ severity_actions c cols).
Proof.
  intros Ht Hcol. unfold actions, towers_given, tower_action.
  rewrite Ht, Hcol. split; reflexivity.
Qed.

(** X3. The tower widget left at its default, every tower of the table
    selected, removes exactly the rows without a tower: the result is what
    the other filters leave, less the rows whose "Tower" cell is empty.
    When the table has no tower at all, or no "Tower" column, the default
    selection is empty and the result is that of the other filters. *)
Theorem default_towers_drop_rows_without_tower (c : Criteria) (D D0 : DataFrame) :
  towers c = tower_options D ->
  apply_filters (without_towers c) D = Ok D0 ->
  exists D',
    apply_filters c D = Ok D'
    /\ rows D' =
       match tower_options D with
       | [] => rows D0
       | _ :: _ => filter (fun r => present (tower r)) (rows D0)
       end.
Proof.
  intros Ht H0. destruct (tower_options D) as [| t ts] eqn:Eopts.
  - rewrite (without_towers_self c Ht) in H0. exists D0. auto.
  - assert (Hcol : has_tower (columns D) = true).
    { destruct (has_tower (columns D)) eqn:E; [reflexivity |].
      rewrite (tower_options_absent D E) in Eopts. discriminate Eopts. }
    destruct (actions_with_towers c (columns D) Ht Hcol) as [E1 E0].
    rewrite apply_filters_actions, E0 in H0.
    destruct (run_actions_insert_keep _ _ (tower_test c) _ H0) as (D' & H' & Hrows).
    exists D'. rewrite apply_filters_actions, E1. split; [exact H' |].
    rewrite Hrows. apply filter_ext_in. intros r Hr.
    assert (HrD : In r (rows D)).
    { apply run_actions_rows in H0. rewrite H0 in Hr.
      apply filter_In in Hr. apply Hr. }
    unfold tower_test. destruct (tower r) as [x |] eqn:Ex; [| reflexivity].
    simpl. apply mem_In. rewrite Ht, <- Eopts.
    apply (tower_values D Hcol). exists r. auto.
Qed.

Lemma default_towers_drop_rows_without_tower_witness :
  towers (Sample.select_towers ["A"; "B"]) = tower_options Survey.survey
  /\ apply_filters (without_towers (Sample.select_towers ["A"; "B"])) Survey.survey
     = Ok Survey.survey
  /\ exists D',
       apply_filters (Sample.select_towers ["A"; "B"]) Survey.survey = Ok D'
       /\ rows D' =
          match tower_options Survey.survey with
          | [] => rows Survey.survey
          | _ :: _ => filter (fun r => present (tower r)) (rows Survey.survey)
          end.
Proof.
  split; [reflexivity |]. split; [reflexivity |].
  exact (@default_towers_drop_rows_without_tower
           (Sample.select_towers ["A"; "B"]) Survey.survey Survey.survey
           eq_refl eq_refl).
Defined.

Lemma series_min_le l m s :
  series_min l = Some m -> In (Some s) l -> (m <= s)%Q.
Proof.
  revert m. induction l as [| x l IH]; intros m Hm Hin; [destruct Hin |].
  simpl in Hm. destruct x as [x |].
  - destruct (series_min l) as [m' |] eqn:E.
    + injection Hm as <-. destruct (Qle_bool x m') eqn:Ele.
      * destruct Hin as [Hin | Hin].
        -- injection Hin as ->. apply Qle_refl.
        -- apply Qle_bool_iff in Ele.
           apply Qle_trans with m'; [exact Ele | exact (IH _ eq_refl Hin)].
      * destruct Hin as [Hin | Hin].
        -- injection Hin as ->. apply Qlt_le_weak, Qnot_le_lt.
           intros Hle. apply Qle_bool_iff in Hle. congruence.
        -- exact (IH _ eq_refl Hin).
    + injection Hm as <-. destruct Hin as [Hin | Hin].
      * injection Hin as ->. apply Qle_refl.
      * exfalso. clear IH. induction l as [| y l IHl]; [destruct Hin |].
        simpl in E. destruct y as [y |].
        -- destruct (series_min l); discriminate E.
        -- destruct Hin as [Hin | Hin]; [discriminate Hin | auto].
  - destruct Hin as [Hin | Hin]; [discriminate Hin | auto].
Qed.

Lemma series_max_ge l m s :
  series_max l = Some m -> In (Some s) l -> (s <= m)%Q.
Proof.
  revert m. induction l as [| x l IH]; intros m Hm Hin; [destruct Hin |].
  simpl in Hm. destruct x as [x |].
  - destruct (series_max l) as [m' |] eqn:E.
    + injection Hm as <-. destruct (Qle_bool m' x) eqn:Ele.
      * destruct Hin as [Hin | Hin].
        -- injection Hin as ->. apply Qle_refl.
        -- apply Qle_bool_iff in Ele.
           apply Qle_trans with m'; [exact (IH _ eq_refl Hin) | exact Ele].
      * destruct Hin as [Hin | Hin].
        -- injection Hin as ->. apply Qlt_le_weak, Qnot_le_lt.
           intros Hle. apply Qle_bool_iff in Hle. congruence.
        -- exact (IH _ eq_refl Hin).
    + injection Hm as <-. destruct Hin as [Hin | Hin].
      * injection Hin as ->. apply Qle_refl.
      * exfalso. clear IH. induction l as [| y l IHl]; [destruct Hin |].
        simpl in E. destruct y as [y |].
        -- destruct (series_max l); discriminate E.
        -- destruct Hin as [Hin | Hin]; [discriminate Hin | auto].
  - destruct Hin as [Hin | Hin]; [discriminate Hin | auto].
Qed.

(** The bounds of the slider enclose every score of the table. *)
Lemma default_range_encloses D rng r s :
  has_severity_score (columns D) = true ->
  default_range D = Some rng ->
  In r (rows D) ->
  severity_score r = Some s ->
  (fst rng <= as_float (severity_score_dtype (columns D)) s)%Q
  /\ (as_float (severity_score_dtype (columns D)) s <= snd rng)%Q.
Proof.
  intros Hcol Hrng Hr Hs. unfold default_range, slider_bounds in Hrng.
  assert (Hne : frame_empty D = false).
  { unfold frame_empty. destruct (rows D); [destruct Hr |].
    unfold column_count. rewrite Hcol.
    destruct (has_room_no _), (has_tower _), (has_damages_found _),
      (has_damage_types _); reflexivity. }
  rewrite Hcol, Hne in Hrng. simpl in Hrng.
  assert (Hin : In (Some s) (values_of (column severity_score D))).
  { unfold values_of, column. rewrite map_map. simpl.
    apply in_map_iff. exists r. auto. }
  destruct (series_min _) as [lo |] eqn:Elo; [| discriminate Hrng].
  destruct (series_max _) as [hi |] eqn:Ehi; [| discriminate Hrng].
  simpl in Hrng. injection Hrng as <-. simpl. split.
  - apply as_float_mono. exact (@series_min_le _ _ _ Elo Hin).
  - apply as_float_mono. exact (@series_max_ge _ _ _ Ehi Hin).
Qed.

(** X4. The severity slider left at its default range, from the least to
    the greatest score of the table, removes exactly the rows without a
    score: the result is what the other filters leave, less the rows whose
    "Severity Score" cell is empty.  Without the column nothing is
    removed. *)
Theorem default_range_drops_rows_without_score (c : Criteria) (D D0 : DataFrame) (rng : Q * Q) :
  default_range D = Some rng ->
  severity_range c = Some rng ->
  apply_filters (without_range c) D = Ok D0 ->
  exists D',
    apply_filters c D = Ok D'
    /\ rows D' =
       if has_severity_score (columns D)
       then filter (fun r => present (severity_score r)) (rows D0)
       else rows D0.
Proof.
  intros Hdef Hrng H0. destruct (has_severity_score (columns D)) eqn:Hcol.
  - rewrite (severity_filter_last c D Hrng Hcol), H0. simpl.
    eexists. split; [reflexivity |]. simpl. apply filter_ext_in. intros r Hr.
    assert (HrD : In r (rows D)).
    { apply result_rows in H0. rewrite H0 in Hr. apply filter_In in Hr. apply Hr. }
    unfold severity_test. destruct (severity_score r) as [s |] eqn:Es;
      [| reflexivity].
    destruct (default_range_encloses D r Hcol Hdef HrD Es) as [H1 H2].
    apply Qle_bool_iff in H1, H2. rewrite H1, H2. reflexivity.
  - rewrite (severity_filter_absent c D Hcol), H0. exists D0. auto.
Qed.

Lemma default_range_drops_rows_without_score_witness :
  default_range Survey.survey = Some (5 # 1, 7 # 1)
  /\ severity_range (Sample.select_range (5 # 1) (7 # 1)) = Some (5 # 1, 7 # 1)
  /\ apply_filters (without_range (Sample.select_range (5 # 1) (7 # 1))) Survey.survey
     = Ok Survey.survey
  /\ exists D',
       apply_filters (Sample.select_range (5 # 1) (7 # 1)) Survey.survey = Ok D'
       /\ rows D' =
          if has_severity_score (columns Survey.survey)
          then filter (fun r => present (severity_score r)) (rows Survey.survey)
          else rows Survey.survey.
Proof.
  split; [reflexivity |]. split; [reflexivity |]. split; [reflexivity |].
  exact (@default_range_drops_rows_without_score
           (Sample.select_range (5 # 1) (7 # 1)) Survey.survey Survey.survey
           (5 # 1, 7 # 1) eq_refl eq_refl eq_refl).
Defined.

(** ** Loading and the derived column *)

(** X5. Whatever the candidate paths, [load_data]'s loop lets no
    FileNotFoundError out: a result comes from the first candidate that is
    there, an exception is that of the first candidate that is there, all
    the candidates before it being absent, and with every candidate absent
    the result is the empty frame. *)
Theorem load_from_catches_not_found (fs : Readers) (paths : list string) :
  load_from fs paths <> Raise FileNotFoundError
  /\ (forall res,
        load_from fs paths = res ->
        (res = Ok empty_frame
         /\ forall p, In p paths -> read_path fs p = Raise FileNotFoundError)
        \/ exists before p after,
             paths = before ++ p :: after
             /\ (forall q, In q before -> read_path fs q = Raise FileNotFoundError)
             /\ read_path fs p <> Raise FileNotFoundError
             /\ read_path fs p = res).
Proof.
  assert (Hsplit : forall res,
        load_from fs paths = res ->
        (res = Ok empty_frame
         /\ forall p, In p paths -> read_path fs p = Raise FileNotFoundError)
        \/ exists before p after,
             paths = before ++ p :: after
             /\ (forall q, In q before -> read_path fs q = Raise FileNotFoundError)
             /\ read_path fs p <> Raise FileNotFoundError
             /\ read_path fs p = res).
  { induction paths as [| path rest IH]; intros res Hres.
    - left. simpl in Hres. subst res. split; [reflexivity |]. intros p [].
    - simpl in Hres. fold (read_path fs path) in Hres.
      destruct (read_path fs path) as [d | e] eqn:E.
      + right. exists [], path, rest. rewrite E. split; [reflexivity |].
        split; [intros q [] |]. split; [discriminate | exact Hres].
      + destruct e;
          try (right; exists [], path, rest; rewrite E; split; [reflexivity |];
               split; [intros q [] |]; split; [discriminate | exact Hres]).
        destruct (IH res Hres) as [[Hr Hall] | (before & p & after & Hp & Hb & Hn & Hr)].
        * left. split; [exact Hr |]. intros p [<- | Hp]; [exact E | auto].
        * right. exists (path :: before), p, after. rewrite Hp.
          split; [reflexivity |]. split; [| split; assumption].
          intros q [<- | Hq]; [exact E | auto]. }
  split; [| exact Hsplit].
  intros H. destruct (Hsplit _ H) as [[Hr _] | (_ & p & _ & _ & _ & Hn & Hr)].
  - discriminate Hr.
  - contradiction.
Qed.

Lemma no_key_error_actions c cols :
  has_damage_types cols = true -> Forall no_key_error (actions c cols).
Proof.
  intros Hcol. unfold actions.
  apply Forall_app. split.
  { destruct (query_given c); simpl; [| constructor].
    constructor; [| constructor]. text_cases c cols; trivial. }
  apply Forall_app. split.
  { destruct (towers_given c); simpl; [| constructor].
    constructor; [| constructor]. unfold tower_action.
    destruct (has_tower cols); simpl; trivial. }
  apply Forall_app. split.
  { destruct (damage_types_given c); simpl; [| constructor].
    constructor; [| constructor]. unfold damage_action. rewrite Hcol.
    simpl. trivial. }
  unfold severity_actions.
  destruct (has_severity_score cols); [| constructor].
  destruct (severity_range c); [| constructor].
  constructor; [simpl; trivial | constructor].
Qed.

Lemma apply_filters_no_key_error c D k :
  has_damage_types (columns D) = true ->
  apply_filters c D <> Raise (KeyError k).
Proof.
  intros Hcol H. rewrite apply_filters_actions in H.
  pose proof (no_key_error_actions c (columns D) Hcol) as Hall.
  rewrite Forall_forall in Hall.
  destruct (run_actions_raise _ _ H) as [Hin | Hin];
    apply Hall in Hin; exact Hin.
Qed.

(** X6. The table the dashboard works on always has the "Damage Type
    List" column, whatever was loaded: the options of the damage-type
    widget are computed without an exception, and no selection makes
    [apply_filters] raise KeyError on that table. *)
Theorem df_has_damage_type_list (fs : Readers) (T : DataFrame) :
  df fs = Ok T ->
  has_damage_types (columns T) = true
  /\ (exists opts, all_dtypes T = Ok opts)
  /\ (forall c k, apply_filters c T <> Raise (KeyError k)).
Proof.
  unfold df. intros H. apply bind_Ok_inv in H. destruct H as (loaded & _ & H).
  apply damage_type_list_Ok in H. subst T.
  assert (Hcol : has_damage_types
                   (columns (set_damage_types (labels_of loaded) loaded)) = true)
    by reflexivity.
  split; [exact Hcol |]. split.
  - unfold all_dtypes, getitem. rewrite Hcol. simpl. eexists. reflexivity.
  - intros c k. apply apply_filters_no_key_error, Hcol.
Qed.

Lemma df_has_damage_type_list_witness :
  df Survey.csv_only = Ok Sample.sample
  /\ has_damage_types (columns Sample.sample) = true
  /\ (exists opts, all_dtypes Sample.sample = Ok opts)
  /\ (forall c k, apply_filters c Sample.sample <> Raise (KeyError k)).
Proof.
  split; [reflexivity |].
  exact (@df_has_damage_type_list Survey.csv_only Sample.sample eq_refl).
Defined.

(** X7. The derived column is computed from "Damages Found" alone: a
    "Damage Type List" column the loaded table may already have is
    overwritten, whatever it held, and deriving the column a second time
    changes nothing. *)
Theorem damage_type_list_overwrites (D : DataFrame) :
  (forall has g, damage_type_list (relist has g D) = damage_type_list D)
  /\ (D' <- damage_type_list D ;; damage_type_list D') = damage_type_list D.
Proof.
  assert (Hex : forall (h : Report -> Report) l,
            (forall r, damages_found (h r) = damages_found r) ->
            existsb (fun r => has_value (damages_found r)) (map h l)
            = existsb (fun r => has_value (damages_found r)) l).
  { intros h l Hh. induction l as [| r l IH]; simpl; [reflexivity |].
    rewrite IH, Hh. reflexivity. }
  split.
  - intros has g. unfold damage_type_list.
    change (rows (relist has g D)) with (map (set_list g) (rows D)).
    change (has_damages_found (columns (relist has g D)))
      with (has_damages_found (columns D)).
    change (damages_found_dtype (columns (relist has g D)))
      with (damages_found_dtype (columns D)).
    rewrite (Hex (set_list g) (rows D) (fun _ => eq_refl)).
    destruct (has_damages_found (columns D)); [destruct (_ || _) |];
      try reflexivity; f_equal;
      unfold set_damage_types, relist, reshape; simpl; rewrite map_map;
      reflexivity.
  - unfold damage_type_list.
    destruct (has_damages_found (columns D)) eqn:E.
    + destruct (_ || _) eqn:Eok; [| reflexivity].
      set (f := fun r => parse_damages (fillna (damages_found r) "")).
      simpl bind.
      pose proof (Hex (set_list f) (rows D) (fun _ => eq_refl)) as Hx.
      unfold set_list in Hx. rewrite E, Hx, Eok.
      f_equal. unfold set_damage_types. simpl. rewrite map_map. reflexivity.
    + simpl. rewrite E. unfold set_damage_types. simpl. rewrite map_map.
      reflexivity.
Qed.

(** ** Labels written out and read back *)

Lemma only_space_no_comma s : only_space s -> ~ In ","%char (chars s).
Proof. intros H Hin. apply H in Hin. discriminate Hin. Qed.

Lemma lstrip_app_space p x :
  only_space p -> Str.lstrip (p ++ x) = Str.lstrip x.
Proof.
  induction p as [| c p IH]; simpl; [reflexivity |].
  intros H. apply only_space_cons in H. destruct H as [Hc Hp].
  rewrite Hc. exact (IH Hp).
Qed.

Lemma rstrip_app_space x q :
  only_space q -> Str.rstrip (x ++ q) = Str.rstrip x.
Proof.
  intros Hq. induction x as [| c x IH]; simpl.
  - apply rstrip_empty, Hq.
  - rewrite IH. reflexivity.
Qed.

(** A stripped string that is not empty starts with a character that is
    not white space, and [rstrip] leaves it as it is. *)
Lemma stripped_shape d :
  d <> "" -> Str.strip d = d ->
  Str.rstrip d = d /\ exists c t, d = String c t /\ Str.is_space c = false.
Proof.
  intros Hne Hs. unfold Str.strip in Hs.
  destruct (lstrip_head d) as [E | (c & t & E & Hc)].
  - rewrite E in Hs. simpl in Hs. congruence.
  - rewrite E in Hs. destruct (@rstrip_head c t Hc) as [u Eu].
    assert (Hd : d = String c u) by congruence.
    split.
    + rewrite <- Hs at 1. rewrite rstrip_rstrip. exact Hs.
    + exists c, u. auto.
Qed.

Lemma strip_padded p d q :
  only_space p -> only_space q -> d <> "" -> Str.strip d = d ->
  Str.strip (p ++ d ++ q) = d.
Proof.
  intros Hp Hq Hne Hs.
  destruct (@stripped_shape d Hne Hs) as (Hr & c & t & Hd & Hc).
  unfold Str.strip. rewrite (@lstrip_app_space p (d ++ q) Hp).
  assert (El : Str.lstrip (d ++ q) = (d ++ q)%string).
  { rewrite Hd. simpl. rewrite Hc. reflexivity. }
  rewrite El, (@rstrip_app_space d q Hq). exact Hr.
Qed.

Lemma parse_damages_padded_join a b labels :
  only_space a -> only_space b ->
  Forall clean_label labels ->
  labels <> [] ->
  forall p, only_space p ->
            parse_damages (p ++ join (a ++ String "," b) labels) = labels.
Proof.
  intros Ha Hb Hall. induction Hall as [| d rest Hd Hrest IH]; [congruence |].
  intros _ p Hp. destruct Hd as (Hne & Hs & Hnc).
  destruct rest as [| d2 rest'].
  - simpl join. rewrite parse_damages_whole.
    + pose proof (@strip_padded p d "" Hp only_space_nil Hne Hs) as E.
      rewrite string_app_nil in E. rewrite E.
      destruct d; [congruence | reflexivity].
    + rewrite chars_app. intros Hin. apply in_app_or in Hin.
      destruct Hin as [Hin | Hin]; [exact (@only_space_no_comma p Hp Hin) | auto].
  - change (join (a ++ String "," b) (d :: d2 :: rest'))
      with (d ++ (a ++ String "," b) ++ join (a ++ String "," b) (d2 :: rest'))%string.
    replace (p ++ d ++ (a ++ String "," b) ++ join (a ++ String "," b) (d2 :: rest'))%string
      with ((p ++ d ++ a) ++ String "," (b ++ join (a ++ String "," b) (d2 :: rest')))%string.
    + rewrite parse_damages_at_comma.
      * rewrite (@strip_padded p d a Hp Ha Hne Hs).
        rewrite (IH ltac:(discriminate) b Hb).
        destruct d; [congruence | reflexivity].
      * rewrite !chars_app. intros Hin. apply in_app_or in Hin.
        destruct Hin as [Hin | Hin]; [exact (@only_space_no_comma p Hp Hin) |].
        apply in_app_or in Hin.
        destruct Hin as [Hin | Hin]; [auto | exact (@only_space_no_comma a Ha Hin)].
    + rewrite !string_app_assoc. simpl. rewrite !string_app_assoc. reflexivity.
Qed.

(** X8. Labels written out and read back: a list of labels, each non-empty,
    stripped and without a comma, joined with commas, with any white space
    before and after each comma, is parsed back to the same list, in the
    same order and with its repeats. *)
Theorem parse_damages_join (a b : string) (labels : list string) :
  only_space a -> only_space b ->
  Forall clean_label labels ->
  parse_damages (join (a ++ String "," b) labels) = labels.
Proof.
  intros Ha Hb Hall. destruct labels as [| d rest]; [reflexivity |].
  exact (@parse_damages_padded_join a b (d :: rest) Ha Hb Hall
           ltac:(discriminate) "" only_space_nil).
Qed.

Lemma parse_damages_join_witness :
  only_space ""
  /\ only_space " "
  /\ Forall clean_label ["Water leak"; "Cracked wall"]
  /\ parse_damages (join ("" ++ String "," " ") ["Water leak"; "Cracked wall"])
     = ["Water leak"; "Cracked wall"].
Proof.
  assert (H1 : only_space "") by (intros ch []).
  assert (H2 : only_space " ") by (intros ch [<- | []]; reflexivity).
  assert (H3 : Forall clean_label ["Water leak"; "Cracked wall"]).
  { repeat constructor; try discriminate; simpl; intros H;
      repeat (destruct H as [H | H]; [discriminate H |]); exact H. }
  split; [exact H1 |]. split; [exact H2 |]. split; [exact H3 |].
  exact (@parse_damages_join "" " " ["Water leak"; "Cracked wall"] H1 H2 H3).
Defined.

(** ** When the filters succeed *)

Lemma harmless_actions c D :
  (query c <> "" ->
   (exists ts, Re.compile (query c) = Re.Pattern ts)
   /\ (has_room_no (columns D) = true \/ has_damages_found (columns D) = true)
   /\ (has_room_no (columns D) = true -> room_no_dtype (columns D) = object)
   /\ (has_damages_found (columns D) = true ->
       damages_found_dtype (columns D) = object)) ->
  (towers c <> [] -> has_tower (columns D) = true) ->
  (damage_type_selection c <> [] -> has_damage_types (columns D) = true) ->
  Forall harmless (actions c (columns D)).
Proof.
  intros Hq Ht Hd. unfold actions.
  apply Forall_app. split.
  { unfold query_given. destruct (query c) as [| ch q] eqn:Eq; simpl;
      [constructor |].
    destruct Hq as ((ts & Hts) & Hcols & Hr & Hf); [discriminate |].
    constructor; [| constructor]. unfold text_action, text_ok. rewrite Eq, Hts.
    destruct (has_room_no (columns D)), (has_damages_found (columns D));
      try rewrite (Hr eq_refl); try rewrite (Hf eq_refl); simpl; trivial.
    destruct Hcols; discriminate. }
  apply Forall_app. split.
  { unfold towers_given. destruct (towers c) as [| t ts]; simpl; [constructor |].
    constructor; [| constructor]. unfold tower_action.
    rewrite Ht by discriminate. simpl. trivial. }
  apply Forall_app. split.
  { unfold damage_types_given.
    destruct (damage_type_selection c) as [| d ds]; simpl; [constructor |].
    constructor; [| constructor]. unfold damage_action.
    rewrite Hd by discriminate. simpl. trivial. }
  unfold severity_actions.
  destruct (has_severity_score (columns D)); [| constructor].
  destruct (severity_range c); [| constructor].
  constructor; [simpl; trivial | constructor].
Qed.

(** X9. [apply_filters] returns a table, and raises nothing, when every
    filter that is switched on finds its column and the query is a pattern
    that compiles: a query needs "Room No" or "Damages Found", and the ones
    of the two the table has must hold text (the [.str] accessor raises
    AttributeError on a column of numbers); a tower selection needs "Tower",
    a damage-type selection needs "Damage Type List".  The severity range
    needs nothing.  The rows returned are rows of the argument, in their
    order. *)
Theorem apply_filters_succeeds (c : Criteria) (D : DataFrame) :
  (query c <> "" ->
   (exists ts, Re.compile (query c) = Re.Pattern ts)
   /\ (has_room_no (columns D) = true \/ has_damages_found (columns D) = true)
   /\ (has_room_no (columns D) = true -> room_no_dtype (columns D) = object)
   /\ (has_damages_found (columns D) = true ->
       damages_found_dtype (columns D) = object)) ->
  (towers c <> [] -> has_tower (columns D) = true) ->
  (damage_type_selection c <> [] -> has_damage_types (columns D) = true) ->
  exists D', apply_filters c D = Ok D' /\ subseq (rows D') (rows D).
Proof.
  intros Hq Ht Hd.
  destruct (@run_actions_harmless (actions c (columns D)) D
              (@harmless_actions c D Hq Ht Hd)) as [D' H'].
  rewrite <- apply_filters_actions in H'.
  exists D'. split; [exact H' | exact (@result_subseq c D D' H')].
Qed.

Lemma apply_filters_succeeds_witness :
  (query (test_criteria "101" ["Water leak"]) <> "" ->
   (exists ts, Re.compile (query (test_criteria "101" ["Water leak"])) = Re.Pattern ts)
   /\ (has_room_no (columns Sample.sample) = true
       \/ has_damages_found (columns Sample.sample) = true)
   /\ (has_room_no (columns Sample.sample) = true ->
       room_no_dtype (columns Sample.sample) = object)
   /\ (has_damages_found (columns Sample.sample) = true ->
       damages_found_dtype (columns Sample.sample) = object))
  /\ (towers (test_criteria "101" ["Water leak"]) <> [] ->
      has_tower (columns Sample.sample) = true)
  /\ (damage_type_selection (test_criteria "101" ["Water leak"]) <> [] ->
      has_damage_types (columns Sample.sample) = true)
  /\ exists D',
       apply_filters (test_criteria "101" ["Water leak"]) Sample.sample = Ok D'
       /\ subseq (rows D') (rows Sample.sample).
Proof.
  assert (H1 : query (test_criteria "101" ["Water leak"]) <> "" ->
    (exists ts, Re.compile (query (test_criteria "101" ["Water leak"])) = Re.Pattern ts)
    /\ (has_room_no (columns Sample.sample) = true
        \/ has_damages_found (columns Sample.sample) = true)
    /\ (has_room_no (columns Sample.sample) = true ->
        room_no_dtype (columns Sample.sample) = object)
    /\ (has_damages_found (columns Sample.sample) = true ->
        damages_found_dtype (columns Sample.sample) = object)).
  { intros _. split; [eexists; reflexivity |]. split; [left; reflexivity |].
    split; reflexivity. }
  assert (H2 : towers (test_criteria "101" ["Water leak"]) <> [] ->
               has_tower (columns Sample.sample) = true) by reflexivity.
  assert (H3 : damage_type_selection (test_criteria "101" ["Water leak"]) <> [] ->
               has_damage_types (columns Sample.sample) = true) by reflexivity.
  split; [exact H1 |]. split; [exact H2 |]. split; [exact H3 |].
  exact (@apply_filters_succeeds (test_criteria "101" ["Water leak"])
           Sample.sample H1 H2 H3).
Defined.

(** ** The search with a text column missing *)

Lemma actions_with_query c cols :
  query c <> "" ->
  actions c cols =
  text_action c cols
  :: (when (towers_given c) (tower_action c cols)
      ++ when (damage_types_given c) (damage_action c cols)
      ++ severity_actions c cols).
Proof.
  intros Hq. unfold actions, query_given.
  destruct (query c); [congruence | reflexivity].
Qed.

(** X10. A table with "Damages Found" but without "Room No": every search
    comes back without a row, even when the text is in "Damages Found".
    The key for the missing column is empty, and a row the left key does
    not have counts as no match. *)
Theorem search_without_room_no_finds_nothing (c : Criteria) (D D' : DataFrame) :
  query c <> "" ->
  has_room_no (columns D) = false ->
  has_damages_found (columns D) = true ->
  apply_filters c D = Ok D' ->
  rows D' = [].
Proof.
  intros Hq Hr Hd H. rewrite (result_rows _ _ H).
  rewrite apply_filters_actions in H.
  rewrite (@actions_with_query c (columns D) Hq) in H |- *.
  unfold text_action, text_ok in H |- *. rewrite Hr, Hd in H |- *.
  simpl in H |- *.
  destruct (Re.compile (query c)); try discriminate H.
  destruct (is_object (damages_found_dtype (columns D))); [| discriminate H].
  simpl. induction (rows D) as [| r l IH]; [reflexivity | exact IH].
Qed.

Lemma search_without_room_no_finds_nothing_witness :
  query (Sample.search "leak") <> ""
  /\ has_room_no (columns Survey.no_room_no) = false
  /\ has_damages_found (columns Survey.no_room_no) = true
  /\ apply_filters (Sample.search "leak") Survey.no_room_no
     = Ok (with_rows Survey.no_room_no [])
  /\ rows (with_rows Survey.no_room_no []) = [].
Proof.
  assert (H1 : query (Sample.search "leak") <> "") by discriminate.
  split; [exact H1 |]. split; [reflexivity |]. split; [reflexivity |].
  split; [reflexivity |].
  exact (@search_without_room_no_finds_nothing (Sample.search "leak")
           Survey.no_room_no (with_rows Survey.no_room_no [])
           H1 eq_refl eq_refl eq_refl).
Defined.

(** X11. A table with neither "Room No" nor "Damages Found", and with at
    least one row: every search whose pattern compiles raises
    IndexingError, whatever else is selected. *)
Theorem search_without_text_columns_raises (c : Criteria) (D : DataFrame) (ts : list Re.token) :
  query c <> "" ->
  Re.compile (query c) = Re.Pattern ts ->
  has_room_no (columns D) = false ->
  has_damages_found (columns D) = false ->
  rows D <> [] ->
  apply_filters c D = Raise IndexingError.
Proof.
  intros Hq Hts Hr Hd Hne. rewrite apply_filters_actions.
  rewrite (@actions_with_query c (columns D) Hq).
  unfold text_action, text_ok. rewrite Hts, Hr, Hd. simpl.
  destruct (rows D); [congruence | reflexivity].
Qed.

Lemma search_without_text_columns_raises_witness :
  query (Sample.search "leak") <> ""
  /\ Re.compile (query (Sample.search "leak")) = Re.Pattern (literal "leak")
  /\ has_room_no (columns Sample.no_text) = false
  /\ has_damages_found (columns Sample.no_text) = false
  /\ rows Sample.no_text <> []
  /\ apply_filters (Sample.search "leak") Sample.no_text = Raise IndexingError.
Proof.
  assert (H1 : query (Sample.search "leak") <> "") by discriminate.
  assert (H2 : rows Sample.no_text <> []) by discriminate.
  split; [exact H1 |]. split; [reflexivity |]. split; [reflexivity |].
  split; [reflexivity |]. split; [exact H2 |].
  exact (@search_without_text_columns_raises (Sample.search "leak")
           Sample.no_text (literal "leak") H1 eq_refl eq_refl eq_refl H2).
Defined.

(** X12. A table with "Room No", holding text, but without "Damages Found":
    a search for a query without special characters keeps, of what the other
    filters leave, the rows whose room number contains the query, the case
    of letters set aside. *)
Theorem search_without_damages_found (c : Criteria) (D D0 : DataFrame) :
  query c <> "" ->
  plain (query c) = true ->
  has_room_no (columns D) = true ->
  room_no_dtype (columns D) = object ->
  has_damages_found (columns D) = false ->
  apply_filters (without_query c) D = Ok D0 ->
  exists D',
    apply_filters c D = Ok D'
    /\ forall r, In r (rows D') <->
                 In r (rows D0) /\ contains_ci (query c) (text_of (room_no r)).
Proof.
  intros Hq Hp Hr Hro Hd H0.
  rewrite apply_filters_actions in H0 |- *.
  rewrite (@actions_with_query c (columns D) Hq).
  assert (E0 : actions (without_query c) (columns D) =
               when (towers_given c) (tower_action c (columns D))
               ++ when (damage_types_given c) (damage_action c (columns D))
               ++ severity_actions c (columns D)) by reflexivity.
  rewrite E0 in H0.
  unfold text_action, text_ok. rewrite (compile_plain _ Hp), Hr, Hro, Hd.
  simpl is_object. cbv iota.
  destruct (@run_actions_insert_keep [] _
              (fun r => cell_contains (literal (query c)) (room_no r)) D D0 H0)
    as (D' & H' & Hrows).
  exists D'. split; [exact H' |]. intros r.
  rewrite Hrows, filter_In, (cell_contains_literal _ Hq). reflexivity.
Qed.

Lemma search_without_damages_found_witness :
  query (Sample.search "101") <> ""
  /\ plain (query (Sample.search "101")) = true
  /\ has_room_no (columns no_damages_found) = true
  /\ room_no_dtype (columns no_damages_found) = object
  /\ has_damages_found (columns no_damages_found) = false
  /\ apply_filters (without_query (Sample.search "101")) no_damages_found
     = Ok no_damages_found
  /\ exists D',
       apply_filters (Sample.search "101") no_damages_found = Ok D'
       /\ forall r, In r (rows D') <->
                    In r (rows no_damages_found)
                    /\ contains_ci (query (Sample.search "101")) (text_of (room_no r)).
Proof.
  assert (H1 : query (Sample.search "101") <> "") by discriminate.
  split; [exact H1 |]. split; [reflexivity |]. split; [reflexivity |].
  split; [reflexivity |]. split; [reflexivity |]. split; [reflexivity |].
  exact (@search_without_damages_found (Sample.search "101")
           no_damages_found no_damages_found H1 eq_refl eq_refl eq_refl eq_refl
           eq_refl).
Defined.

(** ** The figures of the overview *)

Lemma dropna_length {A} (l : list (option A)) : List.length (dropna l) <= List.length l.
Proof.
  induction l as [| [x |] l IH]; simpl; lia.
Qed.

Lemma unique_length l : List.length (unique l) <= List.length l.
Proof.
  apply NoDup_incl_length; [apply unique_NoDup |].
  intros x Hx. apply unique_In, Hx.
Qed.

Lemma unique_length_incl l1 l2 :
  incl l1 l2 -> List.length (unique l1) <= List.length (unique l2).
Proof.
  intros H. apply NoDup_incl_length; [apply unique_NoDup |].
  intros x Hx. apply unique_In, H, unique_In, Hx.
Qed.

Lemma room_values d :
  has_room_no (columns d) = true ->
  values_of (get has_room_no room_no d empty_series) = map room_no (rows d).
Proof.
  intros H. unfold get. rewrite H. unfold values_of, column.
  rewrite map_map. reflexivity.
Qed.

Lemma unique_rooms_absent d :
  has_room_no (columns d) = false -> unique_rooms d = 0.
Proof.
  intros H. unfold unique_rooms, get. rewrite H. reflexivity.
Qed.

(** X13. The figures of the overview: the number of distinct rooms is at
    most the number of reports shown, and filtering raises neither figure
    above what the unfiltered table gives. *)
Theorem overview_figures (c : Criteria) (D D' : DataFrame) :
  apply_filters c D = Ok D' ->
  unique_rooms D' <= total_reports D'
  /\ total_reports D' <= total_reports D
  /\ unique_rooms D' <= unique_rooms D.
Proof.
  intros H. pose proof (result_rows _ _ H) as Hrows.
  assert (Hany : forall d, unique_rooms d <= total_reports d).
  { intros d. unfold total_reports.
    destruct (has_room_no (columns d)) eqn:E.
    - unfold unique_rooms. rewrite (room_values d E).
      etransitivity; [apply unique_length |].
      etransitivity; [apply dropna_length |]. rewrite length_map. lia.
    - rewrite (unique_rooms_absent d E). lia. }
  split; [apply Hany |]. split.
  - unfold total_reports. rewrite Hrows. apply filter_length_le.
  - destruct (result_columns _ _ H) as [Hc | ->];
      [| rewrite (unique_rooms_absent empty_frame eq_refl); lia].
    destruct (has_room_no (columns D)) eqn:E.
    + assert (E' : has_room_no (columns D') = true) by (rewrite Hc; exact E).
      unfold unique_rooms. rewrite (room_values D E), (room_values D' E').
      apply unique_length_incl. intros x Hx.
      apply dropna_In in Hx. apply dropna_In.
      apply in_map_iff in Hx. destruct Hx as (r & Er & Hr).
      apply in_map_iff. exists r. split; [exact Er |].
      rewrite Hrows in Hr. apply filter_In in Hr. apply Hr.
    + assert (E' : has_room_no (columns D') = false) by (rewrite Hc; exact E).
      rewrite (unique_rooms_absent D' E'). lia.
Qed.

Lemma overview_figures_witness :
  apply_filters (Sample.search "101") Sample.sample
  = Ok (with_rows Sample.sample [Sample.room101])
  /\ unique_rooms (with_rows Sample.sample [Sample.room101])
     <= total_reports (with_rows Sample.sample [Sample.room101])
  /\ total_reports (with_rows Sample.sample [Sample.room101])
     <= total_reports Sample.sample
  /\ unique_rooms (with_rows Sample.sample [Sample.room101])
     <= unique_rooms Sample.sample.
Proof.
  split; [reflexivity |].
  exact (@overview_figures (Sample.search "101") Sample.sample
           (with_rows Sample.sample [Sample.room101]) eq_refl).
Defined.

(** ** The tally of a filtered table *)

Lemma occurrences_filter p l k :
  count_occ string_dec
    (map snd (flat_map (fun r => map (fun d => (label r, d)) (damage_types r))
                (filter p l))) k
  <= count_occ string_dec
       (map snd (flat_map (fun r => map (fun d => (label r, d)) (damage_types r)) l)) k.
Proof.
  induction l as [| r l IH]; simpl; [lia |].
  destruct (p r); simpl; rewrite ?map_app, ?count_occ_app; lia.
Qed.

Lemma occurrences_In D k :
  0 < occurrences D k -> exists r, In r (rows D) /\ In k (damage_types r).
Proof.
  unfold occurrences. intros H. apply count_occ_In in H.
  apply in_map_iff in H. destruct H as ([i d] & E & Hin). simpl in E. subst d.
  unfold pairs in Hin. apply in_flat_map in Hin. destruct Hin as (r & Hr & Hin).
  apply in_map_iff in Hin. destruct Hin as (d & E & Hd).
  injection E as _ ->. exists r. auto.
Qed.

Lemma firstn_incl {A} n (l : list A) x : In x (firstn n l) -> In x l.
Proof.
  intros H. rewrite <- (firstn_skipn n l). apply in_or_app. left. exact H.
Qed.

Lemma aggregate_entries sort top_n F out k n :
  sort_contract sort ->
  aggregate_damage_frequency sort top_n F = Ok out ->
  In (k, n) out ->
  n = occurrences F k /\ 0 < n.
Proof.
  intros Hsort Hrun Hin. unfold aggregate_damage_frequency in Hrun.
  apply bind_Ok_inv in Hrun. destruct Hrun as (s & Hs & Hout).
  unfold explode in Hs. destruct (has_damage_types (columns F)); [| discriminate Hs].
  injection Hs as <-. injection Hout as <-.
  unfold head, value_counts in Hin. rewrite explode_pairs in Hin.
  apply firstn_incl in Hin.
  set (table := count_table (map snd (pairs F))) in *.
  destruct (Hsort table) as [Hperm _].
  assert (Htable : count_table_ok table) by apply count_table_well_formed.
  assert (Hfull : count_table_ok (sort table))
    by (eapply count_table_ok_perm; eassumption).
  apply (count_table_ok_In k n Hfull) in Hin.
  rewrite <- (count_of_perm k Hperm Htable) in Hin. unfold table in Hin.
  rewrite count_of_count_table in Hin. exact Hin.
Qed.

(** X14. The chart and the sidebar agree: every damage type in the tally
    of a filtered table is an option of the damage-type widget, which is
    computed on the unfiltered table, and its count is at least 1 and at
    most the number of its occurrences in the unfiltered table. *)
Theorem tally_of_filtered_table
    (sort : list (string * nat) -> list (string * nat))
    (c : Criteria) (D F : DataFrame) (opts : list string)
    (out : list (string * nat)) :
  sort_contract sort ->
  all_dtypes D = Ok opts ->
  apply_filters c D = Ok F ->
  tally sort F = Ok out ->
  forall k n, In (k, n) out -> In k opts /\ 1 <= n <= occurrences D k.
Proof.
  intros Hsort Hopts HF Hout k n Hin.
  destruct (@aggregate_entries sort 10 F out k n Hsort Hout Hin) as [Hn Hpos].
  assert (Hle : occurrences F k <= occurrences D k).
  { unfold occurrences, pairs. rewrite (result_rows _ _ HF).
    apply occurrences_filter. }
  split; [| lia].
  apply (widget_dtypes_In D Hopts k). apply occurrences_In. lia.
Qed.

Lemma tally_of_filtered_table_witness :
  sort_contract stable_sort
  /\ all_dtypes Sample.sample = Ok ["Cracked wall"; "Water leak"]
  /\ apply_filters (Sample.select_towers ["A"]) Sample.sample
     = Ok (with_rows Sample.sample [Sample.room101])
  /\ tally stable_sort (with_rows Sample.sample [Sample.room101])
     = Ok [("Water leak", 1)]
  /\ forall k n,
       In (k, n) [("Water leak", 1)] ->
       In k ["Cracked wall"; "Water leak"]
       /\ 1 <= n <= occurrences Sample.sample k.
Proof.
  split; [exact stable_sort_contract |]. split; [reflexivity |].
  split; [reflexivity |]. split; [reflexivity |].
  exact (@tally_of_filtered_table stable_sort (Sample.select_towers ["A"])
           Sample.sample (with_rows Sample.sample [Sample.room101])
           ["Cracked wall"; "Water leak"] [("Water leak", 1)]
           stable_sort_contract eq_refl eq_refl eq_refl).
Defined.

(** ** Idempotence, exactly *)

Lemma run_actions_no_rows l d d' :
  rows d = [] -> run_actions l d = Ok d' -> rows d' = [].
Proof.
  intros E H. rewrite (run_actions_rows _ _ H), E. reflexivity.
Qed.

Lemma severity_actions_empty_frame c cols d :
  run_actions (severity_actions c cols) empty_frame = Ok d -> d = empty_frame.
Proof.
  unfold severity_actions.
  destruct (has_severity_score cols); [destruct (severity_range c) |]; simpl;
    intros H; injection H as <-; reflexivity.
Qed.

(** X15. Applying [apply_filters] to its own result gives that result
    again exactly when the result has a row or no damage type is selected.
    A result without rows, with a damage type selected, is not returned a
    second time: the damage-type filter strips it of its columns, or, when
    it has none, raises. *)
Theorem apply_filters_idempotent_exactly (c : Criteria) (D D' : DataFrame) :
  apply_filters c D = Ok D' ->
  (apply_filters c D' = Ok D' <-> rows D' <> [] \/ damage_type_selection c = []).
Proof.
  intros H. split; [| exact (@apply_filters_idempotent_with_rows c D D' H)].
  intros H2. destruct (rows D') as [| r rs] eqn:E; [right | left; discriminate].
  destruct (damage_type_selection c) as [| d ds] eqn:Ed; [reflexivity | exfalso].
  rewrite apply_filters_actions in H2.
  assert (Ea : actions c (columns D') =
               (when (query_given c) (text_action c (columns D'))
                ++ when (towers_given c) (tower_action c (columns D')))
               ++ damage_action c (columns D')
                  :: severity_actions c (columns D')).
  { unfold actions, damage_types_given. rewrite Ed. simpl.
    rewrite <- app_assoc. reflexivity. }
  rewrite Ea, run_actions_app in H2. apply bind_Ok_inv in H2.
  destruct H2 as (d1 & H1 & H3).
  pose proof (@run_actions_no_rows _ D' d1 E H1) as E1.
  simpl in H3. unfold damage_action in H3.
  destruct (has_damage_types (columns D')) eqn:Ec; simpl in H3;
    [| discriminate H3].
  rewrite E1 in H3. simpl in H3.
  apply severity_actions_empty_frame in H3. subst D'. discriminate Ec.
Qed.

Lemma apply_filters_idempotent_exactly_witness :
  apply_filters (Sample.search "101") Sample.sample
  = Ok (with_rows Sample.sample [Sample.room101])
  /\ (apply_filters (Sample.search "101") (with_rows Sample.sample [Sample.room101])
       = Ok (with_rows Sample.sample [Sample.room101])
      <-> rows (with_rows Sample.sample [Sample.room101]) <> []
          \/ damage_type_selection (Sample.search "101") = []).
Proof.
  split; [reflexivity |].
  exact (@apply_filters_idempotent_exactly (Sample.search "101") Sample.sample
           (with_rows Sample.sample [Sample.room101]) eq_refl).
Defined.

(** ** The filters together *)

Lemma passes_keep p r : passes [Keep p] r = p r.
Proof. simpl. apply andb_true_r. Qed.

Lemma passes_text c cols r :
  plain (query c) = true ->
  has_room_no cols = true ->
  has_damages_found cols = true ->
  room_no_dtype cols = object ->
  damages_found_dtype cols = object ->
  passes (when (query_given c) (text_action c cols)) r = true <->
  (query c = ""
   \/ contains_ci (query c) (text_of (room_no r))
   \/ contains_ci (query c) (text_of (damages_found r))).
Proof.
  intros Hp Hr Hd Hro Hdo. unfold query_given, text_action, text_ok.
  rewrite (compile_plain _ Hp), Hr, Hd, Hro, Hdo. simpl is_object. cbv iota.
  destruct (query c) as [| ch q] eqn:Eq; simpl when.
  - simpl. tauto.
  - rewrite passes_keep, orb_true_iff.
    rewrite !cell_contains_literal by discriminate.
    split; [tauto |]. intros [H | H]; [discriminate H | exact H].
Qed.

Lemma passes_tower c cols r :
  has_tower cols = true ->
  passes (when (towers_given c) (tower_action c cols)) r = true <->
  (towers c = [] \/ exists t, tower r = Some t /\ In t (towers c)).
Proof.
  intros Ht. unfold towers_given, tower_action. rewrite Ht.
  destruct (towers c) as [| t ts] eqn:E; simpl when.
  - simpl. tauto.
  - rewrite passes_keep. unfold tower_test. rewrite E.
    destruct (tower r) as [x |].
    + rewrite mem_In. split.
      * intros H. right. exists x. auto.
      * intros [H | (y & Ey & H)]; [discriminate H |]. injection Ey as ->. exact H.
    + split; [discriminate |].
      intros [H | (y & Ey & _)]; discriminate.
Qed.

Lemma passes_damage c cols r :
  has_damage_types cols = true ->
  passes (when (damage_types_given c) (damage_action c cols)) r = true <->
  (damage_type_selection c = [] \/ shares_label (damage_type_selection c) r).
Proof.
  intros Hd. unfold damage_types_given, damage_action. rewrite Hd.
  destruct (damage_type_selection c) as [| d ds] eqn:E; simpl when.
  - simpl. tauto.
  - simpl passes. rewrite andb_true_r, damage_test_shares, E.
    split; [tauto |]. intros [H | H]; [discriminate H | exact H].
Qed.

Lemma passes_severity c cols r :
  has_severity_score cols = true ->
  passes (severity_actions c cols) r = true <->
  (forall rng, severity_range c = Some rng ->
               in_range (severity_score_dtype cols) rng r).
Proof.
  intros Hs. unfold severity_actions. rewrite Hs.
  destruct (severity_range c) as [rng |].
  - rewrite passes_keep, severity_test_in_range. split.
    + intros H rng' E. injection E as <-. exact H.
    + intros H. apply H. reflexivity.
  - simpl. split; [intros _ rng E; discriminate E | reflexivity].
Qed.

(** X17. The filters combine with "and".  On a table that has the five
    columns the dashboard reads, "Room No" and "Damages Found" holding text,
    with a query without special characters, [apply_filters] raises nothing
    and returns, in their order, exactly the rows that pass every filter
    that is switched on: the query, if any, is in the room number or in the
    damages text, the case of letters set aside; the tower, if towers are
    selected, is one of them; the row's list, if damage types are selected,
    holds one of them; and the score, as the float the comparison takes it
    for, is in the range. *)
Theorem result_is_the_wanted_rows (c : Criteria) (D : DataFrame) :
  complete (columns D) ->
  plain (query c) = true ->
  exists D',
    apply_filters c D = Ok D'
    /\ subseq (rows D') (rows D)
    /\ forall r, In r (rows D') <->
                 In r (rows D)
                 /\ wanted (severity_score_dtype (columns D)) c r.
Proof.
  intros (Hr & Ht & Hd & Hl & Hs & Hro & Hdo) Hp.
  destruct (@run_actions_harmless (actions c (columns D)) D) as [D' H'].
  { apply harmless_actions.
    - intros _. split; [exists (literal (query c)); apply compile_plain, Hp |].
      split; [left; exact Hr |]. split; intros _; assumption.
    - intros _. exact Ht.
    - intros _. exact Hl. }
  rewrite <- apply_filters_actions in H'.
  exists D'. split; [exact H' |]. split; [exact (@result_subseq c D D' H') |].
  intros r. rewrite (@result_In c D D' r H'). unfold actions, wanted.
  rewrite !passes_app, !andb_true_iff.
  rewrite (@passes_text c (columns D) r Hp Hr Hd Hro Hdo).
  rewrite (@passes_tower c (columns D) r Ht).
  rewrite (@passes_damage c (columns D) r Hl).
  rewrite (@passes_severity c (columns D) r Hs).
  reflexivity.
Qed.

Lemma result_is_the_wanted_rows_witness :
  complete (columns Sample.sample)
  /\ plain (query (test_criteria "101" ["Water leak"])) = true
  /\ exists D',
       apply_filters (test_criteria "101" ["Water leak"]) Sample.sample = Ok D'
       /\ subseq (rows D') (rows Sample.sample)
       /\ forall r, In r (rows D') <->
                    In r (rows Sample.sample)
                    /\ wanted (severity_score_dtype (columns Sample.sample))
                         (test_criteria "101" ["Water leak"]) r.
Proof.
  assert (H1 : complete (columns Sample.sample)) by (repeat split).
  split; [exact H1 |]. split; [reflexivity |].
  exact (@result_is_the_wanted_rows (test_criteria "101" ["Water leak"])
           Sample.sample H1 eq_refl).
Defined.

(** ** Wider selections *)

Lemma filter_implies {A} (p q : A -> bool) (l : list A) :
  (forall x, In x l -> p x = true -> q x = true) ->
  filter p l = filter p (filter q l).
Proof.
  intros H. rewrite filter_filter. apply filter_ext_in. intros x Hx.
  destruct (p x) eqn:Ep.
  - rewrite (H x Hx Ep). reflexivity.
  - destruct (q x); reflexivity.
Qed.

Lemma text_action_query c c' cols :
  query c' = query c ->
  when (query_given c') (text_action c' cols)
  = when (query_given c) (text_action c cols).
Proof.
  intros E. unfold query_given, text_action. rewrite E. reflexivity.
Qed.

(** A row that passes the chain of [c] passes the chain of a wider
    selection. *)
Lemma wider_passes c c' cols r :
  wider c c' ->
  passes (actions c cols) r = true -> passes (actions c' cols) r = true.
Proof.
  intros (Hq & Ht & Hd & Hs). unfold actions.
  rewrite !passes_app, !andb_true_iff. intros (H1 & H2 & H3 & H4).
  split; [rewrite (@text_action_query c c' cols Hq); exact H1 |].
  split; [| split].
  - unfold towers_given, tower_action in H2 |- *.
    destruct Ht as [E | [Hne Hincl]]; [rewrite E; reflexivity |].
    destruct (towers c') as [| t' ts'] eqn:E'; [reflexivity |].
    destruct (towers c) as [| t ts] eqn:E; [congruence |].
    simpl when in H2 |- *. destruct (has_tower cols); [| reflexivity].
    rewrite passes_keep in H2 |- *. unfold tower_test in H2 |- *.
    rewrite E in H2. rewrite E'.
    destruct (tower r) as [x |]; [| discriminate H2].
    apply mem_In. apply Hincl. apply mem_In. exact H2.
  - unfold damage_types_given, damage_action in H3 |- *.
    destruct Hd as [E | [Hne Hincl]]; [rewrite E; reflexivity |].
    destruct (damage_type_selection c') as [| d' ds'] eqn:E'; [reflexivity |].
    destruct (damage_type_selection c) as [| d ds] eqn:E; [congruence |].
    simpl when in H3 |- *. destruct (has_damage_types cols); [| reflexivity].
    simpl passes in H3 |- *. rewrite andb_true_r in H3 |- *.
    apply damage_test_shares. apply damage_test_shares in H3.
    rewrite E in H3. rewrite E'.
    destruct H3 as (x & Hx & Hr). exists x. split; [apply Hincl, Hx | exact Hr].
  - unfold severity_actions in H4 |- *.
    destruct (has_severity_score cols); [| reflexivity].
    destruct (severity_range c') as [rng' |]; [| reflexivity].
    destruct (severity_range c) as [rng |]; [| contradiction].
    rewrite passes_keep in H4 |- *.
    apply severity_test_in_range. apply severity_test_in_range in H4.
    destruct Hs as [Hlo Hhi]. destruct H4 as (s & Es & H5 & H6).
    exists s. split; [exact Es |]. split.
    + eapply Qle_trans; eassumption.
    + eapply Qle_trans; eassumption.
Qed.

Lemma harmless_severity c cols : Forall harmless (severity_actions c cols).
Proof.
  unfold severity_actions. destruct (has_severity_score cols); [| constructor].
  destruct (severity_range c); [| constructor].
  constructor; [simpl; trivial | constructor].
Qed.

(** The chain of a wider selection does not raise where the chain of [c]
    does not. *)
Lemma wider_succeeds c c' D D1 :
  wider c c' ->
  run_actions (actions c (columns D)) D = Ok D1 ->
  exists D2, run_actions (actions c' (columns D)) D = Ok D2.
Proof.
  intros (Hq & Ht & Hd & _) H. unfold actions in H |- *.
  rewrite (@text_action_query c c' (columns D) Hq).
  rewrite run_actions_app in H |- *.
  apply bind_Ok_inv in H. destruct H as (dT & HT & H). rewrite HT. simpl.
  assert (Hdmg : Forall harmless
            (when (damage_types_given c') (damage_action c' (columns D))
             ++ severity_actions c' (columns D))).
  { apply Forall_app. split; [| apply harmless_severity].
    unfold damage_types_given, damage_action.
    destruct Hd as [E | [Hne _]]; [rewrite E; constructor |].
    destruct (damage_type_selection c') as [| d' ds']; [constructor |].
    simpl. constructor; [| constructor].
    destruct (has_damage_types (columns D)) eqn:Ec; [simpl; trivial | exfalso].
    unfold damage_types_given, damage_action in H. rewrite Ec in H.
    destruct (damage_type_selection c) as [| d ds]; [congruence |].
    simpl when in H.
    exact (@run_actions_no_fail
             (when (towers_given c) (tower_action c (columns D)))
             (KeyError "Damage Type List")
             (severity_actions c (columns D)) dT D1 H). }
  unfold towers_given, tower_action in H |- *.
  destruct Ht as [E | [Hne _]].
  { rewrite E. simpl. apply run_actions_harmless, Hdmg. }
  destruct (towers c') as [| t' ts'].
  { simpl. apply run_actions_harmless, Hdmg. }
  destruct (towers c) as [| t ts]; [congruence |].
  simpl when in H |- *. destruct (has_tower (columns D)).
  - apply run_actions_harmless. constructor; [simpl; trivial | exact Hdmg].
  - simpl in H |- *. destruct (rows dT); [| discriminate H].
    simpl. apply run_actions_harmless, Hdmg.
Qed.

(** X18. Widening the selections never loses a row.  When [apply_filters]
    returns a table for the selections [c], it returns one for every wider
    [c'], and the rows of the first are among the rows of the second, in
    the same order.  Wider means: the same query; a tower or damage-type
    selection cleared, or enlarged from one that was not empty; a range
    removed or widened. *)
Theorem wider_selection_keeps_rows (c c' : Criteria) (D D1 : DataFrame) :
  wider c c' ->
  apply_filters c D = Ok D1 ->
  exists D2, apply_filters c' D = Ok D2 /\ subseq (rows D1) (rows D2).
Proof.
  intros Hw H1. pose proof (result_rows _ _ H1) as E1.
  rewrite apply_filters_actions in H1.
  destruct (@wider_succeeds c c' D D1 Hw H1) as [D2 H2].
  rewrite <- apply_filters_actions in H2.
  exists D2. split; [exact H2 |].
  rewrite E1, (result_rows _ _ H2).
  rewrite (@filter_implies _ (passes (actions c (columns D)))
             (passes (actions c' (columns D))) (rows D)).
  - apply filter_subseq.
  - intros r _. apply wider_passes, Hw.
Qed.

Lemma wider_selection_keeps_rows_witness :
  wider (test_criteria "" ["Water leak"])
        (with_towers ["A"; "B"; "C"] (test_criteria "" ["Water leak"; "Mould"]))
  /\ apply_filters (test_criteria "" ["Water leak"]) Sample.sample
     = Ok (with_rows Sample.sample [Sample.room101])
  /\ exists D2,
       apply_filters
         (with_towers ["A"; "B"; "C"] (test_criteria "" ["Water leak"; "Mould"]))
         Sample.sample = Ok D2
       /\ subseq (rows (with_rows Sample.sample [Sample.room101])) (rows D2).
Proof.
  assert (H1 : wider (test_criteria "" ["Water leak"])
                 (with_towers ["A"; "B"; "C"]
                    (test_criteria "" ["Water leak"; "Mould"]))).
  { split; [reflexivity |]. split; [| split].
    - right. split; [discriminate |]. intros x Hx. simpl in Hx |- *. tauto.
    - right. split; [discriminate |]. intros x Hx. simpl in Hx |- *. tauto.
    - simpl. split; apply Qle_refl. }
  split; [exact H1 |]. split; [reflexivity |].
  exact (@wider_selection_keeps_rows (test_criteria "" ["Water leak"])
           (with_towers ["A"; "B"; "C"] (test_criteria "" ["Water leak"; "Mould"]))
           Sample.sample (with_rows Sample.sample [Sample.room101]) H1 eq_refl).
Defined.

(** ** The bounds of the severity slider *)

Lemma series_min_In l m : series_min l = Some m -> In (Some m) l.
Proof.
  revert m. induction l as [| x l IH]; intros m; simpl; [discriminate |].
  destruct x as [x |]; [| intros H; right; exact (IH _ H)].
  destruct (series_min l) as [m' |].
  - intros H. injection H as <-.
    destruct (Qle_bool x m'); [left; reflexivity | right; exact (IH _ eq_refl)].
  - intros H. injection H as <-. left. reflexivity.
Qed.

Lemma series_max_In l m : series_max l = Some m -> In (Some m) l.
Proof.
  revert m. induction l as [| x l IH]; intros m; simpl; [discriminate |].
  destruct x as [x |]; [| intros H; right; exact (IH _ H)].
  destruct (series_max l) as [m' |].
  - intros H. injection H as <-.
    destruct (Qle_bool m' x); [left; reflexivity | right; exact (IH _ eq_refl)].
  - intros H. injection H as <-. left. reflexivity.
Qed.

Lemma series_min_none l :
  (forall x, In x l -> x = None) -> series_min l = None.
Proof.
  induction l as [| x l IH]; intros H; simpl; [reflexivity |].
  rewrite (H x (or_introl eq_refl)). apply IH. intros y Hy. apply H. right. exact Hy.
Qed.

Lemma series_max_none l :
  (forall x, In x l -> x = None) -> series_max l = None.
Proof.
  induction l as [| x l IH]; intros H; simpl; [reflexivity |].
  rewrite (H x (or_introl eq_refl)). apply IH. intros y Hy. apply H. right. exact Hy.
Qed.

Lemma score_values D x :
  In x (values_of (column severity_score D)) <->
  exists r, In r (rows D) /\ severity_score r = x.
Proof.
  unfold values_of, column. rewrite map_map. simpl. rewrite in_map_iff.
  split; intros (r & H1 & H2); exists r; auto.
Qed.

Lemma slider_bounds_scores D :
  has_severity_score (columns D) = true -> rows D <> [] ->
  slider_bounds D =
  (float_of (severity_score_dtype (columns D))
     (series_min (values_of (column severity_score D))),
   float_of (severity_score_dtype (columns D))
     (series_max (values_of (column severity_score D)))).
Proof.
  intros Hcol Hne. unfold slider_bounds, frame_empty.
  destruct (rows D) as [| r rs]; [congruence |].
  unfold column_count. rewrite Hcol.
  destruct (has_room_no _), (has_tower _), (has_damages_found _),
    (has_damage_types _); reflexivity.
Qed.

Lemma series_min_some l s : In (Some s) l -> exists m, series_min l = Some m.
Proof.
  induction l as [| x l IH]; intros Hin; [destruct Hin |].
  simpl. destruct x as [x |].
  - destruct (series_min l); eexists; reflexivity.
  - destruct Hin as [Hin | Hin]; [discriminate Hin | auto].
Qed.

Lemma series_max_some l s : In (Some s) l -> exists m, series_max l = Some m.
Proof.
  induction l as [| x l IH]; intros Hin; [destruct Hin |].
  simpl. destruct x as [x |].
  - destruct (series_max l); eexists; reflexivity.
  - destruct Hin as [Hin | Hin]; [discriminate Hin | auto].
Qed.

(** X19. The bounds of the severity slider.  Without the "Severity Score"
    column, or on a table without rows, they are 0 and 10.  Otherwise the
    lower bound is [float] of the least score of the table and the upper
    bound [float] of the greatest, each the score of some row; every score
    of the table, taken as a float, lies between them; when no row has a
    score, both bounds are NaN.  [float] leaves the scores of a float64
    column and the integers up to 2^53 as they are, and rounds beyond: the
    bounds of a table whose one score is 2^53 + 1 are both 2^53. *)
Theorem slider_bounds_of_the_scores (D : DataFrame) :
  (has_severity_score (columns D) = false \/ rows D = [] ->
   slider_bounds D = (Some (0 # 1), Some (10 # 1)))
  /\ (has_severity_score (columns D) = true -> rows D <> [] ->
      (forall lo hi,
         slider_bounds D = (Some lo, Some hi) ->
         (exists r s,
            In r (rows D) /\ severity_score r = Some s
            /\ lo = as_float (severity_score_dtype (columns D)) s
            /\ forall r' s', In r' (rows D) -> severity_score r' = Some s' ->
                             (s <= s')%Q)
         /\ (exists r s,
               In r (rows D) /\ severity_score r = Some s
               /\ hi = as_float (severity_score_dtype (columns D)) s
               /\ forall r' s', In r' (rows D) -> severity_score r' = Some s' ->
                                (s' <= s)%Q)
         /\ (lo <= hi)%Q
         /\ forall r s, In r (rows D) -> severity_score r = Some s ->
              (lo <= as_float (severity_score_dtype (columns D)) s)%Q
              /\ (as_float (severity_score_dtype (columns D)) s <= hi)%Q)
      /\ ((forall r, In r (rows D) -> severity_score r = None) ->
          slider_bounds D = (None, None))
      /\ (forall r s, In r (rows D) -> severity_score r = Some s ->
          exists lo hi, slider_bounds D = (Some lo, Some hi)))
  /\ (forall v, as_float float64 v = v)
  /\ (forall n, (- 2 ^ 53 <= n <= 2 ^ 53)%Z ->
                as_float int64 (inject_Z n) = inject_Z n)
  /\ slider_bounds large_score_frame
     = (Some (9007199254740992 # 1), Some (9007199254740992 # 1)).
Proof.
  split; [| split; [| split; [| split]]].
  - intros [Hcol | Hrows]; unfold slider_bounds.
    + rewrite Hcol. reflexivity.
    + unfold frame_empty. rewrite Hrows, andb_false_r. reflexivity.
  - intros Hcol Hne. rewrite (slider_bounds_scores D Hcol Hne).
    split; [| split].
    + intros lo hi E. injection E as Elo Ehi.
      destruct (series_min _) as [m |] eqn:Em; [| discriminate Elo].
      destruct (series_max _) as [M |] eqn:EM; [| discriminate Ehi].
      simpl in Elo, Ehi. injection Elo as <-. injection Ehi as <-.
      pose proof (series_min_In _ Em) as Hm.
      pose proof (series_max_In _ EM) as HM.
      assert (Hall : forall r s, In r (rows D) -> severity_score r = Some s ->
                                 In (Some s) (values_of (column severity_score D)))
        by (intros r s Hr Hs; apply score_values; exists r; auto).
      split; [| split; [| split]].
      * apply score_values in Hm. destruct Hm as (r & Hr & Hs).
        exists r, m. split; [exact Hr |]. split; [exact Hs |].
        split; [reflexivity |]. intros r' s' Hr' Hs'.
        exact (@series_min_le _ _ _ Em (Hall r' s' Hr' Hs')).
      * apply score_values in HM. destruct HM as (r & Hr & Hs).
        exists r, M. split; [exact Hr |]. split; [exact Hs |].
        split; [reflexivity |]. intros r' s' Hr' Hs'.
        exact (@series_max_ge _ _ _ EM (Hall r' s' Hr' Hs')).
      * apply as_float_mono. exact (@series_max_ge _ _ _ EM Hm).
      * intros r s Hr Hs. split; apply as_float_mono.
        -- exact (@series_min_le _ _ _ Em (Hall r s Hr Hs)).
        -- exact (@series_max_ge _ _ _ EM (Hall r s Hr Hs)).
    + intros Hnone.
      assert (Hall : forall x, In x (values_of (column severity_score D)) -> x = None).
      { intros x Hx. apply score_values in Hx. destruct Hx as (r & Hr & <-).
        apply Hnone, Hr. }
      rewrite (series_min_none _ Hall), (series_max_none _ Hall). reflexivity.
    + intros r s Hr Hs.
      assert (Hin : In (Some s) (values_of (column severity_score D)))
        by (apply score_values; exists r; auto).
      destruct (@series_min_some _ _ Hin) as [m Em].
      destruct (@series_max_some _ _ Hin) as [M EM].
      rewrite Em, EM. simpl. eexists. eexists. reflexivity.
  - intros v. reflexivity.
  - intros n Hn. unfold as_float. rewrite Qfloor_Z.
    rewrite (float_of_int_small Hn). reflexivity.
  - vm_compute. reflexivity.
Qed.

(** ** Without Streamlit *)

(** X20. The stand-in for Streamlit never hands out a sidebar: whatever
    the attribute, [__getattr__] returns a function or an empty dict, never
    an instance of [_SidebarStub], so no attribute of the stub can be
    entered with [with].  Line 108, [with st.sidebar:], fails on the stub,
    and so would the call [st.slider(...)] of line 126, [slider] being a
    dict.  The widgets that are functions return the empty string,
    [multiselect] its [default] argument or the empty list. *)
Theorem stub_has_no_sidebar :
  (forall item,
     (exists f, Stub.getattr item = Stub.Function f) \/ Stub.getattr item = Stub.EmptyDict)
  /\ (forall item, Stub.enter (Stub.getattr item) = Stub.Raises Stub.NotAContextManager)
  /\ Stub.with_sidebar = Stub.Raises Stub.NotAContextManager
  /\ (forall a, Stub.slider a = Stub.Raises Stub.NotCallable)
  /\ (forall a, Stub.call (Stub.getattr "text_input") a = Stub.Returns (Stub.Text ""))
  /\ (forall a, Stub.call (Stub.getattr "checkbox") a = Stub.Returns (Stub.Text ""))
  /\ (forall a, Stub.call (Stub.getattr "multiselect") a
                = Stub.Returns (Stub.kw_get (Stub.keywords a) "default" (Stub.Items []))).
Proof.
  assert (H : forall item,
     (exists f, Stub.getattr item = Stub.Function f)
     \/ Stub.getattr item = Stub.EmptyDict).
  { intros item. unfold Stub.getattr.
    destruct (Str.mem item ["columns"; "sidebar"]); [left; eexists; reflexivity |].
    destruct (String.eqb item "cache_data"); [left; eexists; reflexivity |].
    destruct (Str.mem item ["secrets"; "slider"]); [right; reflexivity |].
    destruct (Str.mem item ["multiselect"; "text_input"; "checkbox"]);
      left; eexists; reflexivity. }
  split; [exact H |]. split.
  - intros item. destruct (H item) as [[f E] | E]; rewrite E; reflexivity.
  - repeat split.
Qed.
